(** * A shallow embedding of the MacCMS V10 compatibility adapter

    Sources embedded here:
    - [src/lib/maccms.params.ts]      (module [Params])
    - [src/lib/eporner.client.ts]     (module [Client])
    - [src/lib/maccms.cache.ts]       (module [Cache], one inner module per
                                       class of the file)
    - [src/lib/maccms.transformer.ts] (modules [Schema], [MacCMSTransformer])
    - [src/app/api/maccms/route.ts]   (module [Route])

    JavaScript strings are sequences of UTF-16 code units and are modelled as
    [list Z]; numbers that the adapter handles are integer valued and are
    modelled as [Z] (a double represents every integer of magnitude below
    2^53 exactly; beyond that the engine rounds, which the model does not).
    [undefined] is [None]. *)

From Stdlib Require Import ZArith List Bool Lia Ascii.
From Stdlib Require String.
From Stdlib Require QArith.
From Stdlib Require Import Permutation.
Import ListNotations String.StringSyntax.
Delimit Scope string_scope with string.
Open Scope string_scope.
Open Scope Z_scope.

(* ================================================================== *)
(** * JavaScript built-ins used by the sources *)
(* ================================================================== *)

Module JS.

(** A string is the list of its UTF-16 code units. *)
Definition jsstring := list Z.

(** Literals are written as UTF-8 Rocq strings and decoded to code units. *)
Fixpoint utf16_of_utf8 (bs : list Z) : jsstring :=
  match bs with
  | [] => []
  | b0 :: r =>
    if b0 <? 128 then b0 :: utf16_of_utf8 r
    else if b0 <? 224 then
      match r with
      | b1 :: r1 => ((b0 mod 32) * 64 + b1 mod 64) :: utf16_of_utf8 r1
      | _ => []
      end
    else if b0 <? 240 then
      match r with
      | b1 :: b2 :: r2 =>
        ((b0 mod 16) * 4096 + (b1 mod 64) * 64 + b2 mod 64) :: utf16_of_utf8 r2
      | _ => []
      end
    else
      match r with
      | b1 :: b2 :: b3 :: r3 =>
        let cp := (b0 mod 8) * 262144 + (b1 mod 64) * 4096
                  + (b2 mod 64) * 64 + b3 mod 64 - 65536 in
        (55296 + cp / 1024) :: (56320 + cp mod 1024) :: utf16_of_utf8 r3
      | _ => []
      end
  end.

Definition js (s : String.string) : jsstring :=
  utf16_of_utf8
    (map (fun a => Z.of_N (N_of_ascii a)) (String.list_ascii_of_string s)).

Arguments js s%_string.

Fixpoint jsstring_eqb (a b : jsstring) : bool :=
  match a, b with
  | [], [] => true
  | x :: a', y :: b' => (x =? y) && jsstring_eqb a' b'
  | _, _ => false
  end.

(** [s === lit] for a literal [lit]. *)
Definition is_lit (s : jsstring) (lit : String.string) : bool := jsstring_eqb s (js lit).

Arguments is_lit s lit%_string.

(** [x === lit] for a possibly undefined string [x]. *)
Definition strict_eq (x : option jsstring) (lit : jsstring) : bool :=
  match x with
  | Some s => jsstring_eqb s lit
  | None => false
  end.

(** Truthiness of [string | undefined]: defined and not empty. *)
Definition truthy (x : option jsstring) : bool :=
  match x with
  | Some (_ :: _) => true
  | _ => false
  end.

Definition nonempty (s : jsstring) : bool :=
  match s with [] => false | _ :: _ => true end.

(** WhiteSpace and LineTerminator code units: the class [\s] of regular
    expressions, which is also what [trim] and [parseInt] skip. *)
Definition isWhiteSpace (c : Z) : bool :=
  ((9 <=? c) && (c <=? 13)) || (c =? 32) || (c =? 160) || (c =? 5760)
  || ((8192 <=? c) && (c <=? 8202)) || (c =? 8232) || (c =? 8233)
  || (c =? 8239) || (c =? 8287) || (c =? 12288) || (c =? 65279).

Fixpoint trimStart (s : jsstring) : jsstring :=
  match s with
  | [] => []
  | c :: r => if isWhiteSpace c then trimStart r else s
  end.

Definition trimEnd (s : jsstring) : jsstring := rev (trimStart (rev s)).

Definition trim (s : jsstring) : jsstring := trimEnd (trimStart s).

(** [substring(0, n)] *)
Definition substring0 (n : nat) (s : jsstring) : jsstring := firstn n s.

(** [toLowerCase]: the mapping of the Latin capital letters.  The sources
    compare the lower-cased text with ASCII literals only; no other code
    unit lower-cases to one of the letters of those literals, so the
    mapping of the remaining code units is left out. *)
Definition lowerUnit (c : Z) : Z :=
  if (65 <=? c) && (c <=? 90) then c + 32 else c.

Definition toLowerCase (s : jsstring) : jsstring := map lowerUnit s.

(** Value of a digit of [parseInt], for radices up to 36. *)
Definition digitValue (c : Z) : option Z :=
  if (48 <=? c) && (c <=? 57) then Some (c - 48)
  else if (97 <=? c) && (c <=? 122) then Some (c - 87)
  else if (65 <=? c) && (c <=? 90) then Some (c - 55)
  else None.

(** The longest prefix of digits below the radix; [acc] is [None] until a
    digit has been read. *)
Fixpoint parseDigits (R : Z) (s : jsstring) (acc : option Z) : option Z :=
  match s with
  | [] => acc
  | c :: r =>
    match digitValue c with
    | Some d =>
      if d <? R
      then parseDigits R r (Some (R * match acc with Some a => a | None => 0 end + d))
      else acc
    | None => acc
    end
  end.

(** [parseInt(s, R)] for the radices the sources use (10 and 36, for which
    no [0x] prefix is recognised).  [None] is [NaN]. *)
Definition parseInt (s : jsstring) (R : Z) : option Z :=
  match trimStart s with
  | 45 :: r => option_map Z.opp (parseDigits R r None)
  | 43 :: r => parseDigits R r None
  | r => parseDigits R r None
  end.

(** [replace] with the character class of the five HTML-special
    characters (less-than, greater-than, double quote, apostrophe,
    ampersand), global, replacement empty. *)
Definition isHtmlSpecial (c : Z) : bool :=
  (c =? 60) || (c =? 62) || (c =? 34) || (c =? 39) || (c =? 38).

Definition stripHtmlSpecial (s : jsstring) : jsstring :=
  filter (fun c => negb (isHtmlSpecial c)) s.

(** [replace] with the pattern of one or more white-space characters,
    global, replacement one space: every maximal run of white space becomes
    a single space.  [inRun] tells that the previous code unit belonged to
    the run being replaced. *)
Fixpoint collapseFrom (inRun : bool) (s : jsstring) : jsstring :=
  match s with
  | [] => []
  | c :: r =>
    if isWhiteSpace c
    then (if inRun then collapseFrom true r else 32 :: collapseFrom true r)
    else c :: collapseFrom false r
  end.

Definition collapseWhiteSpace (s : jsstring) : jsstring := collapseFrom false s.

(** ** Values, [String(v)], [Object.keys] and the default [sort] *)

(** The primitive values a parameter bag of type [any] can hold. *)
Inductive value :=
| VUndefined
| VNull
| VBoolean (b : bool)
| VNumber (n : Z)
| VString (s : jsstring).

Fixpoint digitsOfUint (u : Decimal.uint) : jsstring :=
  match u with
  | Decimal.Nil => []
  | Decimal.D0 r => 48 :: digitsOfUint r
  | Decimal.D1 r => 49 :: digitsOfUint r
  | Decimal.D2 r => 50 :: digitsOfUint r
  | Decimal.D3 r => 51 :: digitsOfUint r
  | Decimal.D4 r => 52 :: digitsOfUint r
  | Decimal.D5 r => 53 :: digitsOfUint r
  | Decimal.D6 r => 54 :: digitsOfUint r
  | Decimal.D7 r => 55 :: digitsOfUint r
  | Decimal.D8 r => 56 :: digitsOfUint r
  | Decimal.D9 r => 57 :: digitsOfUint r
  end.

(** Decimal rendering of an integer-valued number. *)
Definition numberToString (n : Z) : jsstring :=
  match Z.to_int n with
  | Decimal.Pos u => digitsOfUint u
  | Decimal.Neg u => 45 :: digitsOfUint u
  end.

(** [String(v)] *)
Definition ToString (v : value) : jsstring :=
  match v with
  | VUndefined => js "undefined"
  | VNull => js "null"
  | VBoolean true => js "true"
  | VBoolean false => js "false"
  | VNumber n => numberToString n
  | VString s => s
  end.

(** An object used as a map: its own properties in insertion order, the
    keys pairwise distinct. *)
Definition object := list (jsstring * value).

(** [Object.keys(o)].  (The engine lists integer-like keys first; the one
    caller sorts the result, so that reordering is not modelled.) *)
Definition keys (o : object) : list jsstring := map fst o.

(** [o[key]] *)
Fixpoint get (o : object) (key : jsstring) : value :=
  match o with
  | [] => VUndefined
  | (k, v) :: r => if jsstring_eqb k key then v else get r key
  end.

(** The comparison of the default [sort]: by code units, lexicographic. *)
Fixpoint str_leb (a b : jsstring) : bool :=
  match a, b with
  | [], _ => true
  | _ :: _, [] => false
  | x :: a', y :: b' =>
    if x <? y then true else if y <? x then false else str_leb a' b'
  end.

Fixpoint insert (k : jsstring) (l : list jsstring) : list jsstring :=
  match l with
  | [] => [k]
  | x :: r => if str_leb k x then k :: l else x :: insert k r
  end.

Fixpoint sort (l : list jsstring) : list jsstring :=
  match l with
  | [] => []
  | k :: r => insert k (sort r)
  end.

(** [parts.join(sep)] *)
Fixpoint join (sep : jsstring) (parts : list jsstring) : jsstring :=
  match parts with
  | [] => []
  | [p] => p
  | p :: r => p ++ sep ++ join sep r
  end.

(** ** [encodeURIComponent], UTF-8 and base64 *)

Definition isHighSurrogate (c : Z) : bool := (55296 <=? c) && (c <=? 56319).
Definition isLowSurrogate (c : Z) : bool := (56320 <=? c) && (c <=? 57343).

(** The code point of a surrogate pair. *)
Definition pairCodePoint (hi lo : Z) : Z := (hi - 55296) * 1024 + (lo - 56320) + 65536.

(** The UTF-8 octets of a code point. *)
Definition utf8 (cp : Z) : list Z :=
  if cp <? 128 then [cp]
  else if cp <? 2048 then [192 + cp / 64; 128 + cp mod 64]
  else if cp <? 65536 then
    [224 + cp / 4096; 128 + (cp / 64) mod 64; 128 + cp mod 64]
  else
    [240 + cp / 262144; 128 + (cp / 4096) mod 64; 128 + (cp / 64) mod 64;
     128 + cp mod 64].

Definition hexDigit (d : Z) : Z := if d <? 10 then 48 + d else 55 + d.

(** An octet as a percent sign and two upper-case hexadecimal digits. *)
Definition percent (b : Z) : jsstring := [37; hexDigit (b / 16); hexDigit (b mod 16)].

(** Letters, digits and the marks that [encodeURIComponent] leaves as
    they are: hyphen, underscore, full stop, exclamation mark, tilde,
    asterisk, apostrophe and the two parentheses. *)
Definition isUnreserved (c : Z) : bool :=
  ((97 <=? c) && (c <=? 122)) || ((65 <=? c) && (c <=? 90))
  || ((48 <=? c) && (c <=? 57))
  || (c =? 45) || (c =? 95) || (c =? 46) || (c =? 33) || (c =? 126)
  || (c =? 42) || (c =? 39) || (c =? 40) || (c =? 41).

(** The code points of a string; [None] when it holds a lone surrogate
    (or something that is not a code unit). *)
Fixpoint codePoints (s : jsstring) : option (list Z) :=
  match s with
  | [] => Some []
  | c :: r =>
    if isLowSurrogate c then None
    else if isHighSurrogate c then
      match r with
      | d :: r' =>
        if isLowSurrogate d
        then option_map (cons (pairCodePoint c d)) (codePoints r')
        else None
      | [] => None
      end
    else if (0 <=? c) && (c <? 65536) then option_map (cons c) (codePoints r)
    else None
  end.

Definition encodeCodePoint (cp : Z) : jsstring :=
  if isUnreserved cp then [cp] else flat_map percent (utf8 cp).

(** [encodeURIComponent(s)]; [None] is the [URIError] that a lone
    surrogate raises. *)
Definition encodeURIComponent (s : jsstring) : option jsstring :=
  option_map (flat_map encodeCodePoint) (codePoints s).

(** [Buffer.from(s)]: the UTF-8 octets of the string, a lone surrogate
    being replaced by U+FFFD. *)
Fixpoint bufferFrom (s : jsstring) : list Z :=
  match s with
  | [] => []
  | c :: r =>
    if isHighSurrogate c then
      match r with
      | d :: r' =>
        if isLowSurrogate d
        then utf8 (pairCodePoint c d) ++ bufferFrom r'
        else [239; 191; 189] ++ bufferFrom r
      | [] => [239; 191; 189]
      end
    else if isLowSurrogate c then [239; 191; 189] ++ bufferFrom r
    else utf8 c ++ bufferFrom r
  end.

(** The base64 alphabet. *)
Definition b64char (n : Z) : Z :=
  if n <? 26 then 65 + n
  else if n <? 52 then 71 + n
  else if n <? 62 then n - 4
  else if n =? 62 then 43
  else 47.

(** [buffer.toString('base64')] *)
Fixpoint base64 (bs : list Z) : jsstring :=
  match bs with
  | [] => []
  | [a] => [b64char (a / 4); b64char ((a mod 4) * 16); 61; 61]
  | [a; b] =>
    [b64char (a / 4); b64char ((a mod 4) * 16 + b / 16);
     b64char ((b mod 16) * 4); 61]
  | a :: b :: c :: r =>
    b64char (a / 4) :: b64char ((a mod 4) * 16 + b / 16)
    :: b64char ((b mod 16) * 4 + c / 64) :: b64char (c mod 64) :: base64 r
  end.

(** ** Numbers that may be non-finite *)

Inductive number :=
| Int (z : Z)
| NaN
| Infinity
| NegInfinity.

(** [Math.ceil(a / b)] for an integer or undefined [a] and an integer [b]. *)
Definition ceilDiv (a : option Z) (b : Z) : number :=
  match a with
  | None => NaN
  | Some a =>
    if b =? 0 then
      if a =? 0 then NaN else if a >? 0 then Infinity else NegInfinity
    else Int (- ((- a) / b))
  end.

(** [x || y] for numbers: [x] unless it is undefined or zero. *)
Definition orNumber (x : option Z) (y : Z) : Z :=
  match x with
  | Some n => if n =? 0 then y else n
  | None => y
  end.

End JS.

(* ================================================================== *)
(** * [maccms.params.ts]: the parameter processor *)
(* ================================================================== *)

Module Params.
Import JS.

(** The raw parameters the processor reads.  (The remaining keys of the
    interface are stored by [processParams] but never read.)  [by_] and
    [end_] are the keys [by] and [end]. *)
Record MacCMSParams := {
  ac : option jsstring;
  t : option jsstring;
  pg : option jsstring;
  wd : option jsstring;
  ids : option jsstring;
  h : option jsstring;
  limit : option jsstring;
  order : option jsstring;
  by_ : option jsstring;
  area : option jsstring;
  year : option jsstring;
  start : option jsstring;
  end_ : option jsstring
}.

Definition noParams : MacCMSParams :=
  {| ac := None; t := None; pg := None; wd := None; ids := None; h := None;
     limit := None; order := None; by_ := None; area := None; year := None;
     start := None; end_ := None |}.

(** The action ['list'] is [act_list], and so on. *)
Inductive Action := act_list | act_detail | act_search | act_category.

(** ['top-rated'] is [top_rated], ['most-viewed'] is [most_viewed]. *)
Inductive Order := latest | longest | shortest | top_rated | most_viewed.

(** Dates are milliseconds since the epoch. *)
Record TimeRange := {
  range_start : option Z;
  range_end : option Z
}.

Record Filters := {
  f_area : option jsstring;
  f_year : option jsstring;
  f_order : option Order;
  f_timeRange : option TimeRange
}.

(** [plimit] is the member [limit]. *)
Record ProcessedParams := {
  action : Action;
  keyword : option jsstring;
  page : Z;
  plimit : Z;
  categoryId : option Z;
  videoIds : option (list jsstring);
  filters : Filters
}.

(** What [parseFilters] reads from the environment: the wall clock and the
    engine's date parser ([None] for an invalid date). *)
Record Clock := {
  nowMs : Z;
  fullYear : Z;
  dateParse : jsstring -> option Z
}.

Definition DEFAULT_PAGE : Z := 1.
Definition DEFAULT_LIMIT : Z := 20.
Definition MAX_LIMIT : Z := 100.
Definition MIN_LIMIT : Z := 1.

(** [params.wd && params.wd.trim()] as a condition *)
Definition hasKeyword (params : MacCMSParams) : bool :=
  match wd params with
  | Some w => nonempty w && nonempty (trim w)
  | None => false
  end.

Definition determineAction (params : MacCMSParams) : Action :=
  let ac := option_map toLowerCase (ac params) in
  if strict_eq ac (js "detail") || truthy (ids params) then act_detail
  else if strict_eq ac (js "list") || strict_eq ac (js "videolist") then
    if hasKeyword params then act_search
    else if strict_eq (t params) (js "0") || strict_eq ac (js "list") then act_category
    else act_list
  else if hasKeyword params then act_search
  else if truthy (ids params) then act_detail
  else act_list.

Definition parsePage (pageStr : option jsstring) : Z :=
  if negb (truthy pageStr) then DEFAULT_PAGE
  else
    match parseInt (match pageStr with Some s => s | None => [] end) 10 with
    | None => DEFAULT_PAGE
    | Some page => if page <? 1 then DEFAULT_PAGE else page
    end.

Definition parseLimit (limitStr : option jsstring) : Z :=
  if negb (truthy limitStr) then DEFAULT_LIMIT
  else
    match parseInt (match limitStr with Some s => s | None => [] end) 10 with
    | None => DEFAULT_LIMIT
    | Some limit =>
      if limit <? MIN_LIMIT then MIN_LIMIT
      else if limit >? MAX_LIMIT then MAX_LIMIT
      else limit
    end.

Definition parseKeyword (keyword : option jsstring) : option jsstring :=
  match keyword with
  | None => None
  | Some k =>
    if negb (nonempty k) || negb (nonempty (trim k)) then None
    else Some (substring0 100 (collapseWhiteSpace (stripHtmlSpecial (trim k))))
  end.

Definition parseCategoryId (categoryStr : option jsstring) : option Z :=
  match categoryStr with
  | None => None
  | Some [] => None
  | Some s => parseInt s 10
  end.

(** Separators of the id list: comma, semicolon, their full-width forms,
    and white space. *)
Definition isSeparator (c : Z) : bool :=
  (c =? 44) || (c =? 65292) || (c =? 59) || (c =? 65307) || isWhiteSpace c.

(** [split] on runs of separators.  The head of the result is the piece
    that starts at the current position; [inRun] tells that the previous
    code unit was a separator (of a run that already closed a piece). *)
Fixpoint splitOn (isSep : Z -> bool) (inRun : bool) (s : jsstring)
  : list jsstring :=
  match s with
  | [] => [[]]
  | c :: r =>
    if isSep c then
      if inRun then splitOn isSep true r else [] :: splitOn isSep true r
    else
      match splitOn isSep false r with
      | p :: ps => (c :: p) :: ps
      | [] => [[c]]
      end
  end.

Definition split (isSep : Z -> bool) (s : jsstring) : list jsstring :=
  splitOn isSep false s.

Definition isAlnum (c : Z) : bool :=
  ((97 <=? c) && (c <=? 122)) || ((65 <=? c) && (c <=? 90))
  || ((48 <=? c) && (c <=? 57)).

(** [id.length > 0 && /^[a-zA-Z0-9]+$/.test(id)] *)
Definition validId (id : jsstring) : bool :=
  nonempty id && forallb isAlnum id.

Definition parseVideoIds (idsStr : option jsstring) : option (list jsstring) :=
  match idsStr with
  | None => None
  | Some s =>
    if negb (nonempty s) || negb (nonempty (trim s)) then None
    else Some (firstn 10 (filter validId (map trim (split isSeparator s))))
  end.

Definition parseOrder (order by_ : option jsstring) : Order :=
  let orderStr :=
    toLowerCase
      (if truthy order then match order with Some s => s | None => [] end
       else if truthy by_ then match by_ with Some s => s | None => [] end
       else []) in
  if is_lit orderStr "time" || is_lit orderStr "addtime" || is_lit orderStr "latest" || is_lit orderStr "desc" then latest
  else if is_lit orderStr "duration" || is_lit orderStr "long" || is_lit orderStr "longest" then longest
  else if is_lit orderStr "short" || is_lit orderStr "shortest" then shortest
  else if is_lit orderStr "score" || is_lit orderStr "rate" || is_lit orderStr "rating" || is_lit orderStr "top" then top_rated
  else if is_lit orderStr "hits" || is_lit orderStr "views" || is_lit orderStr "popular" then most_viewed
  else latest.

Definition isDigit (c : Z) : bool := (48 <=? c) && (c <=? 57).

Definition parseDate (clock : Clock) (dateStr : jsstring) : option Z :=
  if forallb isDigit dateStr && (length dateStr =? 10)%nat
  then option_map (fun n => n * 1000) (parseInt dateStr 10)
  else if forallb isDigit dateStr && (length dateStr =? 13)%nat
  then parseInt dateStr 10
  else dateParse clock dateStr.

Definition parseTimeRange (clock : Clock) (start end_ hours : option jsstring)
  : option TimeRange :=
  let byHours :=
    match hours with
    | Some (c :: hs) =>
      match parseInt (c :: hs) 10 with
      | Some hoursNum =>
        if (hoursNum >? 0) && (hoursNum <=? 8760)
        then Some {| range_start := Some (nowMs clock - hoursNum * 60 * 60 * 1000);
                     range_end := Some (nowMs clock) |}
        else None
      | None => None
      end
    | _ => None
    end in
  match byHours with
  | Some r => Some r
  | None =>
    let s := match start with
             | Some (c :: r) => parseDate clock (c :: r)
             | _ => None
             end in
    let e := match end_ with
             | Some (c :: r) => parseDate clock (c :: r)
             | _ => None
             end in
    match s, e with
    | None, None => None
    | _, _ => Some {| range_start := s; range_end := e |}
    end
  end.

Definition parseFilters (clock : Clock) (params : MacCMSParams) : Filters :=
  {| f_area :=
       match area params with
       | Some a => if nonempty a && nonempty (trim a) then Some (trim a) else None
       | None => None
       end;
     f_year :=
       match year params with
       | Some y =>
         if nonempty y && nonempty (trim y) then
           match parseInt y 10 with
           | Some n => if (n >=? 1900) && (n <=? fullYear clock) then Some y else None
           | None => None
           end
         else None
       | None => None
       end;
     f_order := Some (parseOrder (order params) (by_ params));
     f_timeRange := parseTimeRange clock (start params) (end_ params) (h params) |}.

Definition parseParams (clock : Clock) (params : MacCMSParams) : ProcessedParams :=
  {| action := determineAction params;
     keyword := parseKeyword (wd params);
     page := parsePage (pg params);
     plimit := parseLimit (limit params);
     categoryId := parseCategoryId (t params);
     videoIds := parseVideoIds (ids params);
     filters := parseFilters clock params |}.

(** [params[key] = value] *)
Definition setParam (params : MacCMSParams) (key value : jsstring) : MacCMSParams :=
  let v := Some value in
  let '{| ac := a; t := t0; pg := p; wd := w; ids := i; h := h0; limit := l;
          order := o; by_ := b; area := ar; year := y; start := s; end_ := e |}
    := params in
  if is_lit key "ac" then Build_MacCMSParams v t0 p w i h0 l o b ar y s e
  else if is_lit key "t" then Build_MacCMSParams a v p w i h0 l o b ar y s e
  else if is_lit key "pg" then Build_MacCMSParams a t0 v w i h0 l o b ar y s e
  else if is_lit key "wd" then Build_MacCMSParams a t0 p v i h0 l o b ar y s e
  else if is_lit key "ids" then Build_MacCMSParams a t0 p w v h0 l o b ar y s e
  else if is_lit key "h" then Build_MacCMSParams a t0 p w i v l o b ar y s e
  else if is_lit key "limit" then Build_MacCMSParams a t0 p w i h0 v o b ar y s e
  else if is_lit key "order" then Build_MacCMSParams a t0 p w i h0 l v b ar y s e
  else if is_lit key "by" then Build_MacCMSParams a t0 p w i h0 l o v ar y s e
  else if is_lit key "area" then Build_MacCMSParams a t0 p w i h0 l o b v y s e
  else if is_lit key "year" then Build_MacCMSParams a t0 p w i h0 l o b ar v s e
  else if is_lit key "start" then Build_MacCMSParams a t0 p w i h0 l o b ar y v e
  else if is_lit key "end" then Build_MacCMSParams a t0 p w i h0 l o b ar y s v
  else params.

(** The entries of a [URLSearchParams], in order; a later entry of the
    same key overwrites an earlier one. *)
Definition SearchParams := list (jsstring * jsstring).

Definition processParams (clock : Clock) (searchParams : SearchParams)
  : ProcessedParams :=
  parseParams clock
    (fold_left (fun params kv => setParam params (fst kv) (snd kv))
               searchParams noParams).

Record Validation := {
  valid : bool;
  error : option jsstring
}.

Definition validateParams (params : ProcessedParams) : Validation :=
  if match action params with act_search => negb (truthy (keyword params)) | _ => false end
  then {| valid := false; error := Some (js "搜索关键词不能为空") |}
  else if match action params with
          | act_detail => match videoIds params with
                      | None => true
                      | Some l => (length l =? 0)%nat
                      end
          | _ => false
          end
  then {| valid := false; error := Some (js "视频ID不能为空") |}
  else if page params <? 1
  then {| valid := false; error := Some (js "页码必须大于0") |}
  else if (plimit params <? MIN_LIMIT) || (plimit params >? MAX_LIMIT)
  then {| valid := false; error := Some (js "每页数量必须在1-100之间") |}
  else {| valid := true; error := None |}.

(** The string of an action and of an order, as templates print them. *)
Definition actionValue (a : Action) : jsstring :=
  match a with
  | act_list => js "list"
  | act_detail => js "detail"
  | act_search => js "search"
  | act_category => js "category"
  end.

Definition orderValue (o : Order) : jsstring :=
  match o with
  | latest => js "latest"
  | longest => js "longest"
  | shortest => js "shortest"
  | top_rated => js "top-rated"
  | most_viewed => js "most-viewed"
  end.

(** [keyParts.push(part)] when the condition holds *)
Definition pushIf (cond : bool) (keyParts : list jsstring) (part : jsstring)
  : list jsstring :=
  if cond then keyParts ++ [part] else keyParts.

(** The key parts of [generateCacheKey], before they are joined. *)
Definition cacheKeyParts (params : ProcessedParams) : list jsstring :=
  let keyParts :=
    [js "action:" ++ actionValue (action params);
     js "page:" ++ numberToString (page params);
     js "limit:" ++ numberToString (plimit params)] in
  let keyParts :=
    pushIf (truthy (keyword params)) keyParts
           (js "keyword:" ++ match keyword params with Some k => k | None => [] end) in
  let keyParts :=
    match categoryId params with
    | Some c => pushIf (negb (c =? 0)) keyParts (js "category:" ++ numberToString c)
    | None => keyParts
    end in
  let keyParts :=
    match videoIds params with
    | Some l => keyParts ++ [js "ids:" ++ join (js ",") l]
    | None => keyParts
    end in
  let keyParts :=
    pushIf (truthy (f_area (filters params))) keyParts
           (js "area:" ++ match f_area (filters params) with Some a => a | None => [] end) in
  let keyParts :=
    pushIf (truthy (f_year (filters params))) keyParts
           (js "year:" ++ match f_year (filters params) with Some y => y | None => [] end) in
  match f_order (filters params) with
  | Some o => keyParts ++ [js "order:" ++ orderValue o]
  | None => keyParts
  end.

Definition generateCacheKey (params : ProcessedParams) : jsstring :=
  join (js "|") (cacheKeyParts params).

End Params.

(* ================================================================== *)
(** * [eporner.client.ts]: the upstream provider's data *)
(* ================================================================== *)

Module Client.
Import JS.

Record EpornerVideo := {
  id : jsstring;
  title : jsstring;
  keywords : jsstring;
  views : Z;
  url : jsstring;
  embed : jsstring;
  length_sec : Z
}.

(** A search page as it arrives; a field the provider left out is [None]. *)
Record EpornerSearchResponse := {
  total_count : option Z;
  current_page : option Z;
  total_pages : option Z;
  videos : option (list EpornerVideo)
}.

Definition sanitizeQuery (query : jsstring) : jsstring :=
  substring0 100 (stripHtmlSpecial (trim query)).

(** A thumbnail of a video ([default_thumb] and the members of [thumbs]). *)
Record Thumb := {
  src : jsstring;
  width : Z;
  height : Z
}.


(** [s.padStart(2, '0')] *)
Definition padStart2 (s : jsstring) : jsstring :=
  repeat 48 (2 - length s) ++ s.

(** [formatDuration] for a whole number of seconds. *)
Definition formatDuration (seconds : Z) : jsstring :=
  if (seconds =? 0) || (seconds <=? 0) then js "未知"
  else
    let hours := seconds / 3600 in
    let minutes := (seconds mod 3600) / 60 in
    let remainingSeconds := seconds mod 60 in
    if hours >? 0 then
      numberToString hours ++ js ":" ++ padStart2 (numberToString minutes)
      ++ js ":" ++ padStart2 (numberToString remainingSeconds)
    else
      numberToString minutes ++ js ":" ++ padStart2 (numberToString remainingSeconds).

End Client.

(* ================================================================== *)
(** * The legacy record schema ([maccms.transformer.ts], interfaces) *)
(* ================================================================== *)

Module Schema.
Import JS.

(** The fields of a legacy record that are derived from the upstream
    video by string processing, and the record id.  The other fields of
    the interface are constants or renderings of the clock and of
    floating-point numbers; nothing below reads them. *)
Record MacCMSVideo := {
  vod_id : Z;
  vod_name : jsstring;
  vod_tag : jsstring;
  vod_blurb : jsstring;
  vod_hits : Z;
  vod_play_from : jsstring;
  vod_play_url : jsstring;
  type_id : Z;
  type_name : jsstring
}.

Record MacCMSCategory := {
  c_type_id : Z;
  c_type_name : jsstring;
  c_type_en : jsstring;
  c_type_sort : Z;
  c_type_mid : Z;
  c_type_pid : Z;
  c_type_status : Z
}.

End Schema.

(* ================================================================== *)
(** * [maccms.cache.ts]: cache policy, error taxonomy, retry, metrics *)
(* ================================================================== *)

Module Cache.
Import JS.

Inductive CacheType := ct_search | ct_detail | ct_category | ct_error | ct_default.

Record CacheConfig := {
  defaultTTL : Z;
  searchTTL : Z;
  detailTTL : Z;
  categoryTTL : Z;
  errorTTL : Z
}.

Inductive ErrorType :=
| VALIDATION
| API_ERROR
| NETWORK_ERROR
| RATE_LIMIT
| TIMEOUT
| UNKNOWN.

(** The string value of each member of the enumeration. *)
Definition errorTypeValue (ty : ErrorType) : jsstring :=
  match ty with
  | VALIDATION => js "VALIDATION_ERROR"
  | API_ERROR => js "API_ERROR"
  | NETWORK_ERROR => js "NETWORK_ERROR"
  | RATE_LIMIT => js "RATE_LIMIT_ERROR"
  | TIMEOUT => js "TIMEOUT_ERROR"
  | UNKNOWN => js "UNKNOWN_ERROR"
  end.

(** [details] is only ever the object holding the original message. *)
Record ErrorDetail := {
  type : ErrorType;
  message : jsstring;
  details : option (option jsstring);
  timestamp : Z
}.

(** A thrown error object, by the properties the handlers read:
    [name], [code], [response.status], [type] and [message]. *)
Record JsError := {
  err_name : option jsstring;
  err_code : option jsstring;
  err_status : option Z;
  err_type : option jsstring;
  err_message : option jsstring
}.

(** The [error] member of an error envelope. *)
Record ErrorInfo := {
  e_type : ErrorType;
  e_timestamp : Z;
  e_details : option (option jsstring)
}.

(** The JSON envelope of every response.  A member that the response does
    not have is [None]. *)
Record Envelope := {
  code : Z;
  msg : jsstring;
  page : Z;
  pagecount : number;
  limit : Z;
  total : Z;
  list_ : option (list Schema.MacCMSVideo);
  class : option (list Schema.MacCMSCategory);
  error : option ErrorInfo
}.

Module MacCMSCacheManager.

Definition config : CacheConfig :=
  {| defaultTTL := 300; searchTTL := 600; detailTTL := 1800;
     categoryTTL := 3600; errorTTL := 60 |}.

Definition getCacheTime (ty : CacheType) : Z :=
  match ty with
  | ct_search => searchTTL config
  | ct_detail => detailTTL config
  | ct_category => categoryTTL config
  | ct_error => errorTTL config
  | ct_default => defaultTTL config
  end.

(** The parts [key=encodeURIComponent(String(params[key]))], for the
    given keys in turn; [None] when an encoding raises. *)
Fixpoint encodeParts (params : object) (ks : list jsstring)
  : option (list jsstring) :=
  match ks with
  | [] => Some []
  | key :: r =>
    match encodeURIComponent (ToString (get params key)) with
    | None => None
    | Some e =>
      match encodeParts params r with
      | None => None
      | Some parts => Some ((key ++ js "=" ++ e) :: parts)
      end
    end
  end.

Definition generateCacheKey (prefix : jsstring) (params : object)
  : option jsstring :=
  match encodeParts params (sort (keys params)) with
  | None => None
  | Some parts =>
    let sortedParams := join (js "&") parts in
    Some (js "maccms:" ++ prefix ++ js ":" ++ base64 (bufferFrom sortedParams))
  end.

(** A JSON response and the headers [createCachedResponse] sets. *)
Record NextResponse (D : Type) := {
  json : D;
  header_Cache_Control : jsstring;
  header_CDN_Cache_Control : jsstring;
  header_Vercel_CDN_Cache_Control : jsstring;
  header_X_Cache_Type : CacheType;
  header_X_Cache_TTL : jsstring
}.

Arguments json {D}.
Arguments header_Cache_Control {D}.
Arguments header_CDN_Cache_Control {D}.
Arguments header_Vercel_CDN_Cache_Control {D}.
Arguments header_X_Cache_Type {D}.
Arguments header_X_Cache_TTL {D}.

Definition createCachedResponse {D : Type} (data : D) (cacheType : CacheType)
  : NextResponse D :=
  let cacheTime := numberToString (getCacheTime cacheType) in
  {| json := data;
     header_Cache_Control :=
       js "public, max-age=" ++ cacheTime ++ js ", s-maxage=" ++ cacheTime;
     header_CDN_Cache_Control := js "public, s-maxage=" ++ cacheTime;
     header_Vercel_CDN_Cache_Control := js "public, s-maxage=" ++ cacheTime;
     header_X_Cache_Type := cacheType;
     header_X_Cache_TTL := cacheTime |}.

End MacCMSCacheManager.

(** ** The state the handlers act on *)

Inductive LogEntry :=
| LogError (e : ErrorDetail) (context : jsstring)
| LogRetry (attempt waitTime : Z)
| LogSlowQuery (operation : jsstring) (duration : Z).

(** [Env] is the outside world (provider, network, clock); the console
    and the process-wide metrics map are kept explicitly. *)
Record World (Env : Type) := {
  env : Env;
  console : list LogEntry;
  metrics : list (jsstring * list Z)
}.

Arguments env {Env}.
Arguments console {Env}.
Arguments metrics {Env}.

(** What the timers and the clock do to the outside world. *)
Record Timer (Env : Type) := {
  clock : Env -> Params.Clock;
  sleep : Z -> Env -> Env
}.

Arguments clock {Env}.
Arguments sleep {Env}.

(** An asynchronous operation: it returns a value or throws an error
    object, and changes the world. *)
Definition Async (Env A : Type) := World Env -> (JsError + A) * World Env.

Definition dateNow {Env} (tm : Timer Env) (w : World Env) : Z :=
  Params.nowMs (clock tm (env w)).

Definition log {Env} (entry : LogEntry) (w : World Env) : World Env :=
  {| env := env w; console := console w ++ [entry]; metrics := metrics w |}.

Module MacCMSErrorHandler.

Definition createError (ty : ErrorType) (message : jsstring)
  (details : option (option jsstring)) (now : Z) : ErrorDetail :=
  {| type := ty; message := message; details := details; timestamp := now |}.

Definition statusIn (error : JsError) (lo hi : Z) : bool :=
  match err_status error with
  | Some s => (s >=? lo) && (s <? hi)
  | None => false
  end.

Definition handleApiError (error : JsError) (now : Z) : ErrorDetail :=
  if strict_eq (err_name error) (js "AbortError")
     || strict_eq (err_code error) (js "ABORT_ERR")
  then createError TIMEOUT (js "请求超时，请稍后重试") None now
  else if strict_eq (err_code error) (js "ENOTFOUND")
          || strict_eq (err_code error) (js "ECONNREFUSED")
  then createError NETWORK_ERROR (js "网络连接失败") None now
  else if match err_status error with Some s => s =? 429 | None => false end
  then createError RATE_LIMIT (js "请求过于频繁，请稍后重试") None now
  else if statusIn error 400 500
  then createError API_ERROR (js "请求参数错误") None now
  else if match err_status error with Some s => s >=? 500 | None => false end
  then createError API_ERROR (js "服务器内部错误") None now
  else createError UNKNOWN (js "未知错误，请稍后重试")
                   (Some (err_message error)) now.

Definition handleValidationError (message : jsstring) (now : Z) : ErrorDetail :=
  createError VALIDATION message None now.

Definition createErrorResponse (error : ErrorDetail) : Envelope :=
  {| code := 0;
     msg := message error;
     page := 1;
     pagecount := Int 0;
     limit := 0;
     total := 0;
     list_ := Some [];
     class := None;
     error := Some {| e_type := type error;
                      e_timestamp := timestamp error;
                      e_details := details error |} |}.

Definition logError {Env} (error : ErrorDetail) (context : jsstring)
  (w : World Env) : World Env :=
  log (LogError error context) w.

End MacCMSErrorHandler.

Module MacCMSRetryHandler.

Definition shouldNotRetry (error : JsError) : bool :=
  if MacCMSErrorHandler.statusIn error 400 500 then true
  else if strict_eq (err_type error) (errorTypeValue VALIDATION) then true
  else false.

(** The loop of [withRetry], from iteration [attempt] on, with [n]
    iterations left before [attempt] exceeds [maxRetries].  What is thrown
    is an error object or, when the loop never ran, the [undefined] that
    [lastError] still holds ([None]). *)
Fixpoint retryLoop {Env A} (tm : Timer Env) (fn : Async Env A)
  (maxRetries delay backoff : Z) (n : nat) (attempt : Z)
  (lastError : option JsError) (w : World Env)
  : (option JsError + A) * World Env :=
  match n with
  | O => (inl lastError, w)
  | S n' =>
    match fn w with
    | (inr result, w1) => (inr result, w1)
    | (inl error, w1) =>
      if attempt =? maxRetries then (inl (Some error), w1)
      else if shouldNotRetry error then (inl (Some error), w1)
      else
        let waitTime := delay * backoff ^ (attempt - 1) in
        let w2 := {| env := sleep tm waitTime (env w1);
                     console := console w1; metrics := metrics w1 |} in
        let w3 := log (LogRetry attempt waitTime) w2 in
        retryLoop tm fn maxRetries delay backoff n' (attempt + 1) (Some error) w3
    end
  end.

Definition withRetry {Env A} (tm : Timer Env) (fn : Async Env A)
  (maxRetries delay backoff : Z) (w : World Env)
  : (option JsError + A) * World Env :=
  retryLoop tm fn maxRetries delay backoff (Z.to_nat maxRetries) 1 None w.

End MacCMSRetryHandler.

Module MacCMSPerformanceMonitor.

(** [times.push(duration)] and, beyond 100 samples, [times.shift()] *)
Definition pushSample (times : list Z) (duration : Z) : list Z :=
  let times' := times ++ [duration] in
  if (100 <? length times')%nat then tl times' else times'.

Fixpoint setSample (m : list (jsstring * list Z)) (operation : jsstring)
  (duration : Z) : list (jsstring * list Z) :=
  match m with
  | [] => [(operation, pushSample [] duration)]
  | (k, times) :: r =>
    if jsstring_eqb k operation then (k, pushSample times duration) :: r
    else (k, times) :: setSample r operation duration
  end.

Definition recordExecutionTime {Env} (tm : Timer Env) (operation : jsstring)
  (startTime : Z) (w : World Env) : World Env :=
  let duration := dateNow tm w - startTime in
  let w1 := {| env := env w; console := console w;
               metrics := setSample (metrics w) operation duration |} in
  if duration >? 5000 then log (LogSlowQuery operation duration) w1 else w1.

(** [this.metrics.get(operation)] *)
Fixpoint getSamples (m : list (jsstring * list Z)) (operation : jsstring)
  : option (list Z) :=
  match m with
  | [] => None
  | (k, times) :: r =>
    if jsstring_eqb k operation then Some times else getSamples r operation
  end.

(** The statistics of an operation.  [avg] is the exact quotient, of which
    the source holds the nearest double. *)
Record Stats := {
  avg : QArith_base.Q;
  min : Z;
  max : Z;
  count : Z
}.

(** [getStats], on the metrics map; [None] is [null]. *)
Definition getStats (m : list (jsstring * list Z)) (operation : jsstring)
  : option Stats :=
  match getSamples m operation with
  | None => None
  | Some [] => None
  | Some (time :: rest) =>
    let times := time :: rest in
    Some {| avg := QArith_base.Qmake (fold_left (fun sum time => sum + time) times 0)
                                     (Pos.of_nat (length times));
            min := fold_left Z.min rest time;
            max := fold_left Z.max rest time;
            count := Z.of_nat (length times) |}
  end.

End MacCMSPerformanceMonitor.

End Cache.

(* ================================================================== *)
(** * [maccms.transformer.ts]: upstream video to legacy record *)
(* ================================================================== *)

Module MacCMSTransformer.
Import JS Client Schema Cache.

Definition DEFAULT_TYPE_ID : Z := 3.
Definition DEFAULT_TYPE_NAME : jsstring := js "伦理片".

Definition cleanTitle (title : jsstring) : jsstring :=
  substring0 100 (trim (collapseWhiteSpace (stripHtmlSpecial title))).

Definition processTags (keywords : jsstring) : jsstring :=
  if negb (nonempty keywords) then []
  else
    join (js ",")
      (map trim
         (firstn 10
            (filter (fun tag => nonempty (trim tag))
                    (Params.split Params.isSeparator keywords)))).

Definition generatePlayUrl (video : EpornerVideo) : jsstring :=
  let playName := js "第1集" in
  let playUrl :=
    if nonempty (embed video) then embed video
    else if nonempty (url video) then url video
    else [] in
  playName ++ js "$" ++ playUrl.

Definition transformVideo (video : EpornerVideo) (vodId : Z) : MacCMSVideo :=
  let cleanTitle := cleanTitle (title video) in
  let tags := processTags (keywords video) in
  {| vod_id := vodId;
     vod_name := cleanTitle;
     vod_tag := tags;
     vod_blurb := cleanTitle;
     vod_hits := views video;
     vod_play_from := js "Eporner";
     vod_play_url := generatePlayUrl video;
     type_id := DEFAULT_TYPE_ID;
     type_name := DEFAULT_TYPE_NAME |}.

(** [videos.map((video, index) => f(video, index))], from index [index] on *)
Fixpoint mapIndexed {A B} (f : A -> Z -> B) (index : Z) (l : list A) : list B :=
  match l with
  | [] => []
  | x :: r => f x index :: mapIndexed f (index + 1) r
  end.

Definition transformSearchResponse (epornerResponse : EpornerSearchResponse)
  (page limit : Z) : Envelope :=
  let videos := match videos epornerResponse with Some l => l | None => [] end in
  let transformedVideos :=
    mapIndexed (fun video index => transformVideo video ((page - 1) * limit + index + 1))
               0 videos in
  {| code := 1;
     msg := js "数据列表";
     Cache.page := orNumber (current_page epornerResponse) page;
     pagecount :=
       match total_pages epornerResponse with
       | Some n => if n =? 0 then ceilDiv (total_count epornerResponse) limit else Int n
       | None => ceilDiv (total_count epornerResponse) limit
       end;
     Cache.limit := limit;
     total := orNumber (total_count epornerResponse) (Z.of_nat (length videos));
     list_ := Some transformedVideos;
     class := None;
     error := None |}.

Definition transformVideoDetail (video : EpornerVideo) : Envelope :=
  let transformedVideo := transformVideo video (orNumber (parseInt (id video) 36) 1) in
  {| code := 1;
     msg := js "数据列表";
     Cache.page := 1;
     pagecount := Int 1;
     Cache.limit := 1;
     total := 1;
     list_ := Some [transformedVideo];
     class := None;
     error := None |}.

Definition generateCategories : list MacCMSCategory :=
  [ {| c_type_id := 3;
       c_type_name := js "伦理片";
       c_type_en := js "ethics";
       c_type_sort := 3;
       c_type_mid := 1;
       c_type_pid := 0;
       c_type_status := 1 |} ].

(** [formatDuration], the same function as the client's. *)
Definition formatDuration (seconds : Z) : jsstring := Client.formatDuration seconds.

(** The thumbnail members of a video: [default_thumb] and [thumbs], either
    of which may be missing.  The two functions below read nothing else of
    the video, and take the two members as their arguments. *)
Definition defaultSrc (default_thumb : option Thumb) : jsstring :=
  match default_thumb with
  | Some d => src d
  | None => []
  end.

(** The callback of the [reduce] that keeps the larger thumbnail. *)
Definition larger (prev current : Thumb) : Thumb :=
  let prevSize := width prev * height prev in
  let currentSize := width current * height current in
  if currentSize >? prevSize then current else prev.

Definition getThumbnailUrl (default_thumb : option Thumb)
  (thumbs : option (list Thumb)) : jsstring :=
  if nonempty (defaultSrc default_thumb) then defaultSrc default_thumb
  else
    match thumbs with
    | Some (first :: rest) => src (fold_left larger rest first)
    | _ => []
    end.

(** [screenshots.includes(url)] *)
Definition includes (screenshots : list jsstring) (url : jsstring) : bool :=
  existsb (jsstring_eqb url) screenshots.

(** The [forEach] that appends the thumbnails not yet listed. *)
Fixpoint addThumbs (screenshots : list jsstring) (thumbs : list Thumb)
  : list jsstring :=
  match thumbs with
  | [] => screenshots
  | thumb :: rest =>
    if nonempty (src thumb) && negb (includes screenshots (src thumb))
    then addThumbs (screenshots ++ [src thumb]) rest
    else addThumbs screenshots rest
  end.

(** The array [screenshots] before it is cut and joined. *)
Definition screenshotList (default_thumb : option Thumb)
  (thumbs : option (list Thumb)) : list jsstring :=
  let screenshots :=
    if nonempty (defaultSrc default_thumb) then [defaultSrc default_thumb]
    else [] in
  match thumbs with
  | Some l => addThumbs screenshots l
  | None => screenshots
  end.

Definition generateScreenshots (default_thumb : option Thumb)
  (thumbs : option (list Thumb)) : jsstring :=
  join (js "||") (firstn 5 (screenshotList default_thumb thumbs)).

End MacCMSTransformer.

(* ================================================================== *)
(** * [app/api/maccms/route.ts]: the request dispatcher *)
(* ================================================================== *)

Module Route.
Import JS Client Schema Cache.
Import MacCMSCacheManager MacCMSErrorHandler MacCMSRetryHandler
       MacCMSPerformanceMonitor.

(** The collaborators of the dispatcher: the timers and clock, the
    provider client's two calls, and the configuration provider. *)
Record Upstream (Env : Type) := {
  timer : Timer Env;
  search : jsstring -> Z -> Z -> Params.Order -> Env
           -> (JsError + EpornerSearchResponse) * Env;
  getVideoById : jsstring -> Env -> (JsError + EpornerVideo) * Env;
  getCacheTime : Env -> (JsError + Z) * Env
}.

Arguments timer {Env}.
Arguments search {Env}.
Arguments getVideoById {Env}.
Arguments getCacheTime {Env}.

Definition Response := NextResponse Envelope.

Section Handlers.

Context {Env : Type} (up : Upstream Env).

(** A call on the outside world, as an operation on the whole state. *)
Definition call {A} (f : Env -> (JsError + A) * Env) : Async Env A :=
  fun w =>
    let (r, e) := f (env w) in
    (r, {| env := e; console := console w; metrics := metrics w |}).

Definition now (w : World Env) : Z := dateNow (timer up) w.

(** The error object that reading a property of [undefined] raises. *)
Definition typeError : JsError :=
  {| err_name := Some (js "TypeError"); err_code := None; err_status := None;
     err_type := None; err_message := None |}.

Definition validationResponse (message : jsstring) (w : World Env) : Response :=
  createCachedResponse
    (createErrorResponse (handleValidationError message (now w))) ct_error.

(** A [catch] block that classifies, logs and renders the error. *)
Definition catchAndRender (error : JsError) (context : jsstring) (w : World Env)
  : Response * World Env :=
  let errorDetail := handleApiError error (now w) in
  let w1 := logError errorDetail context w in
  (createCachedResponse (createErrorResponse errorDetail) ct_error, w1).

Definition orderOrLatest (params : Params.ProcessedParams) : Params.Order :=
  match Params.f_order (Params.filters params) with
  | Some o => o
  | None => Params.latest
  end.

(** The body shared by the search and the list handler: the provider
    search under retry, then the transformation.  A handler throws only
    when its own [catch] block raises. *)
Definition searchAndRender (query : jsstring) (params : Params.ProcessedParams)
  (metric context : jsstring) (startTime : Z) (w : World Env)
  : (JsError + Response) * World Env :=
  match withRetry (timer up)
          (call (search up query (Params.page params)
                        (Z.min (Params.plimit params) 60) (orderOrLatest params)))
          3 1000 2 w with
  | (inr results, w1) =>
    let maccmsData :=
      MacCMSTransformer.transformSearchResponse
        results (Params.page params) (Params.plimit params) in
    let w2 := recordExecutionTime (timer up) metric startTime w1 in
    (inr (createCachedResponse maccmsData ct_search), w2)
  | (inl (Some error), w1) =>
    let (r, w2) := catchAndRender error context w1 in (inr r, w2)
  | (inl None, w1) => (inl typeError, w1)
  end.

Definition handleVideoSearch (params : Params.ProcessedParams) (w : World Env)
  : (JsError + Response) * World Env :=
  let startTime := now w in
  if negb (truthy (Params.keyword params))
  then (inr (validationResponse (js "请提供搜索关键词") w), w)
  else
    let cleanQuery :=
      sanitizeQuery (match Params.keyword params with Some k => k | None => [] end) in
    if negb (nonempty cleanQuery)
    then (inr (validationResponse (js "搜索关键词无效") w), w)
    else searchAndRender cleanQuery params (js "video_search") (js "Video Search")
                         startTime w.

(** The loop over the requested ids.  A failing id is classified, logged
    and skipped. *)
Fixpoint detailLoop (ids : list jsstring) (videoList : list MacCMSVideo)
  (w : World Env) : (JsError + list MacCMSVideo) * World Env :=
  match ids with
  | [] => (inr videoList, w)
  | id :: rest =>
    match withRetry (timer up) (call (getVideoById up id)) 2 500 2 w with
    | (inr detail, w1) =>
      let transformedVideo :=
        MacCMSTransformer.transformVideo detail (orNumber (parseInt id 36) 1) in
      detailLoop rest (videoList ++ [transformedVideo]) w1
    | (inl (Some error), w1) =>
      let errorDetail := handleApiError error (now w1) in
      detailLoop rest videoList
                 (logError errorDetail (js "Video Detail " ++ id) w1)
    | (inl None, w1) => (inl typeError, w1)
    end
  end.

Definition handleVideoDetail (params : Params.ProcessedParams) (w : World Env)
  : Response * World Env :=
  let startTime := now w in
  match Params.videoIds params with
  | None => (validationResponse (js "请提供视频ID") w, w)
  | Some [] => (validationResponse (js "请提供视频ID") w, w)
  | Some videoIds =>
    match detailLoop (firstn 10 videoIds) [] w with
    | (inr videoList, w1) =>
      if (length videoList =? 0)%nat
      then (validationResponse (js "未找到有效的视频数据") w1, w1)
      else
        let maccmsData :=
          {| code := 1;
             msg := js "数据列表";
             page := 1;
             pagecount := Int 1;
             limit := Z.of_nat (length videoList);
             total := Z.of_nat (length videoList);
             list_ := Some videoList;
             class := None;
             error := None |} in
        let w2 := recordExecutionTime (timer up) (js "video_detail") startTime w1 in
        (createCachedResponse maccmsData ct_detail, w2)
    | (inl error, w1) => catchAndRender error (js "Video Detail") w1
    end
  end.

Definition handleVideoList (params : Params.ProcessedParams) (w : World Env)
  : (JsError + Response) * World Env :=
  let startTime := now w in
  let defaultQuery := js "popular" in
  searchAndRender defaultQuery params (js "video_list") (js "Video List")
                  startTime w.

Definition handleCategoryList (w : World Env) : Response * World Env :=
  let startTime := now w in
  let categories := MacCMSTransformer.generateCategories in
  let categoryData :=
    {| code := 1;
       msg := js "数据列表";
       page := 1;
       pagecount := Int 1;
       limit := Z.of_nat (length categories);
       total := Z.of_nat (length categories);
       list_ := None;
       class := Some categories;
       error := None |} in
  let w1 := recordExecutionTime (timer up) (js "category_list") startTime w in
  (createCachedResponse categoryData ct_category, w1).

Definition actionName (a : Params.Action) : jsstring :=
  match a with
  | Params.act_list => js "list"
  | Params.act_detail => js "detail"
  | Params.act_search => js "search"
  | Params.act_category => js "category"
  end.

(** The outermost [catch] of [GET]. *)
Definition catchTopLevel (error : JsError) (startTime : Z) (w : World Env)
  : Response * World Env :=
  let errorDetail := handleApiError error (now w) in
  let w1 := logError errorDetail (js "MacCMS API") w in
  let w2 := recordExecutionTime (timer up) (js "maccms_api_request_error")
                                startTime w1 in
  (createCachedResponse (createErrorResponse errorDetail) ct_error, w2).

Definition GET (searchParams : Params.SearchParams) (w : World Env)
  : Response * World Env :=
  let startTime := now w in
  let operation := js "maccms_api_request" in
  let params := Params.processParams (clock (timer up) (env w)) searchParams in
  let validation := Params.validateParams params in
  if negb (Params.valid validation) then
    let error :=
      handleValidationError
        (match Params.error validation with Some m => m | None => [] end) (now w) in
    let w1 := logError error (js "Parameter Validation") w in
    (createCachedResponse (createErrorResponse error) ct_error, w1)
  else
    match call (getCacheTime up) w with
    | (inl error, w1) => catchTopLevel error startTime w1
    | (inr _cacheTime, w1) =>
      let dispatched :=
        match Params.action params with
        | Params.act_search => handleVideoSearch params w1
        | Params.act_detail =>
          let (r, w2) := handleVideoDetail params w1 in (inr r, w2)
        | Params.act_list => handleVideoList params w1
        | Params.act_category =>
          let (r, w2) := handleCategoryList w1 in (inr r, w2)
        end in
      match dispatched with
      | (inl error, w2) => catchTopLevel error startTime w2
      | (inr response, w2) =>
        let w3 := recordExecutionTime (timer up) operation startTime w2 in
        let w4 := recordExecutionTime (timer up)
                    (operation ++ js "_" ++ actionName (Params.action params))
                    startTime w3 in
        (response, w4)
      end
    end.

End Handlers.

End Route.

(* ================================================================== *)
(** * Vocabulary of the properties *)
(* ================================================================== *)

Import JS.

(** ** Requests *)




(** ** Text *)

(** A string made of white space only (the empty string included). *)
Definition blank (s : jsstring) : bool := forallb isWhiteSpace s.

(** No two neighbouring code units are both white space. *)
Fixpoint singleSpaced (s : jsstring) : bool :=
  match s with
  | [] => true
  | c :: r =>
    match r with
    | [] => true
    | d :: _ => negb (isWhiteSpace c && isWhiteSpace d) && singleSpaced r
    end
  end.

(** The cleaning chain of [parseKeyword]. *)
Definition cleaned (s : jsstring) : jsstring :=
  substring0 100 (collapseWhiteSpace (stripHtmlSpecial (trim s))).

(** The integer that [parseInt(raw, 10)] reads from a raw parameter;
    [None] when the parameter is absent or does not start with a number. *)
Definition parsedInt (raw : option jsstring) : option Z :=
  match raw with
  | Some s => parseInt s 10
  | None => None
  end.

(** The tokens occur in the text one after the other, without overlap. *)
Inductive occursInOrder : list jsstring -> jsstring -> Prop :=
| occurs_nil : forall s, occursInOrder [] s
| occurs_cons : forall tok toks before rest,
    occursInOrder toks rest ->
    occursInOrder (tok :: toks) (before ++ tok ++ rest).

(** ** Search pages *)




(** ** Counting the invocations of an operation

    The outside world is paired with a counter that every invocation of
    the instrumented operation increments; timers leave it alone. *)

Definition countingTimer {Env} (tm : Cache.Timer Env) : Cache.Timer (Env * nat) :=
  {| Cache.clock := fun e => Cache.clock tm (fst e);
     Cache.sleep := fun ms e => (Cache.sleep tm ms (fst e), snd e) |}.

Definition withCount {Env} (w : Cache.World Env) (n : nat) : Cache.World (Env * nat) :=
  {| Cache.env := (Cache.env w, n);
     Cache.console := Cache.console w;
     Cache.metrics := Cache.metrics w |}.

Definition forgetCount {Env} (w : Cache.World (Env * nat)) : Cache.World Env :=
  {| Cache.env := fst (Cache.env w);
     Cache.console := Cache.console w;
     Cache.metrics := Cache.metrics w |}.

Definition counting {Env A} (fn : Cache.Async Env A) : Cache.Async (Env * nat) A :=
  fun w =>
    let (r, w') := fn (forgetCount w) in
    (r, withCount w' (S (snd (Cache.env w)))).

(** The world after the pause that follows the failed attempt number
    [attempt]: the timer has slept and the warning is on the console. *)
Definition afterBackoff {Env} (tm : Cache.Timer Env) (delay backoff attempt : Z)
  (w : Cache.World Env) : Cache.World Env :=
  let waitTime := delay * backoff ^ (attempt - 1) in
  Cache.log (Cache.LogRetry attempt waitTime)
    {| Cache.env := Cache.sleep tm waitTime (Cache.env w);
       Cache.console := Cache.console w;
       Cache.metrics := Cache.metrics w |}.

(** An error the retry handler must not retry: classified as validation,
    or carrying a 4xx response status. *)
Definition clientOrValidation (e : Cache.JsError) : Prop :=
  Cache.err_type e = Some (js "VALIDATION_ERROR")
  \/ exists s, Cache.err_status e = Some s /\ 400 <= s < 500.

(** ** The detail handler, id by id *)

(** The fetch of one id under its retry budget (2 attempts, 500 ms): the
    video, or nothing after the failure has been classified and logged. *)
Definition fetchOne {Env} (up : Route.Upstream Env) (id : jsstring)
  (w : Cache.World Env) : option Client.EpornerVideo * Cache.World Env :=
  match Cache.MacCMSRetryHandler.withRetry (Route.timer up)
          (Route.call (Route.getVideoById up id)) 2 500 2 w with
  | (inr video, w1) => (Some video, w1)
  | (inl (Some error), w1) =>
    (None,
     Cache.MacCMSErrorHandler.logError
       (Cache.MacCMSErrorHandler.handleApiError error (Route.now up w1))
       (js "Video Detail " ++ id) w1)
  | (inl None, w1) => (None, w1)
  end.

(** The outcome of every id, in request order. *)
Fixpoint fetchEach {Env} (up : Route.Upstream Env) (ids : list jsstring)
  (w : Cache.World Env)
  : list (jsstring * option Client.EpornerVideo) * Cache.World Env :=
  match ids with
  | [] => ([], w)
  | id :: rest =>
    let (outcome, w1) := fetchOne up id w in
    let (outcomes, w2) := fetchEach up rest w1 in
    ((id, outcome) :: outcomes, w2)
  end.

(** The legacy records of the ids that succeeded, in request order. *)
Fixpoint successes (outcomes : list (jsstring * option Client.EpornerVideo))
  : list Schema.MacCMSVideo :=
  match outcomes with
  | [] => []
  | (id, Some video) :: rest =>
    MacCMSTransformer.transformVideo video (orNumber (parseInt id 36) 1)
    :: successes rest
  | (_, None) :: rest => successes rest
  end.

Definition allFailed (outcomes : list (jsstring * option Client.EpornerVideo))
  : Prop :=
  Forall (fun o => snd o = None) outcomes.

(** The envelope of a successful detail request. *)
Definition detailEnvelope (records : list Schema.MacCMSVideo) : Cache.Envelope :=
  {| Cache.code := 1;
     Cache.msg := js "数据列表";
     Cache.page := 1;
     Cache.pagecount := Int 1;
     Cache.limit := Z.of_nat (length records);
     Cache.total := Z.of_nat (length records);
     Cache.list_ := Some records;
     Cache.class := None;
     Cache.error := None |}.

(** The envelope of the category list. *)
Definition categoryEnvelope : Cache.Envelope :=
  {| Cache.code := 1;
     Cache.msg := js "数据列表";
     Cache.page := 1;
     Cache.pagecount := Int 1;
     Cache.limit := 1;
     Cache.total := 1;
     Cache.list_ := None;
     Cache.class := Some MacCMSTransformer.generateCategories;
     Cache.error := None |}.

(** ** The cache key: well-formed strings, octets, parameter bags *)


Definition isOctet (b : Z) : Prop := 0 <= b < 256.






(** ** Data for the examples *)

(** Raw parameters built from ASCII/UTF-8 literals, for the examples. *)
Definition query (l : list (String.string * String.string)) : Params.SearchParams :=
  map (fun kv => (js (fst kv), js (snd kv))) l.

Definition rawParams (l : list (String.string * String.string)) : Params.MacCMSParams :=
  fold_left (fun params kv => Params.setParam params (fst kv) (snd kv))
            (query l) Params.noParams.



(** A clock for the examples. *)
Definition exampleClock : Params.Clock :=
  {| Params.nowMs := 1750000000000; Params.fullYear := 2025;
     Params.dateParse := fun _ => None |}.


(** Videos and search pages for the examples. *)
Definition videoOf (id : jsstring) : Client.EpornerVideo :=
  {| Client.id := id;
     Client.title := js "Video " ++ id;
     Client.keywords := js "one, two";
     Client.views := 10;
     Client.url := js "https://example.org/v/" ++ id;
     Client.embed := [];
     Client.length_sec := 125 |}.

Definition exampleVideo (n : String.string) : Client.EpornerVideo := videoOf (js n).

(** A page of three videos out of 25 matches, the page count left out. *)
Definition examplePage : Client.EpornerSearchResponse :=
  {| Client.total_count := Some 25;
     Client.current_page := Some 2;
     Client.total_pages := None;
     Client.videos := Some [exampleVideo "a1"; exampleVideo "b2"; exampleVideo "c3"] |}.

(** An operation scripted by the counter of the outside world: it throws
    [failure] on its first [failures] invocations and returns 7 afterwards. *)
Definition flaky (failures : nat) (failure : Cache.JsError) : Cache.Async nat Z :=
  fun w =>
    (if (Cache.env w <? failures)%nat then inl failure else inr 7,
     {| Cache.env := S (Cache.env w);
        Cache.console := Cache.console w;
        Cache.metrics := Cache.metrics w |}).

Definition noTimer : Cache.Timer nat :=
  {| Cache.clock := fun _ => exampleClock; Cache.sleep := fun _ e => e |}.

Definition emptyWorld {Env} (e : Env) : Cache.World Env :=
  {| Cache.env := e; Cache.console := []; Cache.metrics := [] |}.

Definition errorWith (status : option Z) (ty : option jsstring) : Cache.JsError :=
  {| Cache.err_name := Some (js "Error"); Cache.err_code := None;
     Cache.err_status := status; Cache.err_type := ty;
     Cache.err_message := Some (js "request failed") |}.

(** Three attempts at a scripted operation, the invocations counted. *)
Definition retried (fn : Cache.Async nat Z)
  : (option Cache.JsError + Z) * Cache.World (nat * nat) :=
  Cache.MacCMSRetryHandler.withRetry (countingTimer noTimer) (counting fn)
    3 1000 2 (withCount (emptyWorld 0%nat) 0).

Definition invocations {A} (r : A * Cache.World (nat * nat)) : nat :=
  snd (Cache.env (snd r)).

Definition transient : Cache.JsError := errorWith (Some 503) None.
Definition notFound : Cache.JsError := errorWith (Some 404) None.
Definition invalid : Cache.JsError := errorWith None (Some (js "VALIDATION_ERROR")).

(** A provider for the examples: every search returns [examplePage];
    every id resolves, except [bad], which is answered with status 404. *)
Definition mockUpstream : Route.Upstream unit :=
  {| Route.timer :=
       {| Cache.clock := fun _ => exampleClock; Cache.sleep := fun _ e => e |};
     Route.search := fun _ _ _ _ e => (inr examplePage, e);
     Route.getVideoById := fun id e =>
       (if jsstring_eqb id (js "bad") then inl notFound else inr (videoOf id), e);
     Route.getCacheTime := fun e => (inr 300, e) |}.

(** An intent written by hand, with empty filters. *)
Definition intentOf (action : Params.Action) (keyword : option jsstring)
  (page limit : Z) (videoIds : option (list jsstring)) : Params.ProcessedParams :=
  {| Params.action := action;
     Params.keyword := keyword;
     Params.page := page;
     Params.plimit := limit;
     Params.categoryId := None;
     Params.videoIds := videoIds;
     Params.filters :=
       {| Params.f_area := None; Params.f_year := None;
          Params.f_order := None; Params.f_timeRange := None |} |}.

(** A detail intent for the given ids. *)
Definition detailIntent (ids : list jsstring) : Params.ProcessedParams :=
  intentOf Params.act_detail None 1 20 (Some ids).

(** The query [ac=category]. *)
Definition query_ac_category : Params.SearchParams := query [("ac", "category")].



(* ================================================================== *)
(** * Vocabulary of the further properties *)
(* ================================================================== *)

Module Notions.
Import Cache Route.
Import MacCMSErrorHandler.

(** The retry warnings of [count] consecutive attempts from attempt
    [first] on, each with the wait it announces. *)
Definition retryWarnings (delay backoff : Z) (first count : nat) : list LogEntry :=
  map (fun k => LogRetry (Z.of_nat k) (delay * backoff ^ (Z.of_nat k - 1)))
      (seq first count).

(** The operation writes nothing to the console. *)
Definition silent {Env A} (fn : Async Env A) : Prop :=
  forall w, console (snd (fn w)) = console w.

(** The counter of invocations after a run. *)
Definition invocationsOf {Env A} (r : A * World (Env * nat)) : nat :=
  snd (env (snd r)).

(** The cache type of the successful response of each action. *)
Definition successCacheType (a : Params.Action) : CacheType :=
  match a with
  | Params.act_search => ct_search
  | Params.act_list => ct_search
  | Params.act_detail => ct_detail
  | Params.act_category => ct_category
  end.

(** The messages of the validation errors a request can be answered with. *)
Definition rejectionMessages : list jsstring :=
  [js "搜索关键词不能为空"; js "视频ID不能为空"; js "搜索关键词无效";
   js "未找到有效的视频数据"].

(** The messages of the classified provider errors. *)
Definition failureMessages : list jsstring :=
  [js "请求超时，请稍后重试"; js "网络连接失败"; js "请求过于频繁，请稍后重试";
   js "请求参数错误"; js "服务器内部错误"; js "未知错误，请稍后重试"].

(** The responses a request for the intent [intent] can be answered with. *)
Inductive answer (intent : Params.ProcessedParams) : Response -> Prop :=
| answer_rejected : forall m t,
    In m rejectionMessages ->
    answer intent
      (MacCMSCacheManager.createCachedResponse
         (createErrorResponse (handleValidationError m t)) ct_error)
| answer_failed : forall e t,
    answer intent
      (MacCMSCacheManager.createCachedResponse
         (createErrorResponse (handleApiError e t)) ct_error)
| answer_page : forall results,
    Params.action intent = Params.act_search
    \/ Params.action intent = Params.act_list ->
    answer intent
      (MacCMSCacheManager.createCachedResponse
         (MacCMSTransformer.transformSearchResponse results
            (Params.page intent) (Params.plimit intent)) ct_search)
| answer_details : forall records,
    Params.action intent = Params.act_detail ->
    records <> [] -> (length records <= 10)%nat ->
    answer intent
      (MacCMSCacheManager.createCachedResponse (detailEnvelope records)
         ct_detail)
| answer_categories :
    Params.action intent = Params.act_category ->
    answer intent
      (MacCMSCacheManager.createCachedResponse categoryEnvelope ct_category).

(** A call on a collaborator, with its arguments. *)
Inductive ProviderCall :=
| SearchCall (query : jsstring) (page perPage : Z) (order : Params.Order)
| VideoCall (id : jsstring)
| ConfigCall.

(** The collaborators, each call additionally written to a journal kept
    beside the outside world; the timers leave the journal alone. *)
Definition recording {Env} (up : Upstream Env)
  : Upstream (Env * list ProviderCall) :=
  {| timer :=
       {| clock := fun e => clock (timer up) (fst e);
          sleep := fun ms e => (sleep (timer up) ms (fst e), snd e) |};
     search := fun q p n o e =>
       let (r, e') := search up q p n o (fst e) in
       (r, (e', snd e ++ [SearchCall q p n o]));
     getVideoById := fun id e =>
       let (r, e') := getVideoById up id (fst e) in
       (r, (e', snd e ++ [VideoCall id]));
     getCacheTime := fun e =>
       let (r, e') := getCacheTime up (fst e) in
       (r, (e', snd e ++ [ConfigCall])) |}.

(** A world with the given journal, and the journal after a run. *)
Definition withJournal {Env} (w : World Env) (journal : list ProviderCall)
  : World (Env * list ProviderCall) :=
  {| env := (env w, journal); console := console w; metrics := metrics w |}.

Definition journalOf {Env A} (r : A * World (Env * list ProviderCall))
  : list ProviderCall :=
  snd (env (snd r)).



(** The first and the last code unit of a text, when it has one. *)
Definition firstUnit (s : jsstring) : option Z := hd_error s.

Definition lastUnit (s : jsstring) : option Z := hd_error (rev s).

(** The code unit, if there is one, is not white space. *)
Definition notSpace (c : option Z) : Prop :=
  match c with
  | Some c => isWhiteSpace c = false
  | None => True
  end.

(** The request names the detail action or carries an id list. *)
Definition detailSignal (params : Params.MacCMSParams) : bool :=
  strict_eq (option_map toLowerCase (Params.ac params)) (js "detail")
  || truthy (Params.ids params).

(** The request asks for the categories: [ac=list], or [ac=videolist]
    with [t=0]. *)
Definition categorySignal (params : Params.MacCMSParams) : bool :=
  strict_eq (option_map toLowerCase (Params.ac params)) (js "list")
  || (strict_eq (option_map toLowerCase (Params.ac params)) (js "videolist")
      && strict_eq (Params.t params) (js "0")).

(** The number that base 36 gives the code units of an id, read after
    the digits that gave [acc]. *)
Definition base36 (s : jsstring) (acc : Z) : Z :=
  fold_left
    (fun a c => 36 * a + match digitValue c with Some d => d | None => 0 end)
    s acc.

(** The intent [p] with another keyword. *)
Definition withKeyword (p : Params.ProcessedParams) (k : option jsstring)
  : Params.ProcessedParams :=
  {| Params.action := Params.action p;
     Params.keyword := k;
     Params.page := Params.page p;
     Params.plimit := Params.plimit p;
     Params.categoryId := Params.categoryId p;
     Params.videoIds := Params.videoIds p;
     Params.filters := Params.filters p |}.

(** The intent [p] with another keyword and another area filter. *)
Definition withKeywordArea (p : Params.ProcessedParams)
  (k a : option jsstring) : Params.ProcessedParams :=
  {| Params.action := Params.action p;
     Params.keyword := k;
     Params.page := Params.page p;
     Params.plimit := Params.plimit p;
     Params.categoryId := Params.categoryId p;
     Params.videoIds := Params.videoIds p;
     Params.filters :=
       {| Params.f_area := a;
          Params.f_year := Params.f_year (Params.filters p);
          Params.f_order := Params.f_order (Params.filters p);
          Params.f_timeRange := Params.f_timeRange (Params.filters p) |} |}.

(** The key parts of the action and of the page. *)
Definition keyHead (p : Params.ProcessedParams) : list jsstring :=
  [js "action:" ++ Params.actionValue (Params.action p);
   js "page:" ++ numberToString (Params.page p)].

(** The key part of the limit. *)
Definition keyLimit (p : Params.ProcessedParams) : jsstring :=
  js "limit:" ++ numberToString (Params.plimit p).

(** The key part of a keyword, none when it is absent or empty. *)
Definition keywordPart (k : option jsstring) : list jsstring :=
  if truthy k then [js "keyword:" ++ match k with Some s => s | None => [] end]
  else [].

(** The key parts of the category and of the id list. *)
Definition keyMiddle (p : Params.ProcessedParams) : list jsstring :=
  match Params.categoryId p with
  | Some c => if c =? 0 then [] else [js "category:" ++ numberToString c]
  | None => []
  end
  ++ match Params.videoIds p with
     | Some l => [js "ids:" ++ join (js ",") l]
     | None => []
     end.

(** The key part of an area filter, none when it is absent or empty. *)
Definition areaPart (a : option jsstring) : list jsstring :=
  if truthy a then [js "area:" ++ match a with Some s => s | None => [] end]
  else [].

(** The key parts behind the area. *)
Definition keyTail (p : Params.ProcessedParams) : list jsstring :=
  (if truthy (Params.f_year (Params.filters p))
   then [js "year:" ++ match Params.f_year (Params.filters p) with
                       | Some y => y
                       | None => []
                       end]
   else [])
  ++ match Params.f_order (Params.filters p) with
     | Some o => [js "order:" ++ Params.orderValue o]
     | None => []
     end.

(** Every operation of the map holds at most 100 samples. *)
Definition windowed (m : list (jsstring * list Z)) : Prop :=
  Forall (fun entry => (length (snd entry) <= 100)%nat) m.

(** The samples of an operation, none when it has no entry. *)
Definition samplesOf (m : list (jsstring * list Z)) (operation : jsstring)
  : list Z :=
  match MacCMSPerformanceMonitor.getSamples m operation with
  | Some times => times
  | None => []
  end.

(** A monitor that has seen 100 requests. *)
Definition fullWindow : World nat :=
  {| env := 0%nat; console := [];
     metrics := [(js "video_list", map Z.of_nat (seq 1 100))] |}.

(** The metrics map after the given samples have been recorded in turn. *)
Definition recordAll (m : list (jsstring * list Z))
  (samples : list (jsstring * Z)) : list (jsstring * list Z) :=
  fold_left (fun m sample =>
               MacCMSPerformanceMonitor.setSample m (fst sample) (snd sample))
            samples m.


(** The area of a thumbnail, by which the largest one is chosen. *)
Definition area (thumb : Client.Thumb) : Z :=
  Client.width thumb * Client.height thumb.

(** A thumbnail for the examples. *)
Definition thumbOf (address : String.string) (w h : Z) : Client.Thumb :=
  {| Client.src := js address; Client.width := w; Client.height := h |}.

(** The two decimal digits of a number below 100. *)
Definition twoDigits (n : Z) : jsstring := [48 + n / 10; 48 + n mod 10].

(** A text without a separator of the tag list. *)
Definition separatorFree (s : jsstring) : bool :=
  forallb (fun c => negb (Params.isSeparator c)) s.

(** The tags of a keyword text: the first ten non-empty pieces. *)
Definition tagsOf (keywords : jsstring) : list jsstring :=
  firstn 10 (filter nonempty (Params.split Params.isSeparator keywords)).


(** The response renders an error that is among the logged entries. *)
Definition loggedIn (entries : list LogEntry) (response : Response) : Prop :=
  exists detail context,
    In (LogError detail context) entries
    /\ MacCMSCacheManager.json response = createErrorResponse detail.

(** The world in which the outside world has become [e]. *)
Definition atEnv {Env} (w : World Env) (e : Env) : World Env :=
  {| env := e; console := console w; metrics := metrics w |}.

(** The [switch] of [GET] over the action of the intent. *)
Definition dispatch {Env} (up : Upstream Env) (intent : Params.ProcessedParams)
  (w : World Env) : (JsError + Response) * World Env :=
  match Params.action intent with
  | Params.act_search => handleVideoSearch up intent w
  | Params.act_detail =>
    let (r, w2) := handleVideoDetail up intent w in (inr r, w2)
  | Params.act_list => handleVideoList up intent w
  | Params.act_category =>
    let (r, w2) := handleCategoryList up w in (inr r, w2)
  end.

End Notions.

(* ================================================================== *)
(** * The unit tests of the parameter processor, on the embedding *)
(* ================================================================== *)

Example test_process_category :
  Params.action (Params.processParams exampleClock
                   (query [("ac", "list"); ("t", "1"); ("pg", "2")]))
  = Params.act_category
  /\ Params.page (Params.processParams exampleClock
                    (query [("ac", "list"); ("t", "1"); ("pg", "2")])) = 2
  /\ Params.categoryId (Params.processParams exampleClock
                          (query [("ac", "list"); ("t", "1"); ("pg", "2")]))
     = Some 1.
Proof. vm_compute. auto. Qed.

Example test_process_list :
  Params.action (Params.processParams exampleClock
                   (query [("ac", "videolist"); ("pg", "2")])) = Params.act_list
  /\ Params.page (Params.processParams exampleClock
                    (query [("ac", "videolist"); ("pg", "2")])) = 2.
Proof. vm_compute. auto. Qed.

Example test_process_search :
  Params.action (Params.processParams exampleClock
      (query [("ac", "list"); ("wd", "test"); ("pg", "1"); ("limit", "30")]))
  = Params.act_search
  /\ Params.keyword (Params.processParams exampleClock
      (query [("ac", "list"); ("wd", "test"); ("pg", "1"); ("limit", "30")]))
     = Some (js "test")
  /\ Params.plimit (Params.processParams exampleClock
      (query [("ac", "list"); ("wd", "test"); ("pg", "1"); ("limit", "30")]))
     = 30.
Proof. vm_compute. auto. Qed.

Example test_process_detail :
  Params.action (Params.processParams exampleClock
                   (query [("ac", "detail"); ("ids", "123,456,789")]))
  = Params.act_detail
  /\ Params.videoIds (Params.processParams exampleClock
                        (query [("ac", "detail"); ("ids", "123,456,789")]))
     = Some [js "123"; js "456"; js "789"].
Proof. vm_compute. auto. Qed.

Example test_process_category_t0 :
  Params.action (Params.processParams exampleClock
                   (query [("ac", "list"); ("t", "0")])) = Params.act_category.
Proof. reflexivity. Qed.

Example test_defaults_and_clamping :
  Params.page (Params.processParams exampleClock (query [("ac", "list")])) = 1
  /\ Params.plimit (Params.processParams exampleClock (query [("ac", "list")])) = 20
  /\ Params.page (Params.processParams exampleClock
                    (query [("ac", "list"); ("pg", "invalid")])) = 1
  /\ Params.plimit (Params.processParams exampleClock
                      (query [("ac", "list"); ("limit", "200")])) = 100
  /\ Params.plimit (Params.processParams exampleClock
                      (query [("ac", "list"); ("limit", "0")])) = 1.
Proof. vm_compute. auto 6. Qed.

Example test_filters :
  Params.f_order (Params.filters (Params.processParams exampleClock
      (query [("ac", "list"); ("order", "latest"); ("by", "time")])))
  = Some Params.latest
  /\ Params.f_area (Params.filters (Params.processParams exampleClock
      (query [("ac", "list"); ("area", "US"); ("year", "2024")])))
     = Some (js "US")
  /\ Params.f_year (Params.filters (Params.processParams exampleClock
      (query [("ac", "list"); ("area", "US"); ("year", "2024")])))
     = Some (js "2024")
  /\ Params.f_timeRange (Params.filters (Params.processParams exampleClock
      (query [("ac", "list"); ("h", "24")])))
     = Some {| Params.range_start := Some (1750000000000 - 24 * 3600000);
               Params.range_end := Some 1750000000000 |}.
Proof. vm_compute. auto 6. Qed.

Example test_validateParams :
  Params.valid (Params.validateParams
                  (intentOf Params.act_search (Some (js "test")) 1 20 None)) = true
  /\ Params.validateParams (intentOf Params.act_search None 1 20 None)
     = {| Params.valid := false; Params.error := Some (js "搜索关键词不能为空") |}
  /\ Params.validateParams (intentOf Params.act_detail None 1 20 None)
     = {| Params.valid := false; Params.error := Some (js "视频ID不能为空") |}
  /\ Params.valid (Params.validateParams
                     (intentOf Params.act_detail None 1 20
                               (Some [js "1"; js "2"; js "3"]))) = true
  /\ Params.validateParams (intentOf Params.act_list None 0 20 None)
     = {| Params.valid := false; Params.error := Some (js "页码必须大于0") |}
  /\ Params.validateParams (intentOf Params.act_list None 1 0 None)
     = {| Params.valid := false;
          Params.error := Some (js "每页数量必须在1-100之间") |}.
Proof. vm_compute. auto 7. Qed.

(* ================================================================== *)
(** * Strings *)
(* ================================================================== *)

Lemma jsstring_eqb_eq (a b : jsstring) : jsstring_eqb a b = true <-> a = b.
Proof.
  revert b; induction a as [|x a IH]; intros [|y b]; simpl; split;
    try congruence; try reflexivity.
  - rewrite andb_true_iff, Z.eqb_eq, IH. intros [-> ->]; reflexivity.
  - intros E; injection E as -> ->. now rewrite Z.eqb_refl, (proj2 (IH b)).
Qed.

Lemma jsstring_eqb_refl (a : jsstring) : jsstring_eqb a a = true.
Proof. now apply jsstring_eqb_eq. Qed.


Lemma strict_eq_true (x : option jsstring) (lit : jsstring) :
  strict_eq x lit = true <-> x = Some lit.
Proof.
  destruct x as [s|]; simpl; [|split; discriminate].
  rewrite jsstring_eqb_eq. split; congruence.
Qed.


(* ================================================================== *)
(** * Action resolution *)
(* ================================================================== *)







(* ================================================================== *)
(** * Trimming and cleaning *)
(* ================================================================== *)

Lemma trimStart_nil_iff (s : jsstring) : trimStart s = [] <-> blank s = true.
Proof.
  induction s as [|c s IH]; simpl; [tauto|].
  destruct (isWhiteSpace c); simpl; [exact IH|].
  split; discriminate.
Qed.

Lemma trimStart_split (s : jsstring) :
  exists a, s = a ++ trimStart s /\ blank a = true.
Proof.
  induction s as [|c s (a & E & B)]; simpl.
  - exists []. auto.
  - destruct (isWhiteSpace c) eqn:W.
    + exists (c :: a). simpl. rewrite W, B. split; [congruence|reflexivity].
    + exists []. auto.
Qed.

Lemma blank_app (a b : jsstring) : blank (a ++ b) = blank a && blank b.
Proof. apply forallb_app. Qed.

Lemma blank_rev (s : jsstring) : blank (rev s) = blank s.
Proof.
  induction s as [|c s IH]; simpl; [reflexivity|].
  rewrite blank_app, IH. simpl. rewrite andb_true_r. apply andb_comm.
Qed.

Lemma trimEnd_split (s : jsstring) :
  exists b, s = trimEnd s ++ b /\ blank b = true.
Proof.
  unfold trimEnd. destruct (trimStart_split (rev s)) as (a & E & B).
  exists (rev a). split.
  - rewrite <- (rev_involutive s), E at 1. now rewrite rev_app_distr.
  - now rewrite blank_rev.
Qed.

Lemma trim_split (s : jsstring) :
  exists a b, s = a ++ trim s ++ b /\ blank a = true /\ blank b = true.
Proof.
  unfold trim. destruct (trimStart_split s) as (a & E & A).
  destruct (trimEnd_split (trimStart s)) as (b & E' & B).
  exists a, b. repeat split; try assumption. congruence.
Qed.

Lemma trim_nil_iff (s : jsstring) : trim s = [] <-> blank s = true.
Proof.
  split.
  - intros E. destruct (trim_split s) as (a & b & Es & A & B).
    rewrite Es, E, !blank_app, A, B. reflexivity.
  - intros B. unfold trim. apply trimStart_nil_iff in B. now rewrite B.
Qed.

Lemma nonempty_false_iff (s : jsstring) : nonempty s = false <-> s = [].
Proof. destruct s; simpl; split; congruence. Qed.

(** The guard of [parseKeyword] and of [parseVideoIds]: the text is empty
    or white space only. *)
Lemma blank_guard (s : jsstring) :
  negb (nonempty s) || negb (nonempty (trim s)) = blank s.
Proof.
  destruct (blank s) eqn:B.
  - apply trim_nil_iff in B. rewrite B. simpl. apply orb_true_r.
  - destruct s as [|c s]; [discriminate|]. simpl.
    destruct (trim (c :: s)) eqn:T; [|reflexivity].
    apply trim_nil_iff in T. congruence.
Qed.

Lemma collapseFrom_spec (s : jsstring) :
  forall inRun,
    singleSpaced (collapseFrom inRun s) = true
    /\ (inRun = true ->
        match collapseFrom inRun s with
        | [] => True
        | c :: _ => isWhiteSpace c = false
        end).
Proof.
  induction s as [|c s IH]; intros inRun; simpl; [auto|].
  destruct (isWhiteSpace c) eqn:W.
  - destruct (IH true) as [S H]. specialize (H eq_refl).
    destruct inRun; [auto|]. split; [|discriminate].
    simpl. destruct (collapseFrom true s); [reflexivity|].
    simpl in *. rewrite H in *. exact S.
  - destruct (IH false) as [S _]. split; [|auto].
    simpl. destruct (collapseFrom false s); [reflexivity|].
    rewrite W. exact S.
Qed.

Lemma singleSpaced_firstn (n : nat) (s : jsstring) :
  singleSpaced s = true -> singleSpaced (firstn n s) = true.
Proof.
  revert s; induction n as [|n IH]; intros [|c s]; simpl; try reflexivity.
  destruct s as [|d s]; [intros _; now destruct n|].
  intros H. apply andb_true_iff in H as [H1 H2].
  specialize (IH _ H2). destruct n; [reflexivity|].
  simpl in *. now rewrite H1, IH.
Qed.

Lemma Forall_take {A} (P : A -> Prop) (n : nat) (l : list A) :
  Forall P l -> Forall P (firstn n l).
Proof.
  intros H. apply Forall_forall. intros x Hx.
  eapply Forall_forall; [exact H|]. eapply In_nth_error in Hx as [i Hi].
  apply nth_error_In with i. rewrite nth_error_firstn in Hi.
  destruct (Nat.ltb i n); [assumption|discriminate].
Qed.

Lemma collapseFrom_Forall (P : Z -> Prop) (s : jsstring) :
  P 32 -> Forall P s -> forall inRun, Forall P (collapseFrom inRun s).
Proof.
  intros P32. induction 1 as [|c s Hc _ IH]; intros inRun; simpl; [constructor|].
  destruct (isWhiteSpace c); [destruct inRun|]; auto.
Qed.

Lemma collapseFrom_spaces (s : jsstring) :
  forall inRun,
    Forall (fun c => isWhiteSpace c = true -> c = 32) (collapseFrom inRun s).
Proof.
  induction s as [|c s IH]; intros inRun; simpl; [constructor|].
  destruct (isWhiteSpace c) eqn:W; [destruct inRun|]; auto.
  constructor; [congruence|auto].
Qed.

Lemma stripHtmlSpecial_Forall (s : jsstring) :
  Forall (fun c => isHtmlSpecial c = false) (stripHtmlSpecial s).
Proof.
  apply Forall_forall. intros c H. apply filter_In in H as [_ H].
  now apply negb_true_iff.
Qed.

Lemma cleaned_properties (s : jsstring) :
  (length (cleaned s) <= 100)%nat
  /\ Forall (fun c => isHtmlSpecial c = false) (cleaned s)
  /\ Forall (fun c => isWhiteSpace c = true -> c = 32) (cleaned s)
  /\ singleSpaced (cleaned s) = true.
Proof.
  unfold cleaned, substring0, collapseWhiteSpace. repeat split.
  - apply firstn_le_length.
  - apply Forall_take, collapseFrom_Forall;
      [reflexivity|apply stripHtmlSpecial_Forall].
  - apply Forall_take, collapseFrom_spaces.
  - apply singleSpaced_firstn, collapseFrom_spec.
Qed.

Lemma parseKeyword_Some (s : jsstring) :
  Params.parseKeyword (Some s) = if blank s then None else Some (cleaned s).
Proof. unfold Params.parseKeyword. now rewrite blank_guard. Qed.

(** C4, as stated, at the keyword made of the two angle brackets: it is
    not blank, nothing is left of it after cleaning, and the parser
    returns the empty string, not [undefined]. *)
Lemma parseKeyword_brackets_not_undefined :
  blank (js "<>") = false
  /\ cleaned (js "<>") = []
  /\ Params.parseKeyword (Some (js "<>")) = Some []
  /\ Params.parseKeyword (Some (js "<>")) <> None.
Proof. repeat split. discriminate. Qed.

(** C4 (amended).  The keyword parser returns [undefined] exactly when
    the input is absent or blank.  Otherwise it returns the input trimmed,
    stripped of the five characters, with white-space runs collapsed to
    single spaces, cut to 100 code units; that result may be the empty
    string, which is falsy, so that a search request carrying it fails
    validation as one without keyword does. *)
Theorem parseKeyword_cleaning (raw : option jsstring) :
  (Params.parseKeyword raw = None <->
     raw = None \/ exists s, raw = Some s /\ blank s = true)
  /\ (forall s, raw = Some s -> blank s = false ->
        Params.parseKeyword raw = Some (cleaned s)
        /\ (length (cleaned s) <= 100)%nat
        /\ Forall (fun c => isHtmlSpecial c = false) (cleaned s)
        /\ Forall (fun c => isWhiteSpace c = true -> c = 32) (cleaned s)
        /\ singleSpaced (cleaned s) = true)
  /\ (forall clock params,
        Params.wd params = raw ->
        Params.parseKeyword raw = Some [] ->
        Params.action (Params.parseParams clock params) = Params.act_search ->
        Params.validateParams (Params.parseParams clock params)
        = {| Params.valid := false;
             Params.error := Some (js "搜索关键词不能为空") |}).
Proof.
  repeat split.
  - destruct raw as [s|]; [|auto]. rewrite parseKeyword_Some.
    destruct (blank s) eqn:B; [eauto|discriminate].
  - intros [->|(s & -> & B)]; [reflexivity|].
    now rewrite parseKeyword_Some, B.
  - match goal with E : raw = Some _, B : blank _ = false |- _ =>
      now rewrite E, parseKeyword_Some, B end.
  - apply cleaned_properties.
  - apply cleaned_properties.
  - apply cleaned_properties.
  - apply cleaned_properties.
  - intros clock params <- K A. unfold Params.validateParams.
    rewrite A. simpl. now rewrite K.
Qed.

Lemma parseKeyword_cleaning_witness :
  Params.parseKeyword (Some (js "  tom &  jerry ")) = Some (js "tom jerry")
  /\ Params.validateParams
       (Params.parseParams
          exampleClock
          (rawParams [("ac", "list"); ("wd", "<>")]))
     = {| Params.valid := false; Params.error := Some (js "搜索关键词不能为空") |}.
Proof.
  split.
  - apply (proj1 (proj2 (parseKeyword_cleaning (Some (js "  tom &  jerry "))))
             (js "  tom &  jerry ") eq_refl eq_refl).
  - apply (proj2 (proj2 (parseKeyword_cleaning (Some (js "<>"))))).
    + reflexivity.
    + reflexivity.
    + reflexivity.
Defined.

(* ================================================================== *)
(** * Page and limit *)
(* ================================================================== *)

Lemma parseInt_empty (R : Z) : parseInt [] R = None.
Proof. reflexivity. Qed.

Lemma parseLimit_parsed (raw : option jsstring) :
  Params.parseLimit raw =
    match parsedInt raw with
    | None => 20
    | Some n => Z.max 1 (Z.min 100 n)
    end.
Proof.
  unfold Params.parseLimit, parsedInt, Params.DEFAULT_LIMIT,
    Params.MIN_LIMIT, Params.MAX_LIMIT.
  destruct raw as [[|c s]|]; simpl truthy; cbv iota; simpl negb; cbv iota;
    try reflexivity.
  destruct (parseInt (c :: s) 10) as [n|]; [|reflexivity].
  destruct (Z.ltb_spec n 1); [lia|].
  destruct (n >? 100) eqn:E; [apply Z.gtb_lt in E|rewrite Z.gtb_ltb in E;
    apply Z.ltb_ge in E]; lia.
Qed.

Lemma parsePage_parsed (raw : option jsstring) :
  Params.parsePage raw =
    match parsedInt raw with
    | None => 1
    | Some n => if n <=? 0 then 1 else n
    end.
Proof.
  unfold Params.parsePage, parsedInt, Params.DEFAULT_PAGE.
  destruct raw as [[|c s]|]; simpl truthy; cbv iota; simpl negb; cbv iota;
    try reflexivity.
  destruct (parseInt (c :: s) 10) as [n|]; [|reflexivity].
  destruct (Z.ltb_spec n 1), (Z.leb_spec n 0); lia.
Qed.

Lemma parseLimit_range (raw : option jsstring) : 1 <= Params.parseLimit raw <= 100.
Proof. rewrite parseLimit_parsed. destruct (parsedInt raw); lia. Qed.

Lemma parsePage_positive (raw : option jsstring) : 1 <= Params.parsePage raw.
Proof.
  rewrite parsePage_parsed. destruct (parsedInt raw) as [n|]; [|lia].
  destruct (Z.leb_spec n 0); lia.
Qed.

(** C5.  The processed limit lies in [1,100]: it is the parsed integer
    clamped to that interval (1 below 1, 100 above 100), and 20 when the
    input is absent or not numeric.  The processed page is at least 1: it
    is 1 when the input is absent, not numeric or not positive, and the
    parsed integer otherwise. *)
Theorem parseLimit_parsePage_contract (raw : option jsstring) :
  (1 <= Params.parseLimit raw <= 100
   /\ (parsedInt raw = None -> Params.parseLimit raw = 20)
   /\ (forall n, parsedInt raw = Some n ->
         (n < 1 -> Params.parseLimit raw = 1)
         /\ (n > 100 -> Params.parseLimit raw = 100)
         /\ (1 <= n <= 100 -> Params.parseLimit raw = n)))
  /\ (1 <= Params.parsePage raw
      /\ (parsedInt raw = None -> Params.parsePage raw = 1)
      /\ (forall n, parsedInt raw = Some n ->
            (n <= 0 -> Params.parsePage raw = 1)
            /\ (1 <= n -> Params.parsePage raw = n))).
Proof.
  split; split.
  - apply parseLimit_range.
  - rewrite parseLimit_parsed. split.
    + now intros ->.
    + intros n ->. repeat split; lia.
  - apply parsePage_positive.
  - rewrite parsePage_parsed. split.
    + now intros ->.
    + intros n ->. destruct (Z.leb_spec n 0); split; lia.
Qed.

Lemma parseLimit_parsePage_contract_witness :
  Params.parseLimit (Some (js "250")) = 100
  /\ Params.parseLimit (Some (js "-3")) = 1
  /\ Params.parseLimit (Some (js "42")) = 42
  /\ Params.parseLimit (Some (js "many")) = 20
  /\ Params.parsePage (Some (js "0")) = 1
  /\ Params.parsePage (Some (js "17")) = 17
  /\ Params.parsePage None = 1.
Proof.
  refine (conj _ (conj _ (conj _ (conj _ (conj _ (conj _ _)))))).
  - apply (proj2 (proj2 (proj1 (parseLimit_parsePage_contract (Some (js "250")))))
             250 eq_refl). lia.
  - apply (proj2 (proj2 (proj1 (parseLimit_parsePage_contract (Some (js "-3")))))
             (-3) eq_refl). lia.
  - apply (proj2 (proj2 (proj1 (parseLimit_parsePage_contract (Some (js "42")))))
             42 eq_refl). lia.
  - apply (proj1 (proj2 (proj1 (parseLimit_parsePage_contract (Some (js "many")))))).
    reflexivity.
  - apply (proj2 (proj2 (proj2 (parseLimit_parsePage_contract (Some (js "0")))))
             0 eq_refl). lia.
  - apply (proj2 (proj2 (proj2 (parseLimit_parsePage_contract (Some (js "17")))))
             17 eq_refl). lia.
  - apply (proj1 (proj2 (proj2 (parseLimit_parsePage_contract None)))).
    reflexivity.
Defined.

(* ================================================================== *)
(** * Validation of parsed intents *)
(* ================================================================== *)

(** The outcomes of validating a parsed intent. *)
Lemma validateParams_outcomes (clock : Params.Clock)
  (params : Params.MacCMSParams) :
  let intent := Params.parseParams clock params in
  1 <= Params.page intent
  /\ 1 <= Params.plimit intent <= 100
  /\ (Params.validateParams intent
      = {| Params.valid := true; Params.error := None |}
      \/ (Params.action intent = Params.act_search
          /\ truthy (Params.keyword intent) = false
          /\ Params.validateParams intent
             = {| Params.valid := false;
                  Params.error := Some (js "搜索关键词不能为空") |})
      \/ (Params.action intent = Params.act_detail
          /\ (Params.videoIds intent = None \/ Params.videoIds intent = Some [])
          /\ Params.validateParams intent
             = {| Params.valid := false;
                  Params.error := Some (js "视频ID不能为空") |}))
  /\ Params.error (Params.validateParams intent) <> Some (js "页码必须大于0")
  /\ Params.error (Params.validateParams intent)
     <> Some (js "每页数量必须在1-100之间").
Proof.
  cbv zeta.
  pose proof (parsePage_positive (Params.pg params)) as Hp.
  pose proof (parseLimit_range (Params.limit params)) as Hl.
  assert (Params.page (Params.parseParams clock params)
          = Params.parsePage (Params.pg params)) as Ep by reflexivity.
  assert (Params.plimit (Params.parseParams clock params)
          = Params.parseLimit (Params.limit params)) as El by reflexivity.
  split; [now rewrite Ep|]. split; [now rewrite El|].
  unfold Params.validateParams. rewrite Ep, El.
  unfold Params.MIN_LIMIT, Params.MAX_LIMIT.
  replace (Params.parsePage (Params.pg params) <? 1) with false
    by (symmetry; apply Z.ltb_ge; lia).
  replace (Params.parseLimit (Params.limit params) <? 1) with false
    by (symmetry; apply Z.ltb_ge; lia).
  replace (Params.parseLimit (Params.limit params) >? 100) with false
    by (symmetry; rewrite Z.gtb_ltb; apply Z.ltb_ge; lia).
  cbv beta iota. simpl orb. cbv iota.
  destruct (Params.action (Params.parseParams clock params)) eqn:A.
  - repeat split; [left; reflexivity|discriminate|discriminate].
  - destruct (Params.videoIds (Params.parseParams clock params)) as [[|i l]|] eqn:V;
      simpl.
    + repeat split; [right; right; auto|vm_compute; discriminate
                    |vm_compute; discriminate].
    + repeat split; [left; reflexivity|discriminate|discriminate].
    + repeat split; [right; right; auto|vm_compute; discriminate
                    |vm_compute; discriminate].
  - destruct (truthy (Params.keyword (Params.parseParams clock params))) eqn:K;
      simpl.
    + repeat split; [left; reflexivity|discriminate|discriminate].
    + repeat split; [right; left; auto|vm_compute; discriminate
                    |vm_compute; discriminate].
  - repeat split; [left; reflexivity|discriminate|discriminate].
Qed.

(** C9.  An intent produced by [parseParams] has a page of at least 1 and
    a limit within [1,100]; validating it either succeeds or fails with
    the keyword message (on a search without keyword) or with the video-id
    message (on a detail request without ids), never with the page or the
    limit message. *)
Theorem validateParams_parseParams (clock : Params.Clock)
  (params : Params.MacCMSParams) :
  let intent := Params.parseParams clock params in
  1 <= Params.page intent
  /\ 1 <= Params.plimit intent <= 100
  /\ (Params.validateParams intent
      = {| Params.valid := true; Params.error := None |}
      \/ (Params.action intent = Params.act_search
          /\ truthy (Params.keyword intent) = false
          /\ Params.validateParams intent
             = {| Params.valid := false;
                  Params.error := Some (js "搜索关键词不能为空") |})
      \/ (Params.action intent = Params.act_detail
          /\ (Params.videoIds intent = None \/ Params.videoIds intent = Some [])
          /\ Params.validateParams intent
             = {| Params.valid := false;
                  Params.error := Some (js "视频ID不能为空") |}))
  /\ Params.error (Params.validateParams intent) <> Some (js "页码必须大于0")
  /\ Params.error (Params.validateParams intent)
     <> Some (js "每页数量必须在1-100之间").
Proof. exact (validateParams_outcomes clock params). Qed.

(* ================================================================== *)
(** * The id list *)
(* ================================================================== *)

Lemma occursInOrder_later (toks : list jsstring) (before s : jsstring) :
  occursInOrder toks s -> occursInOrder toks (before ++ s).
Proof.
  intros H. destruct H as [s|tok toks b rest H]; [constructor|].
  rewrite app_assoc. now constructor.
Qed.

Lemma occursInOrder_tail (tok : jsstring) (toks : list jsstring) (s : jsstring) :
  occursInOrder (tok :: toks) s -> occursInOrder toks s.
Proof.
  inversion 1; subst. rewrite app_assoc. now apply occursInOrder_later.
Qed.

Lemma occursInOrder_filter (f : jsstring -> bool) (toks : list jsstring) :
  forall s, occursInOrder toks s -> occursInOrder (filter f toks) s.
Proof.
  induction toks as [|tok toks IH]; intros s H; simpl; [constructor|].
  destruct (f tok).
  - inversion H; subst. constructor. now apply IH.
  - apply IH. now apply occursInOrder_tail in H.
Qed.

Lemma occursInOrder_firstn (n : nat) :
  forall toks s, occursInOrder toks s -> occursInOrder (firstn n toks) s.
Proof.
  induction n as [|n IH]; intros toks s H; simpl; [constructor|].
  destruct toks as [|tok toks]; [constructor|].
  inversion H; subst. constructor. now apply IH.
Qed.


(** The pieces of [split] lie in the text in order, the first one at the
    very start unless a separator run is being skipped. *)
Lemma splitOn_pieces (isSep : Z -> bool) (s : jsstring) :
  forall inRun, exists piece pieces before rest,
    Params.splitOn isSep inRun s = piece :: pieces
    /\ s = before ++ piece ++ rest
    /\ occursInOrder pieces rest
    /\ (inRun = false -> before = []).
Proof.
  induction s as [|c s IH]; intros inRun; simpl.
  - exists [], [], [], []. repeat split; constructor.
  - destruct (isSep c) eqn:Sep.
    + destruct (IH true) as (p & ps & b & r & E & Es & O & _).
      destruct inRun.
      * exists p, ps, (c :: b), r.
        split; [exact E|]. split; [now rewrite Es at 1|].
        split; [exact O|discriminate].
      * exists [], (p :: ps), [], (c :: s).
        split; [now rewrite E|]. split; [reflexivity|]. split; [|reflexivity].
        change (c :: s) with ([c] ++ s). apply occursInOrder_later.
        rewrite Es at 1. now constructor.
    + destruct (IH false) as (p & ps & b & r & E & Es & O & Hb).
      rewrite E. exists (c :: p), ps, [], r.
      split; [reflexivity|]. split; [|split; [exact O|reflexivity]].
      rewrite (Hb eq_refl) in Es. simpl in *. now f_equal.
Qed.

Lemma split_occursInOrder (isSep : Z -> bool) (s : jsstring) :
  occursInOrder (Params.split isSep s) s.
Proof.
  destruct (splitOn_pieces isSep s false) as (p & ps & b & r & E & Es & O & _).
  unfold Params.split. rewrite E, Es. now constructor.
Qed.

Lemma validId_spec (tok : jsstring) :
  Params.validId tok = true <-> tok <> [] /\ forallb Params.isAlnum tok = true.
Proof.
  unfold Params.validId. rewrite andb_true_iff.
  destruct tok; simpl; intuition congruence.
Qed.





(* ================================================================== *)
(** * The search page transformation *)
(* ================================================================== *)








(* ================================================================== *)
(** * The retry handler *)
(* ================================================================== *)

Import Cache.

Lemma shouldNotRetry_true (e : JsError) :
  MacCMSRetryHandler.shouldNotRetry e = true <-> clientOrValidation e.
Proof.
  unfold MacCMSRetryHandler.shouldNotRetry, clientOrValidation,
    MacCMSErrorHandler.statusIn.
  split.
  - destruct (err_status e) as [s|] eqn:Es.
    + destruct ((s >=? 400) && (s <? 500)) eqn:R.
      * intros _. right. exists s. split; [reflexivity|].
        apply andb_true_iff in R as [R1 R2].
        rewrite Z.geb_leb in R1. apply Z.leb_le in R1. apply Z.ltb_lt in R2. lia.
      * destruct (strict_eq (err_type e) _) eqn:T; [|discriminate].
        intros _. left. now apply strict_eq_true.
    + destruct (strict_eq (err_type e) _) eqn:T; [|discriminate].
      intros _. left. now apply strict_eq_true.
  - intros [T|(s & -> & R)].
    + apply strict_eq_true in T. change (errorTypeValue VALIDATION)
        with (js "VALIDATION_ERROR"). rewrite T.
      now destruct (match err_status e with Some _ => _ | None => _ end).
    + replace ((s >=? 400) && (s <? 500)) with true; [reflexivity|].
      symmetry. apply andb_true_iff. rewrite Z.geb_leb.
      split; [apply Z.leb_le|apply Z.ltb_lt]; lia.
Qed.

Lemma counting_step {Env A} (fn : Async Env A) (w : World Env) (n : nat) :
  counting fn (withCount w n)
  = (fst (fn w), withCount (snd (fn w)) (S n)).
Proof.
  unfold counting. destruct w as [e c m]. simpl.
  unfold forgetCount, withCount. simpl. now destruct (fn _).
Qed.

Lemma afterBackoff_count {Env} (tm : Timer Env) (delay backoff attempt : Z)
  (w : World Env) (n : nat) :
  log (LogRetry attempt (delay * backoff ^ (attempt - 1)))
    {| env := sleep (countingTimer tm) (delay * backoff ^ (attempt - 1))
                    (env (withCount w n));
       console := console (withCount w n);
       metrics := metrics (withCount w n) |}
  = withCount (afterBackoff tm delay backoff attempt w) n.
Proof. reflexivity. Qed.

(** One iteration of the loop, on the instrumented operation. *)
Lemma retryLoop_step {Env A} (tm : Timer Env) (fn : Async Env A)
  (maxRetries delay backoff : Z) (n : nat) (attempt : Z)
  (lastError : option JsError) (w : World Env) (k : nat) :
  MacCMSRetryHandler.retryLoop (countingTimer tm) (counting fn)
    maxRetries delay backoff (S n) attempt lastError (withCount w k)
  = match fn w with
    | (inr result, w1) => (inr result, withCount w1 (S k))
    | (inl error, w1) =>
      if attempt =? maxRetries then (inl (Some error), withCount w1 (S k))
      else if MacCMSRetryHandler.shouldNotRetry error
      then (inl (Some error), withCount w1 (S k))
      else MacCMSRetryHandler.retryLoop (countingTimer tm) (counting fn)
             maxRetries delay backoff n (attempt + 1) (Some error)
             (withCount (afterBackoff tm delay backoff attempt w1) (S k))
    end.
Proof.
  simpl MacCMSRetryHandler.retryLoop. rewrite counting_step.
  destruct (fn w) as [[error|result] w1]; reflexivity.
Qed.

Lemma forgetCount_withCount {Env} (w : World Env) (n : nat) :
  forgetCount (withCount w n) = w.
Proof. now destruct w. Qed.

(** Counting does not change what the handler does: without the counter,
    the instrumented run is the plain run. *)
Lemma counting_transparent {Env A} (tm : Timer Env) (fn : Async Env A)
  (maxRetries delay backoff : Z) (n : nat) :
  forall attempt lastError w k,
    MacCMSRetryHandler.retryLoop tm fn maxRetries delay backoff n attempt
      lastError w
    = (fst (MacCMSRetryHandler.retryLoop (countingTimer tm) (counting fn)
              maxRetries delay backoff n attempt lastError (withCount w k)),
       forgetCount
         (snd (MacCMSRetryHandler.retryLoop (countingTimer tm) (counting fn)
                 maxRetries delay backoff n attempt lastError (withCount w k)))).
Proof.
  induction n as [|n IH]; intros attempt lastError w k.
  - simpl. now rewrite forgetCount_withCount.
  - rewrite retryLoop_step. simpl MacCMSRetryHandler.retryLoop at 1.
    destruct (fn w) as [[error|result] w1]; simpl;
      [|now rewrite forgetCount_withCount].
    destruct (attempt =? maxRetries); simpl;
      [now rewrite forgetCount_withCount|].
    destruct (MacCMSRetryHandler.shouldNotRetry error); simpl;
      [now rewrite forgetCount_withCount|].
    apply (IH (attempt + 1) (Some error)
              (afterBackoff tm delay backoff attempt w1) (S k)).
Qed.

(** C6.  With [maxAttempts = 3]: an operation that throws retryable
    errors on its first two invocations and returns on the third makes
    [withRetry] return that result after exactly 3 invocations; an
    operation whose first error is classified as validation or carries a
    4xx status is invoked exactly once and that error is rethrown; and
    when all three invocations fail the error of the last one is thrown. *)
Theorem withRetry_three_attempts {Env A} (tm : Timer Env) (fn : Async Env A)
  (delay backoff : Z) (w0 : World Env) :
  (forall e1 w1 e2 w2 v w3,
      fn w0 = (inl e1, w1) ->
      ~ clientOrValidation e1 ->
      fn (afterBackoff tm delay backoff 1 w1) = (inl e2, w2) ->
      ~ clientOrValidation e2 ->
      fn (afterBackoff tm delay backoff 2 w2) = (inr v, w3) ->
      MacCMSRetryHandler.withRetry (countingTimer tm) (counting fn)
        3 delay backoff (withCount w0 0)
      = (inr v, withCount w3 3))
  /\ (forall e w1,
      fn w0 = (inl e, w1) ->
      clientOrValidation e ->
      MacCMSRetryHandler.withRetry (countingTimer tm) (counting fn)
        3 delay backoff (withCount w0 0)
      = (inl (Some e), withCount w1 1))
  /\ (forall e1 w1 e2 w2 e3 w3,
      fn w0 = (inl e1, w1) ->
      ~ clientOrValidation e1 ->
      fn (afterBackoff tm delay backoff 1 w1) = (inl e2, w2) ->
      ~ clientOrValidation e2 ->
      fn (afterBackoff tm delay backoff 2 w2) = (inl e3, w3) ->
      MacCMSRetryHandler.withRetry (countingTimer tm) (counting fn)
        3 delay backoff (withCount w0 0)
      = (inl (Some e3), withCount w3 3)).
Proof.
  assert (forall e, ~ clientOrValidation e ->
                    MacCMSRetryHandler.shouldNotRetry e = false) as Retry.
  { intros e H. destruct (MacCMSRetryHandler.shouldNotRetry e) eqn:S;
      [|reflexivity]. now apply shouldNotRetry_true in S. }
  unfold MacCMSRetryHandler.withRetry.
  change (Z.to_nat 3) with 3%nat.
  split; [|split].
  - intros e1 w1 e2 w2 v w3 H1 R1 H2 R2 H3.
    rewrite retryLoop_step, H1. simpl Z.eqb. cbv iota. rewrite (Retry _ R1).
    change (1 + 1) with 2.
    rewrite retryLoop_step, H2. simpl Z.eqb. cbv iota. rewrite (Retry _ R2).
    change (2 + 1) with 3.
    now rewrite retryLoop_step, H3.
  - intros e w1 H1 C.
    rewrite retryLoop_step, H1. simpl Z.eqb. cbv iota.
    now rewrite (proj2 (shouldNotRetry_true e) C).
  - intros e1 w1 e2 w2 e3 w3 H1 R1 H2 R2 H3.
    rewrite retryLoop_step, H1. simpl Z.eqb. cbv iota. rewrite (Retry _ R1).
    change (1 + 1) with 2.
    rewrite retryLoop_step, H2. simpl Z.eqb. cbv iota. rewrite (Retry _ R2).
    change (2 + 1) with 3.
    now rewrite retryLoop_step, H3.
Qed.

Lemma transient_retryable : ~ clientOrValidation transient.
Proof.
  intros [H|(s & H & R)]; [discriminate|]. injection H as <-. lia.
Qed.

Lemma withRetry_three_attempts_witness :
  (fst (retried (flaky 2 transient)) = inr 7
   /\ invocations (retried (flaky 2 transient)) = 3%nat)
  /\ (fst (retried (flaky 2 invalid)) = inl (Some invalid)
      /\ invocations (retried (flaky 2 invalid)) = 1%nat)
  /\ (fst (retried (flaky 1 notFound)) = inl (Some notFound)
      /\ invocations (retried (flaky 1 notFound)) = 1%nat)
  /\ (fst (retried (flaky 5 transient)) = inl (Some transient)
      /\ invocations (retried (flaky 5 transient)) = 3%nat).
Proof.
  unfold retried. refine (conj _ (conj _ (conj _ _))).
  - erewrite (proj1 (withRetry_three_attempts noTimer (flaky 2 transient)
                       1000 2 (emptyWorld 0%nat))).
    + split; reflexivity.
    + reflexivity.
    + exact transient_retryable.
    + reflexivity.
    + exact transient_retryable.
    + reflexivity.
  - erewrite (proj1 (proj2 (withRetry_three_attempts noTimer (flaky 2 invalid)
                              1000 2 (emptyWorld 0%nat)))).
    + split; reflexivity.
    + reflexivity.
    + left. reflexivity.
  - erewrite (proj1 (proj2 (withRetry_three_attempts noTimer (flaky 1 notFound)
                              1000 2 (emptyWorld 0%nat)))).
    + split; reflexivity.
    + reflexivity.
    + right. exists 404. split; [reflexivity|lia].
  - erewrite (proj2 (proj2 (withRetry_three_attempts noTimer (flaky 5 transient)
                              1000 2 (emptyWorld 0%nat)))).
    + split; reflexivity.
    + reflexivity.
    + exact transient_retryable.
    + reflexivity.
    + exact transient_retryable.
    + reflexivity.
Defined.

(* ================================================================== *)
(** * The detail handler *)
(* ================================================================== *)

Import Route.

(** With a positive budget the loop leaves by a [throw] of the error just
    caught, never with the initial [undefined]. *)
Lemma retryLoop_throws_object {Env A} (tm : Timer Env) (fn : Async Env A)
  (maxRetries delay backoff : Z) (n : nat) :
  forall attempt lastError w,
    Z.of_nat n = maxRetries - attempt + 1 -> n <> 0%nat ->
    fst (MacCMSRetryHandler.retryLoop tm fn maxRetries delay backoff n attempt
           lastError w) <> inl None.
Proof.
  induction n as [|n IH]; intros attempt lastError w Hn Hpos; [congruence|].
  simpl. destruct (fn w) as [[error|result] w1]; [|discriminate].
  destruct (Z.eqb_spec attempt maxRetries); [discriminate|].
  destruct (MacCMSRetryHandler.shouldNotRetry error); [discriminate|].
  apply IH; lia.
Qed.

Lemma withRetry_throws_object {Env A} (tm : Timer Env) (fn : Async Env A)
  (maxRetries delay backoff : Z) (w : World Env) :
  0 < maxRetries ->
  fst (MacCMSRetryHandler.withRetry tm fn maxRetries delay backoff w) <> inl None.
Proof.
  intros H. apply retryLoop_throws_object; lia.
Qed.

Lemma detailLoop_fetchEach {Env} (up : Upstream Env) (ids : list jsstring) :
  forall videoList w,
    detailLoop up ids videoList w
    = (inr (videoList ++ successes (fst (fetchEach up ids w))),
       snd (fetchEach up ids w)).
Proof.
  induction ids as [|id rest IH]; intros videoList w; simpl.
  - now rewrite app_nil_r.
  - unfold fetchOne.
    pose proof (withRetry_throws_object (timer up) (call (getVideoById up id))
                  2 500 2 w ltac:(lia)) as Hobj.
    destruct (MacCMSRetryHandler.withRetry _ _ _ _ _ _) as [[[error|]|video] w1].
    + rewrite IH. destruct (fetchEach up rest _) as [outcomes w2]. reflexivity.
    + now elim Hobj.
    + rewrite IH. destruct (fetchEach up rest w1) as [outcomes w2]. simpl.
      now rewrite <- app_assoc.
Qed.

Lemma fetchEach_ids {Env} (up : Upstream Env) (ids : list jsstring) :
  forall w, map fst (fst (fetchEach up ids w)) = ids.
Proof.
  induction ids as [|id rest IH]; intros w; simpl; [reflexivity|].
  destruct (fetchOne up id w) as [outcome w1]. specialize (IH w1).
  destruct (fetchEach up rest w1). simpl in *. congruence.
Qed.

Lemma successes_nil_iff (outcomes : list (jsstring * option Client.EpornerVideo)) :
  successes outcomes = [] <-> allFailed outcomes.
Proof.
  unfold allFailed.
  induction outcomes as [|[id [video|]] rest IH]; simpl.
  - split; [constructor|reflexivity].
  - split; [discriminate|]. inversion 1; discriminate.
  - rewrite IH. split; [now constructor|now inversion 1].
Qed.

Lemma handleVideoDetail_nonempty {Env} (up : Upstream Env)
  (params : Params.ProcessedParams) (ids : list jsstring) (w : World Env) :
  Params.videoIds params = Some ids -> ids <> [] ->
  handleVideoDetail up params w
  = match detailLoop up (firstn 10 ids) [] w with
    | (inr videoList, w1) =>
      if (length videoList =? 0)%nat
      then (validationResponse up (js "未找到有效的视频数据") w1, w1)
      else (MacCMSCacheManager.createCachedResponse (detailEnvelope videoList)
              ct_detail,
            MacCMSPerformanceMonitor.recordExecutionTime (timer up)
              (js "video_detail") (now up w) w1)
    | (inl error, w1) => catchAndRender up error (js "Video Detail") w1
    end.
Proof.
  intros Hids Hne. unfold handleVideoDetail. rewrite Hids.
  destruct ids; [congruence|reflexivity].
Qed.

(** C3.  For a detail request with a non-empty id list, every id (of the
    first ten) is fetched in turn, each under its own retry budget.  The
    ids that fail are skipped: when at least one succeeds the response is
    the code-1 envelope whose list holds the transformed records of the
    succeeding ids in request order, [total] and [limit] being their
    number; the validation error with the no-valid-data message is
    returned exactly when every id fails. *)
Theorem handleVideoDetail_partial_failure {Env} (up : Upstream Env)
  (params : Params.ProcessedParams) (ids : list jsstring) (w : World Env) :
  Params.videoIds params = Some ids -> ids <> [] ->
  let outcomes := fst (fetchEach up (firstn 10 ids) w) in
  let response := fst (handleVideoDetail up params w) in
  map fst outcomes = firstn 10 ids
  /\ (~ allFailed outcomes ->
      MacCMSCacheManager.json response = detailEnvelope (successes outcomes)
      /\ MacCMSCacheManager.header_X_Cache_Type response = ct_detail)
  /\ (allFailed outcomes ->
      code (MacCMSCacheManager.json response) = 0
      /\ msg (MacCMSCacheManager.json response) = js "未找到有效的视频数据"
      /\ option_map e_type (error (MacCMSCacheManager.json response))
         = Some VALIDATION
      /\ list_ (MacCMSCacheManager.json response) = Some []
      /\ MacCMSCacheManager.header_X_Cache_Type response = ct_error)
  /\ (code (MacCMSCacheManager.json response) = 0 -> allFailed outcomes).
Proof.
  intros Hids Hne. cbv zeta. split; [apply fetchEach_ids|].
  rewrite (handleVideoDetail_nonempty up params ids w Hids Hne).
  rewrite detailLoop_fetchEach, app_nil_l.
  generalize (snd (fetchEach up (firstn 10 ids) w)) as w1.
  generalize (fst (fetchEach up (firstn 10 ids) w)) as outcomes.
  intros outcomes w1.
  pose proof (successes_nil_iff outcomes) as Hnil.
  destruct (successes outcomes) as [|record records] eqn:S.
  - split; [intros H; elim H; now apply Hnil|].
    split; [intros _; repeat split; reflexivity|].
    intros _. now apply Hnil.
  - assert (~ allFailed outcomes) as Hsome.
    { intros H. apply Hnil in H. discriminate. }
    split; [intros _; split; reflexivity|].
    split; [intros H; now elim Hsome|].
    simpl. discriminate.
Qed.

Lemma handleVideoDetail_partial_failure_witness :
  MacCMSCacheManager.json
    (fst (handleVideoDetail mockUpstream
            (detailIntent [js "a1"; js "bad"; js "b2"]) (emptyWorld tt)))
  = detailEnvelope
      [MacCMSTransformer.transformVideo (videoOf (js "a1")) 361;
       MacCMSTransformer.transformVideo (videoOf (js "b2")) 398]
  /\ code (MacCMSCacheManager.json
             (fst (handleVideoDetail mockUpstream
                     (detailIntent [js "bad"; js "bad"]) (emptyWorld tt)))) = 0.
Proof.
  split.
  - refine (proj1 (proj1 (proj2 (handleVideoDetail_partial_failure mockUpstream
             (detailIntent [js "a1"; js "bad"; js "b2"])
             [js "a1"; js "bad"; js "b2"] (emptyWorld tt) eq_refl _)) _)).
    + discriminate.
    + intros H. inversion H as [|? ? H1 _]. discriminate H1.
  - refine (proj1 (proj1 (proj2 (proj2 (handleVideoDetail_partial_failure
             mockUpstream (detailIntent [js "bad"; js "bad"])
             [js "bad"; js "bad"] (emptyWorld tt) eq_refl _))) _)).
    + discriminate.
    + repeat constructor.
Defined.

(* ================================================================== *)
(** * The dispatcher and the category action *)
(* ================================================================== *)

Lemma errorResponse_class (e : ErrorDetail) (ty : CacheType) :
  class (MacCMSCacheManager.json
           (MacCMSCacheManager.createCachedResponse
              (MacCMSErrorHandler.createErrorResponse e) ty)) = None.
Proof. reflexivity. Qed.

Lemma catchTopLevel_class {Env} (up : Upstream Env) (e : JsError)
  (startTime : Z) (w : World Env) :
  class (MacCMSCacheManager.json (fst (catchTopLevel up e startTime w))) = None.
Proof. reflexivity. Qed.

Lemma searchAndRender_class {Env} (up : Upstream Env) (q : jsstring)
  (params : Params.ProcessedParams) (metric context : jsstring)
  (startTime : Z) (w : World Env) :
  match fst (searchAndRender up q params metric context startTime w) with
  | inr response => class (MacCMSCacheManager.json response) = None
  | inl _ => True
  end.
Proof.
  unfold searchAndRender.
  destruct (MacCMSRetryHandler.withRetry _ _ _ _ _ _) as [[[e|]|results] w1];
    simpl; auto.
Qed.

Lemma processParams_ac_category (clock : Params.Clock) :
  Params.action (Params.processParams clock query_ac_category) = Params.act_list
  /\ Params.validateParams (Params.processParams clock query_ac_category)
     = {| Params.valid := true; Params.error := None |}.
Proof. split; reflexivity. Qed.

(** C2 (what the code does).  The query [ac=category] does not resolve to
    the category action but to [list]; whatever the provider answers, the
    response carries no [class] member. *)
Theorem GET_ac_category_has_no_class {Env} (up : Upstream Env) (w : World Env) :
  Params.determineAction (rawParams [("ac", "category")]) = Params.act_list
  /\ class (MacCMSCacheManager.json (fst (GET up query_ac_category w))) = None.
Proof.
  split; [reflexivity|].
  unfold GET.
  destruct (processParams_ac_category (clock (timer up) (env w))) as [A V].
  rewrite V, A. simpl negb. cbv iota.
  destruct (call (getCacheTime up) w) as [[e|cacheTime] w1];
    [apply catchTopLevel_class|].
  unfold handleVideoList.
  pose proof (searchAndRender_class up (js "popular")
                (Params.processParams (clock (timer up) (env w)) query_ac_category)
                (js "video_list") (js "Video List") (now up w1) w1) as H.
  destruct (searchAndRender _ _ _ _ _ _ _) as [[e|response] w2]; simpl in *.
  - reflexivity.
  - exact H.
Qed.

(** What the category action returns once a request resolves to it: the
    code-1 envelope whose [class] member is the one fixed record. *)
Lemma GET_category_action {Env} (up : Upstream Env)
  (searchParams : Params.SearchParams) (w : World Env) (cacheTime : Z) (e : Env) :
  Params.action (Params.processParams (clock (timer up) (env w)) searchParams)
  = Params.act_category ->
  getCacheTime up (env w) = (inr cacheTime, e) ->
  MacCMSCacheManager.json (fst (GET up searchParams w)) = categoryEnvelope.
Proof.
  intros A C. unfold GET.
  pose proof (validateParams_outcomes (clock (timer up) (env w))
                (fold_left (fun params kv => Params.setParam params (fst kv) (snd kv))
                           searchParams Params.noParams)) as (_ & _ & V & _).
  fold (Params.processParams (clock (timer up) (env w)) searchParams) in V.
  destruct V as [V|[(A' & _)|(A' & _)]]; try congruence.
  rewrite V, A. simpl negb. cbv iota.
  unfold call. rewrite C. reflexivity.
Qed.

Lemma GET_category_action_example :
  MacCMSCacheManager.json
    (fst (GET mockUpstream (query [("ac", "list"); ("t", "0")]) (emptyWorld tt)))
  = categoryEnvelope
  /\ class (MacCMSCacheManager.json
              (fst (GET mockUpstream query_ac_category (emptyWorld tt)))) = None
  /\ option_map (map Schema.vod_id)
       (list_ (MacCMSCacheManager.json
                 (fst (GET mockUpstream query_ac_category (emptyWorld tt)))))
     = Some [1; 2; 3].
Proof.
  split; [|split].
  - now apply (GET_category_action mockUpstream _ (emptyWorld tt) 300 tt).
  - reflexivity.
  - reflexivity.
Qed.
(** The end-to-end scenario of a search: page 2 of 25 matches, 10 a page. *)
Example GET_search_scenario :
  code (MacCMSCacheManager.json
          (fst (GET mockUpstream
                  (query [("ac", "search"); ("wd", "space"); ("pg", "2");
                          ("limit", "10")])
                  (emptyWorld tt)))) = 1
  /\ page (MacCMSCacheManager.json
            (fst (GET mockUpstream
                    (query [("ac", "search"); ("wd", "space"); ("pg", "2");
                            ("limit", "10")])
                    (emptyWorld tt)))) = 2
  /\ limit (MacCMSCacheManager.json
             (fst (GET mockUpstream
                     (query [("ac", "search"); ("wd", "space"); ("pg", "2");
                             ("limit", "10")])
                     (emptyWorld tt)))) = 10
  /\ total (MacCMSCacheManager.json
             (fst (GET mockUpstream
                     (query [("ac", "search"); ("wd", "space"); ("pg", "2");
                             ("limit", "10")])
                     (emptyWorld tt)))) = 25
  /\ pagecount (MacCMSCacheManager.json
                 (fst (GET mockUpstream
                         (query [("ac", "search"); ("wd", "space"); ("pg", "2");
                                 ("limit", "10")])
                         (emptyWorld tt)))) = Int 3.
Proof. vm_compute. auto 6. Qed.

(* ================================================================== *)
(** * The cache key: order of the keys *)
(* ================================================================== *)











(* ================================================================== *)
(** * The cache key: base64 is injective *)
(* ================================================================== *)

(** Linear arithmetic with divisions and remainders by constants. *)
Ltac divlia := Z.div_mod_to_equations; lia.




Lemma sextets_inj (a b c a' b' c' : Z) :
  isOctet a -> isOctet b -> isOctet c ->
  isOctet a' -> isOctet b' -> isOctet c' ->
  a / 4 = a' / 4 ->
  (a mod 4) * 16 + b / 16 = (a' mod 4) * 16 + b' / 16 ->
  (b mod 16) * 4 + c / 64 = (b' mod 16) * 4 + c' / 64 ->
  c mod 64 = c' mod 64 ->
  a = a' /\ b = b' /\ c = c'.
Proof. unfold isOctet. intros. divlia. Qed.




(* ================================================================== *)
(** * The cache key: [encodeURIComponent] is injective *)
(* ================================================================== *)
























(* ================================================================== *)
(** * The cache key: a different keyword gives a different key *)
(* ================================================================== *)





Lemma join_cons (sep x : jsstring) (b : list jsstring) :
  join sep (x :: b) = x ++ flat_map (fun p => sep ++ p) b.
Proof.
  revert x; induction b as [|y b IH]; intros x.
  - simpl. now rewrite app_nil_r.
  - change (join sep (x :: y :: b)) with (x ++ sep ++ join sep (y :: b)).
    rewrite IH. simpl. now rewrite <- !app_assoc.
Qed.

Lemma join_middle (sep x : jsstring) (a b : list jsstring) :
  join sep (a ++ x :: b)
  = flat_map (fun p => p ++ sep) a ++ x ++ flat_map (fun p => sep ++ p) b.
Proof.
  induction a as [|y a IH]; [apply join_cons|].
  destruct a as [|z a].
  - simpl app at 1. change (join sep (y :: x :: b))
      with (y ++ sep ++ join sep (x :: b)).
    rewrite join_cons. simpl. now rewrite <- !app_assoc.
  - change (join sep ((y :: z :: a) ++ x :: b))
      with (y ++ sep ++ join sep ((z :: a) ++ x :: b)).
    rewrite IH. simpl. now rewrite <- !app_assoc.
Qed.






















Import Notions.
(* ================================================================== *)
(** * Further properties of the retry handler *)
(* ================================================================== *)

Lemma retryLoop_invocations {Env A} (tm : Timer Env) (fn : Async Env A)
  (maxRetries delay backoff : Z) (n : nat) :
  forall attempt lastError w k,
    (k + Nat.min 1 n
     <= invocationsOf
          (MacCMSRetryHandler.retryLoop (countingTimer tm) (counting fn)
             maxRetries delay backoff n attempt lastError (withCount w k))
     <= k + n)%nat.
Proof.
  unfold invocationsOf.
  induction n as [|n IH]; intros attempt lastError w k.
  - simpl. lia.
  - rewrite retryLoop_step.
    destruct (fn w) as [[error|result] w1]; [|simpl; lia].
    destruct (attempt =? maxRetries); [simpl; lia|].
    destruct (MacCMSRetryHandler.shouldNotRetry error); [simpl; lia|].
    specialize (IH (attempt + 1) (Some error)
                   (afterBackoff tm delay backoff attempt w1) (S k)).
    simpl Nat.min. lia.
Qed.

(** X1.  [withRetry] invokes the operation at least once and at most
    [maxRetries] times when the budget is positive; with a budget of zero
    or less it never invokes it, changes nothing and throws the
    [undefined] that [lastError] was declared with. *)
Theorem withRetry_invocation_bounds {Env A} (tm : Timer Env) (fn : Async Env A)
  (maxRetries delay backoff : Z) (w : World Env) :
  (0 < maxRetries ->
   (1 <= invocationsOf
           (MacCMSRetryHandler.withRetry (countingTimer tm) (counting fn)
              maxRetries delay backoff (withCount w 0))
      <= Z.to_nat maxRetries)%nat)
  /\ (maxRetries <= 0 ->
      MacCMSRetryHandler.withRetry tm fn maxRetries delay backoff w
      = (inl None, w)).
Proof.
  unfold MacCMSRetryHandler.withRetry. split.
  - intros P.
    pose proof (retryLoop_invocations tm fn maxRetries delay backoff
                  (Z.to_nat maxRetries) 1 None w 0) as B.
    destruct (Z.to_nat maxRetries) as [|n] eqn:E; [lia|].
    simpl Nat.min in B. lia.
  - intros P. replace (Z.to_nat maxRetries) with 0%nat by lia. reflexivity.
Qed.

Lemma withRetry_invocation_bounds_witness :
  (1 <= invocationsOf (retried (flaky 5 transient)) <= 3)%nat
  /\ MacCMSRetryHandler.withRetry noTimer (flaky 5 transient) 0 1000 2
       (emptyWorld 0%nat)
     = (inl None, emptyWorld 0%nat).
Proof.
  split.
  - apply (proj1 (withRetry_invocation_bounds noTimer (flaky 5 transient)
                    3 1000 2 (emptyWorld 0%nat))). lia.
  - apply (proj2 (withRetry_invocation_bounds noTimer (flaky 5 transient)
                    0 1000 2 (emptyWorld 0%nat))). lia.
Defined.

Lemma retryWarnings_cons (delay backoff : Z) (a m : nat) :
  retryWarnings delay backoff a (S m)
  = LogRetry (Z.of_nat a) (delay * backoff ^ (Z.of_nat a - 1))
    :: retryWarnings delay backoff (S a) m.
Proof. reflexivity. Qed.

Lemma retryLoop_console {Env A} (tm : Timer Env) (fn : Async Env A)
  (maxRetries delay backoff : Z) (Hs : silent fn) (n : nat) :
  forall (a : nat) lastError w k,
    Z.of_nat (S n) = maxRetries - Z.of_nat a + 1 ->
    (k < invocationsOf
           (MacCMSRetryHandler.retryLoop (countingTimer tm) (counting fn)
              maxRetries delay backoff (S n) (Z.of_nat a) lastError
              (withCount w k)))%nat
    /\ console (snd (MacCMSRetryHandler.retryLoop (countingTimer tm)
                       (counting fn) maxRetries delay backoff (S n)
                       (Z.of_nat a) lastError (withCount w k)))
       = console w
         ++ retryWarnings delay backoff a
              (invocationsOf
                 (MacCMSRetryHandler.retryLoop (countingTimer tm)
                    (counting fn) maxRetries delay backoff (S n)
                    (Z.of_nat a) lastError (withCount w k)) - k - 1).
Proof.
  unfold invocationsOf.
  induction n as [|n IH]; intros a lastError w k Inv;
    rewrite retryLoop_step; pose proof (Hs w) as Sw;
    destruct (fn w) as [[error|result] w1]; cbn [snd] in Sw.
  - replace (Z.of_nat a =? maxRetries) with true
      by (symmetry; apply Z.eqb_eq; lia).
    cbn [snd env withCount console]. replace (1 - 0 - 1)%nat with 0%nat by lia.
    split; [lia|]. replace (S k - k - 1)%nat with 0%nat by lia.
    now rewrite app_nil_r.
  - cbn [snd env withCount console]. split; [lia|].
    replace (S k - k - 1)%nat with 0%nat by lia. now rewrite app_nil_r.
  - assert (forall T (x : T * World (Env * nat)),
               x = (fst x, withCount w1 (S k)) ->
               (k < snd (env (snd x)))%nat
               /\ console (snd x)
                  = console w
                    ++ retryWarnings delay backoff a
                         (snd (env (snd x)) - k - 1)) as Stop.
    { intros T x ->. cbn [snd env withCount console]. split; [lia|].
      replace (S k - k - 1)%nat with 0%nat by lia. now rewrite app_nil_r. }
    destruct (Z.of_nat a =? maxRetries); [now apply Stop|].
    destruct (MacCMSRetryHandler.shouldNotRetry error); [now apply Stop|].
    replace (Z.of_nat a + 1) with (Z.of_nat (S a)) by lia.
    destruct (IH (S a) (Some error)
                 (afterBackoff tm delay backoff (Z.of_nat a) w1) (S k))
      as [B C]; [lia|].
    split; [lia|]. rewrite C.
    replace (snd (env (snd (MacCMSRetryHandler.retryLoop (countingTimer tm)
                  (counting fn) maxRetries delay backoff (S n)
                  (Z.of_nat (S a)) (Some error)
                  (withCount (afterBackoff tm delay backoff (Z.of_nat a) w1)
                     (S k))))) - k - 1)%nat
      with (S (snd (env (snd (MacCMSRetryHandler.retryLoop (countingTimer tm)
                  (counting fn) maxRetries delay backoff (S n)
                  (Z.of_nat (S a)) (Some error)
                  (withCount (afterBackoff tm delay backoff (Z.of_nat a) w1)
                     (S k))))) - S k - 1))%nat by lia.
    rewrite retryWarnings_cons. unfold afterBackoff, log.
    cbn [console]. rewrite Sw, <- app_assoc. reflexivity.
  - cbn [snd env withCount console]. split; [lia|].
    replace (S k - k - 1)%nat with 0%nat by lia. now rewrite app_nil_r.
Qed.

(** X2.  When the operation itself writes nothing to the console,
    [withRetry] writes exactly one warning before each invocation after
    the first, and the warning before invocation [k + 1] announces the
    wait [delay * backoff ^ (k - 1)]: the waits grow geometrically from
    [delay]. *)
Theorem withRetry_backoff_schedule {Env A} (tm : Timer Env) (fn : Async Env A)
  (maxRetries delay backoff : Z) (w : World Env) :
  silent fn ->
  console (snd (MacCMSRetryHandler.withRetry (countingTimer tm) (counting fn)
                  maxRetries delay backoff (withCount w 0)))
  = console w
    ++ retryWarnings delay backoff 1
         (invocationsOf
            (MacCMSRetryHandler.withRetry (countingTimer tm) (counting fn)
               maxRetries delay backoff (withCount w 0)) - 1).
Proof.
  intros Hs. unfold MacCMSRetryHandler.withRetry.
  destruct (Z.to_nat maxRetries) as [|n] eqn:E.
  - simpl. now rewrite app_nil_r.
  - destruct (retryLoop_console tm fn maxRetries delay backoff Hs n 1 None w 0)
      as [_ C]; [lia|].
    change (Z.of_nat 1) with 1 in C. rewrite C.
    now rewrite Nat.sub_0_r.
Qed.

Lemma flaky_silent (failures : nat) (failure : JsError) :
  silent (flaky failures failure).
Proof. intros w. reflexivity. Qed.

Lemma withRetry_backoff_schedule_witness :
  console (snd (retried (flaky 5 transient)))
  = [LogRetry 1 1000; LogRetry 2 2000].
Proof.
  exact (withRetry_backoff_schedule noTimer (flaky 5 transient) 3 1000 2
           (emptyWorld 0%nat) (flaky_silent 5 transient)).
Defined.

(* ================================================================== *)
(** * Further properties of the error handler *)
(* ================================================================== *)

Import MacCMSErrorHandler.

(** X3.  An error that [handleApiError] classifies as rate limiting (a
    response status 429 on an error that is neither an abort nor a
    connection failure) is one that [withRetry] does not retry: with a
    positive budget the operation is invoked once and the error is
    rethrown at once, without a pause. *)
Theorem rate_limited_not_retried {Env A} (tm : Timer Env) (fn : Async Env A)
  (maxRetries delay backoff now : Z) (w w1 : World Env) (e : JsError) :
  0 < maxRetries ->
  fn w = (inl e, w1) ->
  type (handleApiError e now) = RATE_LIMIT ->
  MacCMSRetryHandler.withRetry tm fn maxRetries delay backoff w
  = (inl (Some e), w1).
Proof.
  intros P F T.
  assert (MacCMSRetryHandler.shouldNotRetry e = true) as S.
  { unfold handleApiError in T.
    unfold MacCMSRetryHandler.shouldNotRetry, statusIn in *.
    destruct (strict_eq (err_name e) _ || strict_eq (err_code e) _);
      [discriminate|].
    destruct (strict_eq (err_code e) _ || strict_eq (err_code e) _);
      [discriminate|].
    destruct (err_status e) as [s|].
    - destruct (s =? 429) eqn:E.
      + apply Z.eqb_eq in E. subst s. reflexivity.
      + destruct ((s >=? 400) && (s <? 500)); [discriminate|].
        destruct (s >=? 500); discriminate.
    - discriminate. }
  unfold MacCMSRetryHandler.withRetry.
  destruct (Z.to_nat maxRetries) as [|n] eqn:E; [lia|].
  cbn [MacCMSRetryHandler.retryLoop]. rewrite F, S.
  now destruct (1 =? maxRetries).
Qed.

Lemma rate_limited_not_retried_witness :
  MacCMSRetryHandler.withRetry noTimer (flaky 5 (errorWith (Some 429) None))
    3 1000 2 (emptyWorld 0%nat)
  = (inl (Some (errorWith (Some 429) None)), emptyWorld 1%nat).
Proof.
  apply (rate_limited_not_retried noTimer (flaky 5 (errorWith (Some 429) None))
           3 1000 2 0 (emptyWorld 0%nat) (emptyWorld 1%nat)
           (errorWith (Some 429) None)).
  - lia.
  - reflexivity.
  - reflexivity.
Defined.

(** X4.  [handleApiError] never classifies an error as a validation
    error, stamps the record with the given time, and attaches the
    original message as details exactly when the classification is
    [UNKNOWN]; an error whose response status is 400 or more is never
    [UNKNOWN], and an abort is a timeout whatever status it carries. *)
Theorem handleApiError_classification (e : JsError) (now : Z) :
  type (handleApiError e now) <> VALIDATION
  /\ timestamp (handleApiError e now) = now
  /\ details (handleApiError e now)
     = match type (handleApiError e now) with
       | UNKNOWN => Some (err_message e)
       | _ => None
       end
  /\ (forall s, err_status e = Some s -> 400 <= s ->
                type (handleApiError e now) <> UNKNOWN)
  /\ (err_name e = Some (js "AbortError") ->
      type (handleApiError e now) = TIMEOUT).
Proof.
  unfold handleApiError, statusIn.
  refine (conj _ (conj _ (conj _ (conj _ _)))).
  - repeat match goal with
           | |- context [if ?b then _ else _] => destruct b
           end; discriminate.
  - repeat match goal with
           | |- context [if ?b then _ else _] => destruct b
           end; reflexivity.
  - repeat match goal with
           | |- context [if ?b then _ else _] => destruct b
           end; reflexivity.
  - intros s -> Hs.
    destruct (strict_eq (err_name e) _ || strict_eq (err_code e) _);
      [discriminate|].
    destruct (strict_eq (err_code e) _ || strict_eq (err_code e) _);
      [discriminate|].
    destruct (s =? 429); [discriminate|].
    destruct ((s >=? 400) && (s <? 500)) eqn:E4; [discriminate|].
    destruct (s >=? 500) eqn:E5; [discriminate|].
    exfalso. rewrite Z.geb_leb in E4, E5.
    apply Z.leb_gt in E5. apply andb_false_iff in E4 as [E4|E4].
    + apply Z.leb_gt in E4. lia.
    + apply Z.ltb_ge in E4. lia.
  - intros N. apply strict_eq_true in N. now rewrite N.
Qed.

Lemma handleApiError_classification_witness :
  type (handleApiError notFound 5) <> UNKNOWN
  /\ type (handleApiError
             {| err_name := Some (js "AbortError"); err_code := None;
                err_status := Some 429; err_type := None;
                err_message := None |} 5) = TIMEOUT.
Proof.
  split.
  - apply (proj1 (proj2 (proj2 (proj2
             (handleApiError_classification notFound 5)))) 404);
      [reflexivity|lia].
  - apply (proj2 (proj2 (proj2 (proj2
             (handleApiError_classification _ 5))))). reflexivity.
Defined.

(* ================================================================== *)
(** * Further properties of the dispatcher *)
(* ================================================================== *)

(** Membership of a literal in a list of literals, found by syntactic
    comparison. *)
Ltac member :=
  cbn [In];
  repeat match goal with
         | |- ?x = ?y \/ _ =>
           tryif constr_eq x y then (left; reflexivity) else right
         | |- ?x = ?y => constr_eq x y; reflexivity
         end.

Lemma validateParams_valid (p : Params.ProcessedParams) :
  Params.valid (Params.validateParams p) = true ->
  (Params.action p = Params.act_search -> truthy (Params.keyword p) = true)
  /\ (Params.action p = Params.act_detail ->
      exists ids, Params.videoIds p = Some ids /\ ids <> [])
  /\ 1 <= Params.page p
  /\ 1 <= Params.plimit p <= 100.
Proof.
  unfold Params.validateParams, Params.MIN_LIMIT, Params.MAX_LIMIT.
  destruct (Params.action p) eqn:A.
  all: destruct (truthy (Params.keyword p)) eqn:K; simpl negb; cbv iota.
  all: try (intros H; discriminate H).
  all: destruct (Params.videoIds p) as [[|i l]|] eqn:I; cbn [length Nat.eqb];
    cbv iota.
  all: try (intros H; discriminate H).
  all: destruct (Params.page p <? 1) eqn:P; [intros H; discriminate H|].
  all: destruct (Params.plimit p <? 1) eqn:L1; [intros H; discriminate H|].
  all: destruct (Params.plimit p >? 100) eqn:L2; [intros H; discriminate H|].
  all: intros _; apply Z.ltb_ge in P, L1; rewrite Z.gtb_ltb in L2;
    apply Z.ltb_ge in L2.
  all: refine (conj _ (conj _ (conj _ _))); try lia; try discriminate;
    try reflexivity.
  all: intros _; eexists; split; [reflexivity|discriminate].
Qed.

Lemma searchAndRender_answer {Env} (up : Upstream Env) (q : jsstring)
  (params : Params.ProcessedParams) (metric context : jsstring)
  (startTime : Z) (w : World Env) :
  Params.action params = Params.act_search
  \/ Params.action params = Params.act_list ->
  exists r, fst (searchAndRender up q params metric context startTime w) = inr r
            /\ answer params r.
Proof.
  intros A. unfold searchAndRender.
  pose proof (withRetry_throws_object (timer up)
                (call (search up q (Params.page params)
                         (Z.min (Params.plimit params) 60) (orderOrLatest params)))
                3 1000 2 w ltac:(lia)) as Hobj.
  destruct (MacCMSRetryHandler.withRetry _ _ _ _ _ _) as [[[e|]|results] w1].
  - eexists. split; [reflexivity|]. apply answer_failed.
  - now elim Hobj.
  - eexists. split; [reflexivity|]. now apply answer_page.
Qed.

Lemma successes_length (outcomes : list (jsstring * option Client.EpornerVideo)) :
  (length (successes outcomes) <= length outcomes)%nat.
Proof.
  induction outcomes as [|[id [v|]] rest IH]; simpl; lia.
Qed.

Lemma handleVideoDetail_answer {Env} (up : Upstream Env)
  (params : Params.ProcessedParams) (w : World Env) :
  Params.action params = Params.act_detail ->
  (exists ids, Params.videoIds params = Some ids /\ ids <> []) ->
  answer params (fst (handleVideoDetail up params w)).
Proof.
  intros A (ids & I & N).
  rewrite (handleVideoDetail_nonempty up params ids w I N).
  rewrite detailLoop_fetchEach, app_nil_l.
  pose proof (successes_length (fst (fetchEach up (firstn 10 ids) w))) as L.
  rewrite <- (length_map fst), fetchEach_ids in L.
  pose proof (firstn_le_length 10 ids) as L1.
  assert (length (firstn 10 ids) <= 10)%nat as L2
    by (rewrite length_firstn; lia).
  destruct (successes _) as [|r rs] eqn:S; cbn [length Nat.eqb fst].
  - apply answer_rejected. unfold rejectionMessages. member.
  - apply answer_details; [assumption|discriminate|simpl in *; lia].
Qed.

(** Every way [GET] answers. *)
Lemma GET_answer {Env} (up : Upstream Env) (searchParams : Params.SearchParams)
  (w : World Env) :
  answer (Params.processParams (clock (timer up) (env w)) searchParams)
         (fst (GET up searchParams w)).
Proof.
  unfold GET.
  set (intent := Params.processParams (clock (timer up) (env w)) searchParams).
  pose proof (validateParams_outcomes (clock (timer up) (env w))
                (fold_left (fun params kv => Params.setParam params (fst kv) (snd kv))
                           searchParams Params.noParams)) as (_ & _ & V & _).
  fold (Params.processParams (clock (timer up) (env w)) searchParams) in V.
  fold intent in V.
  destruct V as [V|[(_ & _ & V)|(_ & _ & V)]].
  2, 3: rewrite V; cbn [Params.valid Params.error negb fst];
    apply answer_rejected; unfold rejectionMessages; member.
  pose proof (validateParams_valid intent) as (Vs & Vd & _).
  { now rewrite V. }
  rewrite V. simpl negb. cbv iota.
  destruct (call (getCacheTime up) w) as [[e|cacheTime] w1];
    [apply answer_failed|].
  destruct (Params.action intent) eqn:A.
  - destruct (searchAndRender_answer up (js "popular") intent
                (js "video_list") (js "Video List") (now up w1) w1) as (r & E & R);
      [now right|].
    unfold handleVideoList.
    destruct (searchAndRender _ _ _ _ _ _ _) as [[e|r'] w2]; simpl in E;
      [discriminate|]. injection E as ->. exact R.
  - pose proof (handleVideoDetail_answer up intent w1 A (Vd eq_refl)) as R.
    destruct (handleVideoDetail up intent w1) as [r w2]. exact R.
  - unfold handleVideoSearch. rewrite (Vs eq_refl). simpl negb. cbv iota.
    destruct (nonempty (Client.sanitizeQuery _)) eqn:Q; simpl negb; cbv iota.
    + destruct (searchAndRender_answer up
                  (Client.sanitizeQuery
                     match Params.keyword intent with Some k => k | None => [] end)
                  intent (js "video_search") (js "Video Search") (now up w1) w1)
        as (r & E & R); [now left|].
      destruct (searchAndRender _ _ _ _ _ _ _) as [[e|r'] w2]; simpl in E;
        [discriminate|]. injection E as ->. exact R.
    + apply answer_rejected. unfold rejectionMessages. member.
  - now apply answer_categories.
Qed.

(** X5.  Every response of [GET], on every path, is either an error
    envelope or a success envelope, never a mixture: with an [error]
    member the code is 0, the list is empty, the counters are zero and the
    cache type is [error]; without one the code is 1, the message is the
    success message, the cache type is that of the resolved action, and
    exactly one of [list] and [class] is present ([class] for the category
    action only).  The TTL header is always the TTL of the cache type. *)
Theorem GET_envelope_invariant {Env} (up : Upstream Env)
  (searchParams : Params.SearchParams) (w : World Env) :
  let intent := Params.processParams (clock (timer up) (env w)) searchParams in
  let response := fst (GET up searchParams w) in
  MacCMSCacheManager.header_X_Cache_TTL response
  = numberToString (MacCMSCacheManager.getCacheTime (MacCMSCacheManager.header_X_Cache_Type response))
  /\ match error (MacCMSCacheManager.json response) with
     | Some info =>
       code (MacCMSCacheManager.json response) = 0
       /\ MacCMSCacheManager.header_X_Cache_Type response = ct_error
       /\ list_ (MacCMSCacheManager.json response) = Some []
       /\ class (MacCMSCacheManager.json response) = None
       /\ total (MacCMSCacheManager.json response) = 0
       /\ pagecount (MacCMSCacheManager.json response) = Int 0
     | None =>
       code (MacCMSCacheManager.json response) = 1
       /\ msg (MacCMSCacheManager.json response) = js "数据列表"
       /\ MacCMSCacheManager.header_X_Cache_Type response = successCacheType (Params.action intent)
       /\ (class (MacCMSCacheManager.json response) <> None
           <-> Params.action intent = Params.act_category)
       /\ (list_ (MacCMSCacheManager.json response) = None
           <-> Params.action intent = Params.act_category)
     end.
Proof.
  cbv zeta.
  pose proof (GET_answer up searchParams w) as H. revert H.
  generalize (Params.processParams (clock (timer up) (env w)) searchParams).
  intros intent [m t M|e t|results A|records A N L|A];
    (split; [reflexivity|]);
    cbn [MacCMSCacheManager.json MacCMSCacheManager.createCachedResponse
         MacCMSCacheManager.header_X_Cache_Type error code list_ class total
         pagecount msg createErrorResponse detailEnvelope categoryEnvelope
         MacCMSTransformer.transformSearchResponse].
  - auto 7.
  - auto 7.
  - refine (conj eq_refl (conj eq_refl (conj _ (conj _ _)))).
    + now destruct A as [-> | ->].
    + split; [congruence|]. destruct A as [A|A]; rewrite A; discriminate.
    + split; [discriminate|]. destruct A as [A|A]; rewrite A; discriminate.
  - rewrite A.
    refine (conj eq_refl (conj eq_refl (conj eq_refl (conj _ _))));
      split; try congruence; discriminate.
  - rewrite A.
    refine (conj eq_refl (conj eq_refl (conj eq_refl (conj _ _))));
      split; try congruence; discriminate.
Qed.

(** X6.  The message of every response of [GET] is the success message,
    one of four validation messages, or one of the six messages of the
    classified provider errors.  The messages of the handlers' own guards
    for a missing keyword and a missing id list, of the page and limit
    checks and of the unsupported-action branch never reach a client. *)
Theorem GET_messages {Env} (up : Upstream Env)
  (searchParams : Params.SearchParams) (w : World Env) :
  In (msg (MacCMSCacheManager.json (fst (GET up searchParams w))))
     (js "数据列表" :: rejectionMessages ++ failureMessages)
  /\ ~ In (msg (MacCMSCacheManager.json (fst (GET up searchParams w))))
          [js "请提供搜索关键词"; js "请提供视频ID"; js "页码必须大于0";
           js "每页数量必须在1-100之间"; js "不支持的操作类型"].
Proof.
  assert (In (msg (MacCMSCacheManager.json (fst (GET up searchParams w))))
             (js "数据列表" :: rejectionMessages ++ failureMessages)) as H.
  { destruct (GET_answer up searchParams w) as
      [m t M|e t|results A|records A N L|A].
    - right. apply in_or_app. now left.
    - right. apply in_or_app. right.
      cbn [MacCMSCacheManager.json MacCMSCacheManager.createCachedResponse msg createErrorResponse].
      unfold handleApiError, failureMessages.
      repeat match goal with
             | |- context [if ?b then _ else _] => destruct b
             end; cbn [message createError]; member.
    - now left.
    - now left.
    - now left. }
  split; [exact H|].
  intros D. revert H. generalize dependent (msg (MacCMSCacheManager.json (fst (GET up searchParams w)))).
  intros m D H.
  assert (forallb (fun a =>
            forallb (fun b => negb (jsstring_eqb a b))
              [js "请提供搜索关键词"; js "请提供视频ID"; js "页码必须大于0";
               js "每页数量必须在1-100之间"; js "不支持的操作类型"])
            (js "数据列表" :: rejectionMessages ++ failureMessages) = true) as F
    by (vm_compute; reflexivity).
  rewrite forallb_forall in F. specialize (F m H).
  rewrite forallb_forall in F. specialize (F m D).
  now rewrite jsstring_eqb_refl in F.
Qed.

(* ================================================================== *)
(** * What the dispatcher asks of the provider *)
(* ================================================================== *)


Lemma recordExecutionTime_env {Env} (tm : Timer Env) (operation : jsstring)
  (startTime : Z) (w : World Env) :
  env (MacCMSPerformanceMonitor.recordExecutionTime tm operation startTime w)
  = env w.
Proof.
  unfold MacCMSPerformanceMonitor.recordExecutionTime.
  now destruct (_ >? 5000).
Qed.



Lemma isAlnum_not_space (c : Z) :
  Params.isAlnum c = true -> isWhiteSpace c = false.
Proof.
  unfold Params.isAlnum, isWhiteSpace. intros H.
  rewrite !orb_true_iff, !andb_true_iff, !Z.leb_le in H.
  apply not_true_is_false. intros W.
  rewrite !orb_true_iff, !andb_true_iff, !Z.leb_le, !Z.eqb_eq in W. lia.
Qed.

Lemma trimStart_head (c : Z) (s : jsstring) :
  isWhiteSpace c = false -> trimStart (c :: s) = c :: s.
Proof. intros H. simpl. now rewrite H. Qed.

(** A text without white space is its own trimmed text. *)
Lemma trim_no_space (s : jsstring) :
  forallb (fun c => negb (isWhiteSpace c)) s = true -> trim s = s.
Proof.
  intros H. unfold trim, trimEnd.
  assert (forall l, forallb (fun c => negb (isWhiteSpace c)) l = true ->
                    trimStart l = l) as T.
  { intros [|c l]; [reflexivity|]. simpl. intros F.
    apply andb_true_iff in F as [F _]. apply negb_true_iff in F.
    now rewrite F. }
  rewrite (T s H), T, rev_involutive; [reflexivity|].
  rewrite forallb_forall in *. intros c Hc. apply H. now apply in_rev.
Qed.






(** The calls of a detail request for three ids, and of a search whose
    keyword is one space after cleaning. *)
Example GET_provider_calls_example :
  journalOf (GET (recording mockUpstream)
               (query [("ac", "detail"); ("ids", "a1,bad,b2")])
               (withJournal (emptyWorld tt) []))
  = [ConfigCall; VideoCall (js "a1"); VideoCall (js "bad"); VideoCall (js "b2")]
  /\ journalOf (GET (recording mockUpstream)
                  (query [("ac", "list"); ("wd", "< >"); ("limit", "80")])
                  (withJournal (emptyWorld tt) []))
     = [ConfigCall].
Proof. split; vm_compute; reflexivity. Qed.

Lemma searchAndRender_returns {Env} (up : Upstream Env) (q : jsstring)
  (params : Params.ProcessedParams) (metric context : jsstring)
  (startTime : Z) (w : World Env) :
  exists r, fst (searchAndRender up q params metric context startTime w) = inr r.
Proof.
  unfold searchAndRender.
  pose proof (withRetry_throws_object (timer up)
                (call (search up q (Params.page params)
                         (Z.min (Params.plimit params) 60) (orderOrLatest params)))
                3 1000 2 w ltac:(lia)) as Hobj.
  destruct (MacCMSRetryHandler.withRetry _ _ _ _ _ _) as [[[e|]|results] w1].
  - eexists. reflexivity.
  - now elim Hobj.
  - eexists. reflexivity.
Qed.

(** X8.  The search handler and the list handler never throw, whatever
    the provider does and whatever intent they are given: every failure of
    the provider is caught and rendered as an error response, and their
    [catch] blocks are never handed the [undefined] that would make them
    fault. *)
Theorem handlers_never_throw {Env} (up : Upstream Env)
  (params : Params.ProcessedParams) (w : World Env) :
  (exists r, fst (handleVideoSearch up params w) = inr r)
  /\ (exists r, fst (handleVideoList up params w) = inr r).
Proof.
  split.
  - unfold handleVideoSearch.
    destruct (negb (truthy (Params.keyword params))); [eexists; reflexivity|].
    destruct (negb (nonempty (Client.sanitizeQuery _)));
      [eexists; reflexivity|].
    apply searchAndRender_returns.
  - apply searchAndRender_returns.
Qed.

(* ================================================================== *)
(** * Further properties of the transformer *)
(* ================================================================== *)

Lemma trimStart_first (s : jsstring) : notSpace (firstUnit (trimStart s)).
Proof.
  induction s as [|c s IH]; simpl; [exact I|].
  destruct (isWhiteSpace c) eqn:W; [exact IH|exact W].
Qed.

Lemma trimEnd_last (s : jsstring) : notSpace (lastUnit (trimEnd s)).
Proof.
  unfold lastUnit, trimEnd. rewrite rev_involutive. apply trimStart_first.
Qed.

Lemma trimEnd_first (s : jsstring) :
  notSpace (firstUnit s) -> notSpace (firstUnit (trimEnd s)).
Proof.
  destruct (trimEnd_split s) as (b & E & B).
  destruct (trimEnd s) as [|c r]; [intros _; exact I|].
  rewrite E. auto.
Qed.

Lemma trim_ends (s : jsstring) :
  notSpace (firstUnit (trim s)) /\ notSpace (lastUnit (trim s)).
Proof.
  unfold trim. split; [apply trimEnd_first, trimStart_first|apply trimEnd_last].
Qed.

Lemma singleSpaced_app_r (a b : jsstring) :
  singleSpaced (a ++ b) = true -> singleSpaced b = true.
Proof.
  induction a as [|c a IH]; [auto|]. simpl app.
  intros H. apply IH. destruct (a ++ b); [reflexivity|].
  simpl in H. now apply andb_true_iff in H.
Qed.

Lemma singleSpaced_app_l (a b : jsstring) :
  singleSpaced (a ++ b) = true -> singleSpaced a = true.
Proof.
  induction a as [|c a IH]; [reflexivity|]. simpl app.
  destruct a as [|d a]; [reflexivity|]. simpl app in *.
  intros H. simpl in H. apply andb_true_iff in H as [H1 H2].
  simpl. rewrite H1. now apply IH.
Qed.

Lemma trim_Forall (P : Z -> Prop) (s : jsstring) :
  Forall P s -> Forall P (trim s).
Proof.
  destruct (trim_split s) as (a & b & E & _). rewrite E at 1.
  intros H. apply Forall_app in H as [_ H]. now apply Forall_app in H as [H _].
Qed.

Lemma trim_singleSpaced (s : jsstring) :
  singleSpaced s = true -> singleSpaced (trim s) = true.
Proof.
  destruct (trim_split s) as (a & b & E & _). rewrite E at 1.
  intros H. apply singleSpaced_app_r in H. now apply singleSpaced_app_l in H.
Qed.

Lemma firstn_first (n : nat) (s : jsstring) :
  notSpace (firstUnit s) -> notSpace (firstUnit (firstn n s)).
Proof. destruct n, s; simpl; auto. Qed.

(** X9.  A cleaned title has at most 100 code units, none of the five
    HTML characters, no white space other than single ASCII spaces, and
    does not start with a space; it does not end with one either unless
    the cut to 100 code units left one there. *)
Theorem cleanTitle_shape (title : jsstring) :
  (length (MacCMSTransformer.cleanTitle title) <= 100)%nat
  /\ Forall (fun c => isHtmlSpecial c = false) (MacCMSTransformer.cleanTitle title)
  /\ Forall (fun c => isWhiteSpace c = true -> c = 32)
            (MacCMSTransformer.cleanTitle title)
  /\ singleSpaced (MacCMSTransformer.cleanTitle title) = true
  /\ notSpace (firstUnit (MacCMSTransformer.cleanTitle title))
  /\ ((length (MacCMSTransformer.cleanTitle title) < 100)%nat ->
      notSpace (lastUnit (MacCMSTransformer.cleanTitle title))).
Proof.
  unfold MacCMSTransformer.cleanTitle, substring0, collapseWhiteSpace.
  refine (conj _ (conj _ (conj _ (conj _ (conj _ _))))).
  - apply firstn_le_length.
  - apply Forall_take, trim_Forall, collapseFrom_Forall;
      [reflexivity|apply stripHtmlSpecial_Forall].
  - apply Forall_take, trim_Forall, collapseFrom_spaces.
  - apply singleSpaced_firstn, trim_singleSpaced, collapseFrom_spec.
  - apply firstn_first, trim_ends.
  - intros L. rewrite length_firstn in L. rewrite firstn_all2 by lia.
    apply trim_ends.
Qed.

Lemma cleanTitle_shape_witness :
  notSpace (lastUnit (MacCMSTransformer.cleanTitle (js " <b>Tom  &  Jerry</b> "))).
Proof.
  apply (cleanTitle_shape (js " <b>Tom  &  Jerry</b> ")).
  vm_compute. lia.
Defined.

(* ================================================================== *)
(** * Further properties of the parameter processor *)
(* ================================================================== *)

(** X10.  What [parseFilters] lets through.  An area filter is the
    trimmed raw value, never empty.  A year filter is the raw value
    itself, untrimmed, and the number [parseInt] reads from it lies
    between 1900 and the current year.  The order filter is always
    present, and only [order] decides it when [order] is not empty,
    whatever [by] holds.  A time range has at least one bound. *)
Theorem parseFilters_invariants (clock : Params.Clock)
  (params : Params.MacCMSParams) :
  let filters := Params.parseFilters clock params in
  (forall a, Params.f_area filters = Some a ->
     a <> []
     /\ notSpace (firstUnit a) /\ notSpace (lastUnit a)
     /\ exists raw, Params.area params = Some raw /\ a = trim raw)
  /\ (forall y, Params.f_year filters = Some y ->
        Params.year params = Some y
        /\ exists n, parseInt y 10 = Some n
                     /\ 1900 <= n <= Params.fullYear clock)
  /\ Params.f_order filters <> None
  /\ (truthy (Params.order params) = true ->
      Params.f_order filters
      = Some (Params.parseOrder (Params.order params) None))
  /\ (forall r, Params.f_timeRange filters = Some r ->
        Params.range_start r <> None \/ Params.range_end r <> None).
Proof.
  cbv zeta. unfold Params.parseFilters. cbn [Params.f_area Params.f_year
    Params.f_order Params.f_timeRange].
  refine (conj _ (conj _ (conj _ (conj _ _)))).
  - intros a. destruct (Params.area params) as [raw|]; [|discriminate].
    destruct (nonempty raw && nonempty (trim raw)) eqn:G; [|discriminate].
    intros E. assert (a = trim raw) as -> by congruence.
    apply andb_true_iff in G as [_ G].
    split; [intros Z; now rewrite Z in G|].
    split; [apply trim_ends|]. split; [apply trim_ends|]. now exists raw.
  - intros y. destruct (Params.year params) as [raw|]; [|discriminate].
    destruct (nonempty raw && nonempty (trim raw)); [|discriminate].
    destruct (parseInt raw 10) as [n|] eqn:P; [|discriminate].
    destruct ((n >=? 1900) && (n <=? Params.fullYear clock)) eqn:R;
      [|discriminate].
    intros E. assert (raw = y) as -> by congruence.
    split; [reflexivity|]. exists n. split; [exact P|].
    apply andb_true_iff in R as [R1 R2]. rewrite Z.geb_leb in R1.
    apply Z.leb_le in R1, R2. lia.
  - discriminate.
  - intros T. unfold Params.parseOrder. now rewrite T.
  - intros r. unfold Params.parseTimeRange.
    destruct (Params.h params) as [[|c hs]|].
    2: destruct (parseInt (c :: hs) 10) as [hoursNum|].
    2: destruct ((hoursNum >? 0) && (hoursNum <=? 8760)).
    2: { intros E. assert (r = {| Params.range_start :=
                                    Some (Params.nowMs clock
                                          - hoursNum * 60 * 60 * 1000);
                                  Params.range_end := Some (Params.nowMs clock) |})
           as -> by congruence.
         left. discriminate. }
    all: destruct (Params.start params) as [[|c1 r1]|];
      destruct (Params.end_ params) as [[|c2 r2]|].
    all: repeat match goal with
                | |- context [Params.parseDate ?c ?s] =>
                  destruct (Params.parseDate c s)
                end.
    all: try discriminate.
    all: intros E; injection E as <-; cbn [Params.range_start Params.range_end];
      try (left; discriminate); right; discriminate.
Qed.

Lemma parseFilters_invariants_witness :
  Params.f_area (Params.parseFilters exampleClock
                   (rawParams [("area", " US "); ("year", "2024 AD");
                               ("order", "zzz"); ("by", "hits")]))
  = Some (js "US")
  /\ Params.year (rawParams [("area", " US "); ("year", "2024 AD");
                             ("order", "zzz"); ("by", "hits")])
     = Some (js "2024 AD")
  /\ Params.f_order (Params.parseFilters exampleClock
                       (rawParams [("area", " US "); ("year", "2024 AD");
                                   ("order", "zzz"); ("by", "hits")]))
     = Some Params.latest.
Proof.
  pose proof (parseFilters_invariants exampleClock
                (rawParams [("area", " US "); ("year", "2024 AD");
                            ("order", "zzz"); ("by", "hits")]))
    as (A & Y & _ & O & _).
  refine (conj _ (conj _ _)).
  - destruct (A (js "US") ltac:(vm_compute; reflexivity))
      as (_ & _ & _ & raw & R & E).
    vm_compute. reflexivity.
  - exact (proj1 (Y (js "2024 AD") ltac:(vm_compute; reflexivity))).
  - rewrite O; vm_compute; reflexivity.
Defined.

(** X11.  A usable [h] parameter (an integer from 1 to 8760 hours)
    overrides [start] and [end]: the range then ends at the current time
    and starts that many hours before it, so it is never empty and never
    longer than a year.  Any other [h] is ignored, as if absent. *)
Theorem parseTimeRange_hours (clock : Params.Clock)
  (start end_ hours : option jsstring) :
  (forall s n, hours = Some s -> parseInt s 10 = Some n -> 0 < n <= 8760 ->
     Params.parseTimeRange clock start end_ hours
     = Some {| Params.range_start := Some (Params.nowMs clock - n * 3600000);
               Params.range_end := Some (Params.nowMs clock) |}
     /\ Params.nowMs clock - 31536000000 <= Params.nowMs clock - n * 3600000
        < Params.nowMs clock)
  /\ ((forall s n, hours = Some s -> parseInt s 10 = Some n ->
                   ~ 0 < n <= 8760) ->
      Params.parseTimeRange clock start end_ hours
      = Params.parseTimeRange clock start end_ None).
Proof.
  unfold Params.parseTimeRange. split.
  - intros s n -> P R. destruct s as [|c hs].
    + rewrite parseInt_empty in P. discriminate.
    + rewrite P.
      replace ((n >? 0) && (n <=? 8760)) with true.
      * split; [|lia]. do 3 f_equal. lia.
      * symmetry. apply andb_true_iff. rewrite Z.gtb_ltb.
        split; [apply Z.ltb_lt|apply Z.leb_le]; lia.
  - intros H. destruct hours as [[|c hs]|]; try reflexivity.
    destruct (parseInt (c :: hs) 10) as [hoursNum|] eqn:P; [|reflexivity].
    destruct ((hoursNum >? 0) && (hoursNum <=? 8760)) eqn:R; [|reflexivity].
    exfalso. apply (H (c :: hs) hoursNum eq_refl P).
    apply andb_true_iff in R as [R1 R2]. rewrite Z.gtb_ltb in R1.
    apply Z.ltb_lt in R1. apply Z.leb_le in R2. lia.
Qed.

Lemma parseTimeRange_hours_witness :
  Params.parseTimeRange exampleClock (Some (js "2024-01-01")) None
    (Some (js "24"))
  = Some {| Params.range_start := Some 1749913600000;
            Params.range_end := Some 1750000000000 |}
  /\ Params.parseTimeRange exampleClock None (Some (js "1700000000"))
       (Some (js "9000"))
     = Some {| Params.range_start := None;
               Params.range_end := Some 1700000000000 |}.
Proof.
  split.
  - apply (proj1 (parseTimeRange_hours exampleClock (Some (js "2024-01-01"))
                    None (Some (js "24"))) (js "24") 24);
      [reflexivity|vm_compute; reflexivity|lia].
  - rewrite (proj2 (parseTimeRange_hours exampleClock None
                      (Some (js "1700000000")) (Some (js "9000")))).
    + vm_compute. reflexivity.
    + intros s n E P. injection E as <-.
      assert (n = 9000) as -> by (vm_compute in P; congruence). lia.
Defined.

(** X12.  The precedence among the actions: a detail signal (the action
    name [detail] or a non-empty [ids]) wins over everything; then a
    non-blank keyword makes the request a search, whatever [ac] says;
    then [ac=list], or [ac=videolist] with [t=0], gives the categories;
    everything else, unknown action names included, is the video list. *)
Theorem determineAction_precedence (params : Params.MacCMSParams) :
  Params.determineAction params
  = if detailSignal params then Params.act_detail
    else if Params.hasKeyword params then Params.act_search
    else if categorySignal params then Params.act_category
    else Params.act_list.
Proof.
  unfold Params.determineAction, detailSignal, categorySignal. cbv zeta.
  destruct (strict_eq (option_map toLowerCase (Params.ac params)) (js "detail"))
    eqn:D; [reflexivity|].
  destruct (truthy (Params.ids params)); [reflexivity|]. cbn [orb].
  destruct (strict_eq (option_map toLowerCase (Params.ac params)) (js "list"))
    eqn:L.
  - cbn [orb]. destruct (Params.hasKeyword params); [reflexivity|].
    now rewrite orb_true_r.
  - cbn [orb].
    destruct (strict_eq (option_map toLowerCase (Params.ac params))
                (js "videolist")) eqn:V;
      destruct (Params.hasKeyword params); try reflexivity.
    cbn [andb]. rewrite orb_false_r.
    now destruct (strict_eq (Params.t params) (js "0")).
Qed.

(* ================================================================== *)
(** * The record ids of a detail response *)
(* ================================================================== *)

(** Decides the comparisons of a goal between code units. *)
Ltac decide_leb :=
  repeat match goal with
         | |- context [?a <=? ?b] =>
           let E := fresh in destruct (Z.leb_spec a b) as [E|E]; try lia
         end.

Lemma digitValue_ranges (c : Z) :
  (48 <= c <= 57 -> digitValue c = Some (c - 48))
  /\ (97 <= c <= 122 -> digitValue c = Some (c - 87))
  /\ (65 <= c <= 90 -> digitValue c = Some (c - 55)).
Proof.
  unfold digitValue.
  refine (conj _ (conj _ _)); intros H; decide_leb; reflexivity.
Qed.

Lemma lowerUnit_ranges (c : Z) :
  (65 <= c <= 90 -> lowerUnit c = c + 32)
  /\ (~ 65 <= c <= 90 -> lowerUnit c = c).
Proof.
  unfold lowerUnit. split; intros H; decide_leb; reflexivity.
Qed.

Lemma digitValue_alnum (c : Z) :
  Params.isAlnum c = true ->
  exists d, digitValue c = Some d /\ 0 <= d < 36
            /\ digitValue (lowerUnit c) = Some d.
Proof.
  unfold Params.isAlnum. intros H.
  rewrite !orb_true_iff, !andb_true_iff, !Z.leb_le in H.
  destruct (digitValue_ranges c) as (D & L & U).
  destruct (lowerUnit_ranges c) as (LU & LO).
  destruct H as [[H|H]|H].
  - exists (c - 87). rewrite LO by lia. rewrite (L H).
    repeat split; lia.
  - exists (c - 55). rewrite (LU H), (U H).
    destruct (digitValue_ranges (c + 32)) as (_ & L' & _).
    rewrite L' by lia. repeat split; try lia. f_equal. lia.
  - exists (c - 48). rewrite LO by lia. rewrite (D H).
    repeat split; lia.
Qed.

Lemma parseDigits_alnum (s : jsstring) :
  forallb Params.isAlnum s = true ->
  forall acc,
    parseDigits 36 s acc
    = match s with
      | [] => acc
      | _ => Some (base36 s match acc with Some a => a | None => 0 end)
      end.
Proof.
  induction s as [|c s IH]; [reflexivity|]. intros H acc.
  apply andb_true_iff in H as [Hc Hs].
  destruct (digitValue_alnum c Hc) as (d & D & R & _).
  cbn [parseDigits]. rewrite D.
  replace (d <? 36) with true by (symmetry; apply Z.ltb_lt; lia).
  rewrite (IH Hs). unfold base36. cbn [fold_left]. rewrite D.
  now destruct s.
Qed.

Lemma parseInt_valid (id : jsstring) :
  Params.validId id = true -> parseInt id 36 = Some (base36 id 0).
Proof.
  intros V. apply validId_spec in V as [N A]. unfold parseInt.
  destruct id as [|c r]; [congruence|].
  pose proof A as A'. cbn [forallb] in A'. apply andb_true_iff in A' as [Hc _].
  rewrite trimStart_head by now apply isAlnum_not_space.
  assert (c <> 45 /\ c <> 43) as [M P].
  { unfold Params.isAlnum in Hc.
    rewrite !orb_true_iff, !andb_true_iff, !Z.leb_le in Hc. lia. }
  assert (parseDigits 36 (c :: r) None = Some (base36 (c :: r) 0)) as E
    by (now rewrite parseDigits_alnum).
  destruct c as [|p|p]; try exact E.
  repeat (destruct p as [p|p|]; try exact E; try congruence).
Qed.

Lemma base36_nonneg (s : jsstring) :
  forallb Params.isAlnum s = true -> forall acc, 0 <= acc -> 0 <= base36 s acc.
Proof.
  unfold base36. induction s as [|c s IH]; [auto|]. intros H acc Hacc.
  apply andb_true_iff in H as [Hc Hs].
  destruct (digitValue_alnum c Hc) as (d & D & R & _).
  cbn [fold_left]. rewrite D. apply (IH Hs). lia.
Qed.

Lemma base36_lower (s : jsstring) :
  forallb Params.isAlnum s = true ->
  forall acc, base36 (toLowerCase s) acc = base36 s acc.
Proof.
  unfold base36, toLowerCase. induction s as [|c s IH]; [reflexivity|].
  intros H acc. apply andb_true_iff in H as [Hc Hs].
  destruct (digitValue_alnum c Hc) as (d & D & _ & L).
  cbn [map fold_left]. rewrite D, L. apply (IH Hs).
Qed.

Lemma lowerUnit_alnum (c : Z) :
  Params.isAlnum c = true -> Params.isAlnum (lowerUnit c) = true.
Proof.
  unfold Params.isAlnum, lowerUnit. intros H.
  rewrite !orb_true_iff, !andb_true_iff, !Z.leb_le in H.
  destruct (Z.leb_spec 65 c), (Z.leb_spec c 90); cbn [andb];
    rewrite !orb_true_iff, !andb_true_iff, !Z.leb_le; lia.
Qed.

(** X13.  The record id that the detail handler derives from a video id,
    [parseInt(id, 36) || 1], is a positive integer for every id the
    processor lets through; it does not tell apart ids that differ in the
    case of their letters or in leading zeros, and the ids made of zeros
    share the record id 1 with the id [1]. *)
Theorem detail_record_id (id : jsstring) :
  Params.validId id = true ->
  1 <= orNumber (parseInt id 36) 1
  /\ (Params.validId (toLowerCase id) = true
      /\ orNumber (parseInt (toLowerCase id) 36) 1 = orNumber (parseInt id 36) 1)
  /\ (Params.validId (48 :: id) = true
      /\ orNumber (parseInt (48 :: id) 36) 1 = orNumber (parseInt id 36) 1)
  /\ (forallb (Z.eqb 48) id = true ->
      orNumber (parseInt id 36) 1 = orNumber (parseInt (js "1") 36) 1).
Proof.
  intros V. pose proof (proj1 (validId_spec id) V) as [N A].
  assert (Params.validId (toLowerCase id) = true) as VL.
  { apply validId_spec. split.
    - destruct id; [congruence|discriminate].
    - unfold toLowerCase. rewrite forallb_forall in *. intros c Hc.
      apply in_map_iff in Hc as (c0 & <- & Hc). now apply lowerUnit_alnum, A. }
  assert (Params.validId (48 :: id) = true) as VZ.
  { apply validId_spec. split; [discriminate|]. cbn [forallb]. now rewrite A. }
  rewrite (parseInt_valid id V), (parseInt_valid _ VL), (parseInt_valid _ VZ).
  pose proof (base36_nonneg id A 0 ltac:(lia)) as P.
  refine (conj _ (conj (conj VL _) (conj (conj VZ _) _))).
  - unfold orNumber. destruct (Z.eqb_spec (base36 id 0) 0); lia.
  - now rewrite base36_lower.
  - reflexivity.
  - intros Z. replace (base36 id 0) with 0; [reflexivity|].
    clear -Z. unfold base36. induction id as [|c r IH]; [reflexivity|].
    cbn [forallb] in Z. apply andb_true_iff in Z as [Zc Zr].
    apply Z.eqb_eq in Zc. subst c. cbn [fold_left]. exact (IH Zr).
Qed.

Lemma detail_record_id_witness :
  orNumber (parseInt (js "0aZ") 36) 1 = orNumber (parseInt (js "aZ") 36) 1
  /\ orNumber (parseInt (js "az") 36) 1 = orNumber (parseInt (js "aZ") 36) 1
  /\ orNumber (parseInt (js "000") 36) 1 = orNumber (parseInt (js "1") 36) 1.
Proof.
  refine (conj _ (conj _ _)).
  - exact (proj2 (proj1 (proj2 (proj2 (detail_record_id (js "aZ") eq_refl))))).
  - exact (proj2 (proj1 (proj2 (detail_record_id (js "aZ") eq_refl)))).
  - exact (proj2 (proj2 (proj2 (detail_record_id (js "000") eq_refl))) eq_refl).
Defined.

(* ================================================================== *)
(** * The cache key of the parameter processor *)
(* ================================================================== *)

Lemma cacheKeyParts_layout (p : Params.ProcessedParams) :
  Params.cacheKeyParts p
  = keyHead p
    ++ keyLimit p
       :: keywordPart (Params.keyword p)
          ++ keyMiddle p
          ++ areaPart (Params.f_area (Params.filters p))
          ++ keyTail p.
Proof.
  unfold Params.cacheKeyParts, Params.pushIf, keyHead, keyLimit, keywordPart,
    keyMiddle, areaPart, keyTail. cbv zeta.
  destruct (truthy (Params.keyword p));
    destruct (Params.categoryId p) as [c|]; try destruct (c =? 0);
    destruct (Params.videoIds p);
    destruct (truthy (Params.f_area (Params.filters p)));
    destruct (truthy (Params.f_year (Params.filters p)));
    destruct (Params.f_order (Params.filters p)); reflexivity.
Qed.

(** X14.  Among intents that differ in the keyword only,
    [generateCacheKey] gives the same key exactly when the keywords are
    equal or both are absent or empty. *)
Theorem generateCacheKey_keyword (p : Params.ProcessedParams)
  (k1 k2 : option jsstring) :
  Params.generateCacheKey (withKeyword p k1)
  = Params.generateCacheKey (withKeyword p k2)
  <-> k1 = k2 \/ (truthy k1 = false /\ truthy k2 = false).
Proof.
  unfold Params.generateCacheKey. rewrite !cacheKeyParts_layout.
  cbn [withKeyword Params.keyword Params.filters].
  change (keyHead (withKeyword p k1)) with (keyHead p).
  change (keyHead (withKeyword p k2)) with (keyHead p).
  change (keyLimit (withKeyword p k1)) with (keyLimit p).
  change (keyLimit (withKeyword p k2)) with (keyLimit p).
  change (keyMiddle (withKeyword p k1)) with (keyMiddle p).
  change (keyMiddle (withKeyword p k2)) with (keyMiddle p).
  change (keyTail (withKeyword p k1)) with (keyTail p).
  change (keyTail (withKeyword p k2)) with (keyTail p).
  generalize (keyMiddle p ++ areaPart (Params.f_area (Params.filters p))
              ++ keyTail p) as rest.
  generalize (keyHead p) as head. generalize (keyLimit p) as lim.
  intros lim head rest. rewrite !join_middle.
  split.
  - intros E. apply app_inv_head in E. apply app_inv_head in E.
    unfold keywordPart in E.
    destruct (truthy k1) eqn:T1, (truthy k2) eqn:T2.
    + left. cbn [app flat_map] in E. rewrite <- !app_assoc in E.
      apply app_inv_head in E. apply app_inv_head in E.
      apply app_inv_tail in E.
      destruct k1, k2; try discriminate. now subst.
    + exfalso. apply (f_equal (@length Z)) in E.
      cbn [app flat_map] in E. rewrite !length_app in E.
      change (length (js "|")) with 1%nat in E. lia.
    + exfalso. apply (f_equal (@length Z)) in E.
      cbn [app flat_map] in E. rewrite !length_app in E.
      change (length (js "|")) with 1%nat in E. lia.
    + now right.
  - intros [-> | [T1 T2]]; [reflexivity|].
    unfold keywordPart. now rewrite T1, T2.
Qed.

(** X15.  The key is not injective: the separator of the key parts may
    occur inside the keyword, so that a keyword that ends like an area
    part collides with the shorter keyword filtered by that area. *)
Theorem generateCacheKey_separator_collision (p : Params.ProcessedParams)
  (k a : jsstring) :
  k <> [] -> a <> [] ->
  Params.videoIds p = None ->
  Params.categoryId p = None \/ Params.categoryId p = Some 0 ->
  Params.generateCacheKey (withKeywordArea p (Some k) (Some a))
  = Params.generateCacheKey
      (withKeywordArea p (Some (k ++ js "|area:" ++ a)) None).
Proof.
  intros K A I C. unfold Params.generateCacheKey.
  rewrite !cacheKeyParts_layout.
  cbn [withKeywordArea Params.keyword Params.filters Params.f_area].
  change (keyHead (withKeywordArea p _ _)) with (keyHead p).
  change (keyLimit (withKeywordArea p _ _)) with (keyLimit p).
  change (keyTail (withKeywordArea p (Some k) (Some a))) with (keyTail p).
  change (keyTail (withKeywordArea p (Some (k ++ js "|area:" ++ a)) None))
    with (keyTail p).
  assert (forall x y, keyMiddle (withKeywordArea p x y) = []) as M.
  { intros x y. unfold keyMiddle.
    cbn [withKeywordArea Params.categoryId Params.videoIds]. rewrite I.
    now destruct C as [-> | ->]. }
  rewrite !M.
  unfold keywordPart, areaPart.
  replace (truthy (Some k)) with true by (now destruct k).
  replace (truthy (Some a)) with true by (now destruct a).
  replace (truthy (Some (k ++ js "|area:" ++ a))) with true
    by (now destruct k).
  cbn [truthy]. rewrite !app_nil_l.
  generalize (keyTail p) as tail. generalize (keyHead p) as head.
  generalize (keyLimit p) as lim. intros lim head tail.
  rewrite !join_middle. do 2 f_equal.
  cbn [app flat_map]. rewrite <- !app_assoc.
  assert (js "|area:" = js "|" ++ js "area:") as -> by (vm_compute; reflexivity).
  rewrite <- !app_assoc. reflexivity.
Qed.

Lemma generateCacheKey_separator_collision_witness :
  Params.generateCacheKey
    (Params.processParams exampleClock (query [("wd", "cat"); ("area", "US")]))
  = Params.generateCacheKey
      (Params.processParams exampleClock (query [("wd", "cat|area:US")]))
  /\ Params.processParams exampleClock (query [("wd", "cat"); ("area", "US")])
     <> Params.processParams exampleClock (query [("wd", "cat|area:US")]).
Proof.
  split.
  - exact (generateCacheKey_separator_collision
             (Params.processParams exampleClock (query [("wd", "cat")]))
             (js "cat") (js "US") ltac:(discriminate) ltac:(discriminate)
             eq_refl (or_introl eq_refl)).
  - intros E. apply (f_equal Params.keyword) in E. vm_compute in E.
    discriminate E.
Defined.

(* ================================================================== *)
(** * The performance monitor *)
(* ================================================================== *)

Lemma pushSample_spec (times : list Z) (duration : Z) :
  (length times <= 100)%nat ->
  (length (MacCMSPerformanceMonitor.pushSample times duration) <= 100)%nat
  /\ lastUnit (MacCMSPerformanceMonitor.pushSample times duration)
     = Some duration
  /\ ((length times < 100)%nat ->
      MacCMSPerformanceMonitor.pushSample times duration = times ++ [duration])
  /\ (length times = 100%nat ->
      MacCMSPerformanceMonitor.pushSample times duration
      = tl times ++ [duration]).
Proof.
  intros L. unfold MacCMSPerformanceMonitor.pushSample. cbv zeta.
  rewrite length_app. cbn [length].
  destruct (Nat.ltb_spec 100 (length times + 1)) as [G|G].
  - assert (length times = 100%nat) as E by lia.
    destruct times as [|t times]; [discriminate|]. cbn [app tl length] in *.
    refine (conj _ (conj _ (conj _ _))).
    + rewrite length_app. cbn [length]. lia.
    + unfold lastUnit. now rewrite rev_app_distr.
    + lia.
    + reflexivity.
  - refine (conj _ (conj _ (conj _ _))).
    + rewrite length_app. cbn [length]. lia.
    + unfold lastUnit. now rewrite rev_app_distr.
    + reflexivity.
    + lia.
Qed.

Lemma getSamples_setSample (m : list (jsstring * list Z))
  (operation : jsstring) (duration : Z) :
  MacCMSPerformanceMonitor.getSamples
    (MacCMSPerformanceMonitor.setSample m operation duration) operation
  = Some (MacCMSPerformanceMonitor.pushSample (samplesOf m operation) duration).
Proof.
  unfold samplesOf. induction m as [|[k times] m IH];
    cbn [MacCMSPerformanceMonitor.setSample MacCMSPerformanceMonitor.getSamples].
  - now rewrite jsstring_eqb_refl.
  - destruct (jsstring_eqb k operation) eqn:E;
      cbn [MacCMSPerformanceMonitor.getSamples]; rewrite E; [reflexivity|].
    exact IH.
Qed.

Lemma getSamples_setSample_other (m : list (jsstring * list Z))
  (operation other : jsstring) (duration : Z) :
  other <> operation ->
  MacCMSPerformanceMonitor.getSamples
    (MacCMSPerformanceMonitor.setSample m operation duration) other
  = MacCMSPerformanceMonitor.getSamples m other.
Proof.
  intros N. induction m as [|[k times] m IH];
    cbn [MacCMSPerformanceMonitor.setSample MacCMSPerformanceMonitor.getSamples].
  - destruct (jsstring_eqb operation other) eqn:E; [|reflexivity].
    apply jsstring_eqb_eq in E. congruence.
  - destruct (jsstring_eqb k operation) eqn:E;
      cbn [MacCMSPerformanceMonitor.getSamples].
    + destruct (jsstring_eqb k other) eqn:E'; [|reflexivity].
      apply jsstring_eqb_eq in E, E'. congruence.
    + destruct (jsstring_eqb k other); [reflexivity|exact IH].
Qed.

Lemma setSample_windowed (m : list (jsstring * list Z))
  (operation : jsstring) (duration : Z) :
  windowed m ->
  windowed (MacCMSPerformanceMonitor.setSample m operation duration).
Proof.
  unfold windowed. induction 1 as [|[k times] m Hk Hm IH];
    cbn [MacCMSPerformanceMonitor.setSample].
  - constructor; [|constructor]. cbn [snd].
    apply (pushSample_spec [] duration). simpl. lia.
  - destruct (jsstring_eqb k operation).
    + constructor; [|assumption]. cbn [snd] in *.
      now apply pushSample_spec.
    + constructor; assumption.
Qed.

(** X16.  [recordExecutionTime] appends the measured duration to the
    samples of its operation and to no other operation's; it keeps the
    window: an operation that held fewer than 100 samples gains one, one
    that held 100 loses its oldest sample, and no operation ever holds
    more than 100.  It leaves the outside world alone and writes the
    slow-query warning exactly when the duration exceeds 5000 ms. *)
Theorem recordExecutionTime_window {Env} (tm : Timer Env)
  (operation : jsstring) (startTime : Z) (w : World Env) :
  let duration := dateNow tm w - startTime in
  let w' := MacCMSPerformanceMonitor.recordExecutionTime tm operation startTime w in
  samplesOf (metrics w') operation
  = MacCMSPerformanceMonitor.pushSample (samplesOf (metrics w) operation) duration
  /\ (forall other, other <> operation ->
        MacCMSPerformanceMonitor.getSamples (metrics w') other
        = MacCMSPerformanceMonitor.getSamples (metrics w) other)
  /\ (windowed (metrics w) ->
      windowed (metrics w')
      /\ lastUnit (samplesOf (metrics w') operation) = Some duration
      /\ ((length (samplesOf (metrics w) operation) < 100)%nat ->
          samplesOf (metrics w') operation
          = samplesOf (metrics w) operation ++ [duration])
      /\ (length (samplesOf (metrics w) operation) = 100%nat ->
          samplesOf (metrics w') operation
          = tl (samplesOf (metrics w) operation) ++ [duration]))
  /\ env w' = env w
  /\ console w'
     = console w
       ++ (if duration >? 5000 then [LogSlowQuery operation duration] else []).
Proof.
  cbv zeta.
  assert (metrics (MacCMSPerformanceMonitor.recordExecutionTime tm operation
                     startTime w)
          = MacCMSPerformanceMonitor.setSample (metrics w) operation
              (dateNow tm w - startTime)) as M.
  { unfold MacCMSPerformanceMonitor.recordExecutionTime.
    now destruct (_ >? 5000). }
  rewrite M.
  assert (samplesOf (MacCMSPerformanceMonitor.setSample (metrics w) operation
                       (dateNow tm w - startTime)) operation
          = MacCMSPerformanceMonitor.pushSample (samplesOf (metrics w) operation)
              (dateNow tm w - startTime)) as S.
  { unfold samplesOf at 1. now rewrite getSamples_setSample. }
  rewrite S.
  refine (conj eq_refl (conj _ (conj _ (conj _ _)))).
  - intros other N. now apply getSamples_setSample_other.
  - intros W.
    assert (length (samplesOf (metrics w) operation) <= 100)%nat as L.
    { clear -W. unfold samplesOf, windowed in *.
      induction W as [|[k times] m Hk _ IH];
        cbn [MacCMSPerformanceMonitor.getSamples]; [simpl; lia|].
      destruct (jsstring_eqb k operation); [exact Hk|exact IH]. }
    split; [now apply setSample_windowed|].
    apply (pushSample_spec _ (dateNow tm w - startTime) L).
  - apply recordExecutionTime_env.
  - unfold MacCMSPerformanceMonitor.recordExecutionTime.
    destruct (_ >? 5000); cbn [console log]; [reflexivity|].
    now rewrite app_nil_r.
Qed.

Lemma recordExecutionTime_window_witness :
  samplesOf (metrics (MacCMSPerformanceMonitor.recordExecutionTime noTimer
                        (js "video_list") 1749999999000 fullWindow))
            (js "video_list")
  = map Z.of_nat (seq 2 99) ++ [1000].
Proof.
  refine (proj2 (proj2 (proj2 (proj1 (proj2 (proj2
            (recordExecutionTime_window noTimer (js "video_list")
               1749999999000 fullWindow))) _))) _).
  - constructor; [vm_compute; lia|constructor].
  - reflexivity.
Defined.

Lemma fold_min_spec (rest : list Z) :
  forall time,
    In (fold_left Z.min rest time) (time :: rest)
    /\ Forall (fun t => fold_left Z.min rest time <= t) (time :: rest).
Proof.
  induction rest as [|x rest IH]; intros time; cbn [fold_left].
  - split; [now left|]. constructor; [lia|constructor].
  - destruct (IH (Z.min time x)) as [I F].
    apply Forall_cons_iff in F as [F0 F]. split.
    + destruct I as [I|I]; [|right; now right].
      destruct (Z.min_spec time x) as [[_ E]|[_ E]]; rewrite E in *;
        [now left|right; now left].
    + constructor; [lia|]. constructor; [lia|exact F].
Qed.

Lemma fold_max_spec (rest : list Z) :
  forall time,
    In (fold_left Z.max rest time) (time :: rest)
    /\ Forall (fun t => t <= fold_left Z.max rest time) (time :: rest).
Proof.
  induction rest as [|x rest IH]; intros time; cbn [fold_left].
  - split; [now left|]. constructor; [lia|constructor].
  - destruct (IH (Z.max time x)) as [I F].
    apply Forall_cons_iff in F as [F0 F]. split.
    + destruct I as [I|I]; [|right; now right].
      destruct (Z.max_spec time x) as [[_ E]|[_ E]]; rewrite E in *;
        [right; now left|now left].
    + constructor; [lia|]. constructor; [lia|exact F].
Qed.

Lemma fold_sum_bounds (lo hi : Z) (times : list Z) :
  Forall (fun t => lo <= t <= hi) times ->
  forall sum,
    sum + Z.of_nat (length times) * lo
    <= fold_left (fun sum time => sum + time) times sum
    <= sum + Z.of_nat (length times) * hi.
Proof.
  induction 1 as [|t times Ht _ IH]; intros sum; cbn [fold_left length].
  - lia.
  - specialize (IH (sum + t)). nia.
Qed.

(** X17.  [getStats] answers [null] exactly when the operation has no
    sample.  Otherwise [count] is the number of samples, [min] and [max]
    are samples that bound every sample, and the average lies between
    them. *)
Theorem getStats_bounds (m : list (jsstring * list Z)) (operation : jsstring) :
  match MacCMSPerformanceMonitor.getStats m operation with
  | None => samplesOf m operation = []
  | Some stats =>
    MacCMSPerformanceMonitor.count stats
    = Z.of_nat (length (samplesOf m operation))
    /\ 1 <= MacCMSPerformanceMonitor.count stats
    /\ In (MacCMSPerformanceMonitor.min stats) (samplesOf m operation)
    /\ In (MacCMSPerformanceMonitor.max stats) (samplesOf m operation)
    /\ Forall (fun t => MacCMSPerformanceMonitor.min stats <= t
                        <= MacCMSPerformanceMonitor.max stats)
              (samplesOf m operation)
    /\ QArith_base.Qle
         (QArith_base.inject_Z (MacCMSPerformanceMonitor.min stats))
         (MacCMSPerformanceMonitor.avg stats)
    /\ QArith_base.Qle
         (MacCMSPerformanceMonitor.avg stats)
         (QArith_base.inject_Z (MacCMSPerformanceMonitor.max stats))
  end.
Proof.
  unfold MacCMSPerformanceMonitor.getStats, samplesOf.
  destruct (MacCMSPerformanceMonitor.getSamples m operation)
    as [[|time rest]|]; try reflexivity.
  cbv zeta. cbn [MacCMSPerformanceMonitor.count MacCMSPerformanceMonitor.min
                 MacCMSPerformanceMonitor.max MacCMSPerformanceMonitor.avg].
  destruct (fold_min_spec rest time) as [Imin Fmin].
  destruct (fold_max_spec rest time) as [Imax Fmax].
  assert (Forall (fun t => fold_left Z.min rest time <= t
                           <= fold_left Z.max rest time) (time :: rest)) as B.
  { rewrite Forall_forall in *. intros t Ht.
    split; [now apply Fmin|now apply Fmax]. }
  pose proof (fold_sum_bounds _ _ _ B 0) as S.
  assert (Z.pos (Pos.of_nat (length (time :: rest)))
          = Z.of_nat (length (time :: rest))) as P.
  { cbn [length]. lia. }
  refine (conj eq_refl (conj _ (conj Imin (conj Imax (conj B (conj _ _)))))).
  - cbn [length]. lia.
  - unfold QArith_base.Qle, QArith_base.inject_Z.
    cbn [QArith_base.Qnum QArith_base.Qden]. rewrite P. lia.
  - unfold QArith_base.Qle, QArith_base.inject_Z.
    cbn [QArith_base.Qnum QArith_base.Qden]. rewrite P. lia.
Qed.



Lemma recordAll_app (m : list (jsstring * list Z))
  (a b : list (jsstring * Z)) :
  recordAll m (a ++ b) = recordAll (recordAll m a) b.
Proof. apply fold_left_app. Qed.







(* ================================================================== *)
(** * Thumbnails and screenshots *)
(* ================================================================== *)

Lemma fold_larger (rest : list Client.Thumb) :
  forall before acc mid,
    Forall (fun x => area x < area acc) before ->
    Forall (fun x => area x <= area acc) mid ->
    exists b t a,
      before ++ acc :: mid ++ rest = b ++ t :: a
      /\ fold_left MacCMSTransformer.larger rest acc = t
      /\ Forall (fun x => area x < area t) b
      /\ Forall (fun x => area x <= area t) a.
Proof.
  induction rest as [|x rest IH]; intros before acc mid B M.
  - exists before, acc, mid. rewrite app_nil_r. auto.
  - cbn [fold_left]. unfold MacCMSTransformer.larger at 2.
    fold (area acc). fold (area x).
    destruct (Z.gtb_spec (area x) (area acc)) as [G|G].
    + destruct (IH (before ++ acc :: mid) x []) as (b & t & a & E & F & Hb & Ha).
      * apply Forall_app. split.
        -- eapply Forall_impl; [|exact B]. cbv beta. intros; lia.
        -- constructor; [lia|].
           eapply Forall_impl; [|exact M]. cbv beta. intros; lia.
      * constructor.
      * exists b, t, a. rewrite <- E, <- !app_assoc. auto.
    + destruct (IH before acc (mid ++ [x])) as (b & t & a & E & F & Hb & Ha).
      * exact B.
      * apply Forall_app. split; [exact M|]. constructor; [lia|constructor].
      * exists b, t, a. rewrite <- E, <- !app_assoc. auto.
Qed.

(** X19.  The picture of a video.  A default thumbnail with a non-empty
    address is used as it is, whatever its size.  Failing that, the
    address is that of the first thumbnail of the largest area: every
    thumbnail before it is strictly smaller, none after it is larger.
    Without thumbnails the address is empty. *)
Theorem getThumbnailUrl_largest (default_thumb : option Client.Thumb)
  (thumbs : option (list Client.Thumb)) :
  (nonempty (MacCMSTransformer.defaultSrc default_thumb) = true ->
   MacCMSTransformer.getThumbnailUrl default_thumb thumbs
   = MacCMSTransformer.defaultSrc default_thumb)
  /\ (nonempty (MacCMSTransformer.defaultSrc default_thumb) = false ->
      match thumbs with
      | None => MacCMSTransformer.getThumbnailUrl default_thumb thumbs = []
      | Some [] => MacCMSTransformer.getThumbnailUrl default_thumb thumbs = []
      | Some l =>
        exists before largest after,
          l = before ++ largest :: after
          /\ MacCMSTransformer.getThumbnailUrl default_thumb thumbs
             = Client.src largest
          /\ Forall (fun x => area x < area largest) before
          /\ Forall (fun x => area x <= area largest) after
      end).
Proof.
  unfold MacCMSTransformer.getThumbnailUrl. split; intros D; rewrite D;
    [reflexivity|].
  destruct thumbs as [[|first rest]|]; try reflexivity.
  destruct (fold_larger rest [] first []) as (b & t & a & E & F & Hb & Ha);
    [constructor|constructor|].
  exists b, t, a. rewrite F. auto.
Qed.

Lemma getThumbnailUrl_largest_witness :
  MacCMSTransformer.getThumbnailUrl (Some (thumbOf "small" 1 1))
    (Some [thumbOf "a" 640 360; thumbOf "b" 1280 720])
  = js "small"
  /\ exists before largest after,
      [thumbOf "a" 640 360; thumbOf "b" 1280 720; thumbOf "c" 720 1280]
      = before ++ largest :: after
      /\ MacCMSTransformer.getThumbnailUrl None
           (Some [thumbOf "a" 640 360; thumbOf "b" 1280 720;
                  thumbOf "c" 720 1280])
         = Client.src largest
      /\ Forall (fun x => area x < area largest) before
      /\ Forall (fun x => area x <= area largest) after.
Proof.
  split.
  - apply (proj1 (getThumbnailUrl_largest (Some (thumbOf "small" 1 1))
                    (Some [thumbOf "a" 640 360; thumbOf "b" 1280 720]))).
    reflexivity.
  - apply (proj2 (getThumbnailUrl_largest None
                    (Some [thumbOf "a" 640 360; thumbOf "b" 1280 720;
                           thumbOf "c" 720 1280]))).
    reflexivity.
Defined.

Lemma includes_In (screenshots : list jsstring) (url : jsstring) :
  MacCMSTransformer.includes screenshots url = true <-> In url screenshots.
Proof.
  unfold MacCMSTransformer.includes. rewrite existsb_exists. split.
  - intros (x & I & E). apply jsstring_eqb_eq in E. now subst.
  - intros I. exists url. split; [exact I|apply jsstring_eqb_refl].
Qed.

Lemma addThumbs_spec (thumbs : list Client.Thumb) :
  forall screenshots,
    NoDup screenshots -> Forall (fun s => s <> []) screenshots ->
    exists added,
      MacCMSTransformer.addThumbs screenshots thumbs = screenshots ++ added
      /\ NoDup (screenshots ++ added)
      /\ Forall (fun s => s <> [] /\ exists t, In t thumbs /\ Client.src t = s)
                added
      /\ (forall t, In t thumbs -> Client.src t <> [] ->
                    In (Client.src t) (screenshots ++ added)).
Proof.
  induction thumbs as [|thumb rest IH]; intros screenshots N E.
  - exists []. rewrite app_nil_r. cbn [MacCMSTransformer.addThumbs].
    repeat split; auto. intros t [].
  - cbn [MacCMSTransformer.addThumbs].
    destruct (nonempty (Client.src thumb)) eqn:S; cbn [andb].
    + destruct (MacCMSTransformer.includes screenshots (Client.src thumb)) eqn:I;
        cbn [negb].
      * destruct (IH screenshots N E) as (added & A & N' & F & C).
        exists added. split; [exact A|]. split; [exact N'|]. split.
        -- eapply Forall_impl; [|exact F]. cbv beta.
           intros s (Hs & t & Ht & Es). split; [exact Hs|].
           exists t. split; [now right|exact Es].
        -- intros t [<-|Ht] Hne; [|now apply C].
           apply in_or_app. left. now apply includes_In.
      * assert (~ In (Client.src thumb) screenshots) as NI.
        { intros H. apply includes_In in H. congruence. }
        assert (Client.src thumb <> []) as Hne
          by (intros Z; rewrite Z in S; discriminate).
        destruct (IH (screenshots ++ [Client.src thumb])) as (added & A & N' & F & C).
        -- apply NoDup_app; [exact N|repeat constructor; intros []|].
           intros x Hx [<-|[]]. now apply NI.
        -- apply Forall_app. split; [exact E|]. now constructor.
        -- exists (Client.src thumb :: added).
           rewrite <- app_assoc in A, N', C. cbn [app] in A, N', C.
           split; [exact A|]. split; [exact N'|]. split.
           ++ constructor.
              ** split; [exact Hne|]. exists thumb. split; [now left|reflexivity].
              ** eapply Forall_impl; [|exact F]. cbv beta.
                 intros s (Hs & t & Ht & Es). split; [exact Hs|].
                 exists t. split; [now right|exact Es].
           ++ intros t [<-|Ht] Hne'; [|now apply C].
              apply in_or_app. right. now left.
    + destruct (IH screenshots N E) as (added & A & N' & F & C).
      exists added. split; [exact A|]. split; [exact N'|]. split.
      * eapply Forall_impl; [|exact F]. cbv beta.
        intros s (Hs & t & Ht & Es). split; [exact Hs|].
        exists t. split; [now right|exact Es].
      * intros t [<-|Ht] Hne; [|now apply C].
        apply nonempty_false_iff in S. congruence.
Qed.

Lemma NoDup_firstn {A} (n : nat) (l : list A) :
  NoDup l -> NoDup (firstn n l).
Proof.
  intros N. rewrite <- (firstn_skipn n l) in N.
  now apply NoDup_app_remove_r in N.
Qed.

(** X20.  The screenshot string joins, with [||], at most five
    addresses, none of them empty and no two of them equal; a non-empty
    default address comes first; every other address is that of a
    thumbnail of the video. *)
Theorem generateScreenshots_shape (default_thumb : option Client.Thumb)
  (thumbs : option (list Client.Thumb)) :
  exists shots,
    MacCMSTransformer.generateScreenshots default_thumb thumbs
    = join (js "||") shots
    /\ (length shots <= 5)%nat
    /\ NoDup shots
    /\ Forall (fun s => s <> []) shots
    /\ (forall s, In s shots ->
          s = MacCMSTransformer.defaultSrc default_thumb
          \/ exists l t, thumbs = Some l /\ In t l /\ Client.src t = s)
    /\ (if nonempty (MacCMSTransformer.defaultSrc default_thumb)
        then hd_error shots = Some (MacCMSTransformer.defaultSrc default_thumb)
        else True).
Proof.
  unfold MacCMSTransformer.generateScreenshots.
  exists (firstn 5 (MacCMSTransformer.screenshotList default_thumb thumbs)).
  split; [reflexivity|]. split; [rewrite length_firstn; lia|].
  unfold MacCMSTransformer.screenshotList.
  set (d := MacCMSTransformer.defaultSrc default_thumb).
  assert (NoDup (if nonempty d then [d] else [])
          /\ Forall (fun s => s <> []) (if nonempty d then [d] else []))
    as [N0 E0].
  { destruct (nonempty d) eqn:D.
    - split; [repeat constructor; intros []|].
      constructor; [|constructor]. intros Z. rewrite Z in D. discriminate.
    - split; constructor. }
  destruct thumbs as [l|].
  - destruct (addThumbs_spec l _ N0 E0) as (added & A & N & F & _).
    rewrite A. refine (conj _ (conj _ (conj _ _))).
    + now apply NoDup_firstn.
    + apply Forall_take, Forall_app. split; [exact E0|].
      eapply Forall_impl; [|exact F]. cbv beta. tauto.
    + intros s Hs.
      assert (In s ((if nonempty d then [d] else []) ++ added)) as Hs'.
      { rewrite <- (firstn_skipn 5 (_ ++ added)). apply in_or_app. now left. }
      apply in_app_or in Hs' as [Hs'|Hs'].
      * left. destruct (nonempty d); [|destruct Hs'].
        destruct Hs' as [<-|[]]. reflexivity.
      * right. rewrite Forall_forall in F.
        destruct (F s Hs') as (_ & t & Ht & Es). now exists l, t.
    + destruct (nonempty d); [reflexivity|exact I].
  - refine (conj _ (conj _ (conj _ _))).
    + now apply NoDup_firstn.
    + now apply Forall_take.
    + intros s Hs. left. destruct (nonempty d); [|destruct Hs].
      destruct Hs as [<-|[]]. reflexivity.
    + destruct (nonempty d); [reflexivity|exact I].
Qed.

(* ================================================================== *)
(** * Durations and tags *)
(* ================================================================== *)

Lemma padStart2_twoDigits (n : Z) :
  0 <= n < 60 -> Client.padStart2 (numberToString n) = twoDigits n.
Proof.
  intros R.
  assert (forallb (fun k => jsstring_eqb
                              (Client.padStart2 (numberToString (Z.of_nat k)))
                              (twoDigits (Z.of_nat k)))
                  (seq 0 60) = true) as F by (vm_compute; reflexivity).
  rewrite forallb_forall in F. specialize (F (Z.to_nat n)).
  rewrite Z2Nat.id in F by lia. apply jsstring_eqb_eq, F, in_seq. lia.
Qed.

(** X21.  A duration that is zero or negative is rendered as unknown.
    A positive one below an hour is rendered as the minutes, a colon and
    the two digits of the seconds; from an hour on as the hours, a colon,
    the two digits of the minutes, a colon and the two digits of the
    seconds.  The fields behind a colon always have exactly two digits. *)
Theorem formatDuration_shape (seconds : Z) :
  (seconds <= 0 -> MacCMSTransformer.formatDuration seconds = js "未知")
  /\ (0 < seconds < 3600 ->
      MacCMSTransformer.formatDuration seconds
      = numberToString (seconds / 60) ++ js ":" ++ twoDigits (seconds mod 60))
  /\ (3600 <= seconds ->
      MacCMSTransformer.formatDuration seconds
      = numberToString (seconds / 3600) ++ js ":"
        ++ twoDigits (seconds mod 3600 / 60) ++ js ":"
        ++ twoDigits (seconds mod 60)).
Proof.
  unfold MacCMSTransformer.formatDuration, Client.formatDuration. cbv zeta.
  refine (conj _ (conj _ _)); intros R.
  - replace ((seconds =? 0) || (seconds <=? 0)) with true; [reflexivity|].
    symmetry. apply orb_true_iff. right. apply Z.leb_le. lia.
  - replace ((seconds =? 0) || (seconds <=? 0)) with false.
    + replace (seconds / 3600 >? 0) with false.
      * rewrite padStart2_twoDigits by divlia.
        now rewrite Z.mod_small by lia.
      * symmetry. rewrite Z.gtb_ltb. apply Z.ltb_ge. divlia.
    + symmetry. apply orb_false_iff.
      split; [apply Z.eqb_neq|apply Z.leb_gt]; lia.
  - replace ((seconds =? 0) || (seconds <=? 0)) with false.
    + replace (seconds / 3600 >? 0) with true.
      * rewrite !padStart2_twoDigits by divlia. reflexivity.
      * symmetry. rewrite Z.gtb_ltb. apply Z.ltb_lt. divlia.
    + symmetry. apply orb_false_iff.
      split; [apply Z.eqb_neq|apply Z.leb_gt]; lia.
Qed.

Lemma formatDuration_shape_witness :
  MacCMSTransformer.formatDuration (-5) = js "未知"
  /\ MacCMSTransformer.formatDuration 125 = js "2:05"
  /\ MacCMSTransformer.formatDuration 3725 = js "1:02:05".
Proof.
  refine (conj _ (conj _ _)).
  - apply (proj1 (formatDuration_shape (-5))). lia.
  - rewrite (proj1 (proj2 (formatDuration_shape 125))) by lia. reflexivity.
  - rewrite (proj2 (proj2 (formatDuration_shape 3725))) by lia. reflexivity.
Defined.

Lemma splitOn_nonempty (isSep : Z -> bool) (s : jsstring) (inRun : bool) :
  Params.splitOn isSep inRun s <> [].
Proof.
  destruct (splitOn_pieces isSep s inRun) as (p & ps & _ & _ & E & _).
  rewrite E. discriminate.
Qed.

Lemma splitOn_free (isSep : Z -> bool) (s : jsstring) :
  forall inRun,
    Forall (fun p => forallb (fun c => negb (isSep c)) p = true)
           (Params.splitOn isSep inRun s).
Proof.
  induction s as [|c s IH]; intros inRun; cbn [Params.splitOn].
  - repeat constructor.
  - destruct (isSep c) eqn:Sep.
    + destruct inRun; [apply IH|]. constructor; [reflexivity|apply IH].
    + specialize (IH false).
      destruct (Params.splitOn isSep false s) as [|p ps].
      * repeat constructor. cbn [forallb]. now rewrite Sep.
      * apply Forall_cons_iff in IH as [Hp Hps]. constructor; [|exact Hps].
        cbn [forallb]. now rewrite Sep, Hp.
Qed.

Lemma splitOn_token (isSep : Z -> bool) (tok s : jsstring) :
  forallb (fun c => negb (isSep c)) tok = true ->
  Params.splitOn isSep false (tok ++ s)
  = (tok ++ hd [] (Params.splitOn isSep false s))
    :: tl (Params.splitOn isSep false s).
Proof.
  induction tok as [|c tok IH]; intros F.
  - cbn [app]. pose proof (splitOn_nonempty isSep s false) as N.
    now destruct (Params.splitOn isSep false s).
  - cbn [forallb] in F. apply andb_true_iff in F as [Fc Ft].
    apply negb_true_iff in Fc. cbn [app Params.splitOn]. rewrite Fc.
    now rewrite (IH Ft).
Qed.

Lemma splitOn_start (isSep : Z -> bool) (c : Z) (s : jsstring) :
  isSep c = false ->
  Params.splitOn isSep true (c :: s) = Params.splitOn isSep false (c :: s).
Proof. intros Sep. cbn [Params.splitOn]. now rewrite Sep. Qed.

(** Splitting the tokens joined by one separator gives the tokens back. *)
Lemma split_join (isSep : Z -> bool) (sep : Z) (toks : list jsstring) :
  isSep sep = true -> toks <> [] ->
  Forall (fun t => t <> [] /\ forallb (fun c => negb (isSep c)) t = true) toks ->
  Params.split isSep (join [sep] toks) = toks.
Proof.
  intros Sep N F. unfold Params.split. revert N.
  induction F as [|tok rest [Ht Hf] F IH]; intros N; [now elim N|].
  destruct rest as [|tok2 rest].
  - cbn [join]. rewrite <- (app_nil_r tok) at 1.
    rewrite (splitOn_token isSep tok [] Hf). cbn [Params.splitOn hd tl].
    now rewrite app_nil_r.
  - change (join [sep] (tok :: tok2 :: rest))
      with (tok ++ [sep] ++ join [sep] (tok2 :: rest)).
    rewrite (splitOn_token isSep tok _ Hf).
    cbn [app Params.splitOn]. rewrite Sep. cbn [hd tl]. rewrite app_nil_r.
    f_equal.
    apply Forall_cons_iff in F as [[Ht2 Hf2] F'].
    rewrite join_cons in *. destruct tok2 as [|c t2]; [congruence|].
    cbn [app] in *. rewrite splitOn_start.
    + apply IH. discriminate.
    + cbn [forallb] in Hf2. apply andb_true_iff in Hf2 as [Hc _].
      now apply negb_true_iff.
Qed.

Lemma separatorFree_no_space (s : jsstring) :
  separatorFree s = true ->
  forallb (fun c => negb (isWhiteSpace c)) s = true.
Proof.
  unfold separatorFree. rewrite !forallb_forall. intros H c Hc.
  specialize (H c Hc). apply negb_true_iff in H. apply negb_true_iff.
  unfold Params.isSeparator in H. apply orb_false_iff in H. tauto.
Qed.

Lemma filter_map_trim (pieces : list jsstring) :
  Forall (fun p => separatorFree p = true) pieces ->
  map trim (firstn 10 (filter (fun tag => nonempty (trim tag)) pieces))
  = firstn 10 (filter nonempty pieces).
Proof.
  intros F.
  assert (filter (fun tag => nonempty (trim tag)) pieces = filter nonempty pieces)
    as ->.
  { induction F as [|p ps Hp _ IH]; [reflexivity|]. cbn [filter].
    rewrite (trim_no_space p (separatorFree_no_space p Hp)). now rewrite IH. }
  assert (Forall (fun p => separatorFree p = true)
                 (firstn 10 (filter nonempty pieces))) as F'.
  { apply Forall_take. rewrite Forall_forall in *. intros p Hp.
    apply filter_In in Hp as [Hp _]. now apply F. }
  induction F' as [|p ps Hp _ IH]; [reflexivity|]. cbn [map].
  rewrite (trim_no_space p (separatorFree_no_space p Hp)). now rewrite IH.
Qed.

Lemma processTags_tagsOf (keywords : jsstring) :
  MacCMSTransformer.processTags keywords = join (js ",") (tagsOf keywords).
Proof.
  unfold MacCMSTransformer.processTags, tagsOf.
  destruct keywords as [|c r]; [reflexivity|]. cbn [nonempty negb].
  rewrite filter_map_trim; [reflexivity|]. apply splitOn_free.
Qed.

Lemma tagsOf_spec (keywords : jsstring) :
  (length (tagsOf keywords) <= 10)%nat
  /\ Forall (fun t => t <> [] /\ separatorFree t = true) (tagsOf keywords)
  /\ occursInOrder (tagsOf keywords) keywords.
Proof.
  unfold tagsOf. refine (conj _ (conj _ _)).
  - rewrite length_firstn. lia.
  - apply Forall_take, Forall_forall. intros t Ht.
    apply filter_In in Ht as [Ht Hn]. split.
    + intros Z. rewrite Z in Hn. discriminate.
    + pose proof (splitOn_free Params.isSeparator keywords false) as F.
      rewrite Forall_forall in F. now apply F.
  - apply occursInOrder_firstn, occursInOrder_filter, split_occursInOrder.
Qed.

(** X22.  The tag string of a video joins, with commas, at most ten
    tags, each of them non-empty and free of separators and white space,
    taken from the keyword text in order.  Processing is idempotent: the
    tag string is its own tag string. *)
Theorem processTags_normal_form (keywords : jsstring) :
  MacCMSTransformer.processTags keywords = join (js ",") (tagsOf keywords)
  /\ (length (tagsOf keywords) <= 10)%nat
  /\ Forall (fun t => t <> [] /\ separatorFree t = true) (tagsOf keywords)
  /\ occursInOrder (tagsOf keywords) keywords
  /\ MacCMSTransformer.processTags (MacCMSTransformer.processTags keywords)
     = MacCMSTransformer.processTags keywords.
Proof.
  destruct (tagsOf_spec keywords) as (L & F & O).
  refine (conj (processTags_tagsOf keywords) (conj L (conj F (conj O _)))).
  rewrite (processTags_tagsOf keywords).
  destruct (tagsOf keywords) as [|tok toks] eqn:T; [reflexivity|].
  rewrite processTags_tagsOf. f_equal. unfold tagsOf at 1.
  change (js ",") with [44].
  rewrite (split_join Params.isSeparator 44 (tok :: toks));
    [|reflexivity|discriminate|exact F].
  assert (filter nonempty (tok :: toks) = tok :: toks) as ->.
  { clear -F. induction F as [|t ts [Ht _] _ IH]; [reflexivity|].
    cbn [filter]. destruct t; [congruence|]. cbn [nonempty]. now rewrite IH. }
  apply firstn_all2. exact L.
Qed.

(* ================================================================== *)
(** * The keyword between the processor and the search handler *)
(* ================================================================== *)

Lemma stripHtmlSpecial_clean (s : jsstring) :
  Forall (fun c => isHtmlSpecial c = false) s -> stripHtmlSpecial s = s.
Proof.
  unfold stripHtmlSpecial. induction 1 as [|c s Hc _ IH]; [reflexivity|].
  cbn [filter]. now rewrite Hc, IH.
Qed.

Lemma trim_length (s : jsstring) : (length (trim s) <= length s)%nat.
Proof.
  destruct (trim_split s) as (a & b & E & _). rewrite E at 2.
  rewrite !length_app. lia.
Qed.

(** X23.  The second cleaning, by the search handler, of a keyword the
    processor has cleaned only trims it.  Hence the handler rejects a
    non-empty parsed keyword as invalid exactly when that keyword is one
    single space, which is what the processor leaves of a text that had
    nothing but white space between removed characters. *)
Theorem sanitizeQuery_of_keyword (raw : option jsstring) (keyword : jsstring) :
  Params.parseKeyword raw = Some keyword ->
  Client.sanitizeQuery keyword = trim keyword
  /\ (keyword <> [] ->
      (Client.sanitizeQuery keyword = [] <-> keyword = js " ")).
Proof.
  intros P. destruct raw as [s|]; [|discriminate].
  rewrite parseKeyword_Some in P. destruct (blank s); [discriminate|].
  assert (keyword = cleaned s) as -> by congruence. clear P.
  destruct (cleaned_properties s) as (L & H & W & S).
  assert (Client.sanitizeQuery (cleaned s) = trim (cleaned s)) as E.
  { unfold Client.sanitizeQuery, substring0.
    rewrite stripHtmlSpecial_clean by now apply trim_Forall.
    apply firstn_all2. pose proof (trim_length (cleaned s)). lia. }
  split; [exact E|]. intros N. rewrite E, trim_nil_iff.
  destruct (cleaned s) as [|c [|d r]]; [congruence| |].
  - split.
    + intros B. cbn [blank forallb] in B. apply andb_true_iff in B as [B _].
      apply Forall_cons_iff in W as [W _]. now rewrite (W B).
    + intros K. now rewrite K.
  - split; [|discriminate].
    intros B. cbn [blank forallb] in B.
    apply andb_true_iff in B as [Bc B]. apply andb_true_iff in B as [Bd _].
    cbn [singleSpaced] in S. rewrite Bc, Bd in S. discriminate S.
Qed.

Lemma sanitizeQuery_of_keyword_witness :
  Client.sanitizeQuery (js "tom jerry") = trim (js "tom jerry")
  /\ Client.sanitizeQuery (js " ") = [].
Proof.
  split.
  - exact (proj1 (sanitizeQuery_of_keyword (Some (js "  tom &  jerry "))
                    (js "tom jerry") eq_refl)).
  - apply (proj2 (sanitizeQuery_of_keyword (Some (js "< >")) (js " ") eq_refl));
      [discriminate|reflexivity].
Defined.

(* ================================================================== *)
(** * Record ids across the pages of a search *)
(* ================================================================== *)




(* ================================================================== *)
(** * What the dispatcher writes to the console *)
(* ================================================================== *)

Lemma retryLoop_console_grows {Env A} (tm : Timer Env) (fn : Async Env A)
  (maxRetries delay backoff : Z) :
  (forall w, console (snd (fn w)) = console w) ->
  forall n attempt lastError w,
    exists entries,
      console (snd (MacCMSRetryHandler.retryLoop tm fn maxRetries delay
                      backoff n attempt lastError w))
      = console w ++ entries.
Proof.
  intros Hfn. induction n as [|n IH]; intros attempt lastError w.
  - exists []. now rewrite app_nil_r.
  - cbn [MacCMSRetryHandler.retryLoop]. pose proof (Hfn w) as F.
    destruct (fn w) as [[error|result] w1]; cbn [snd] in F.
    + destruct (attempt =? maxRetries);
        [exists []; now rewrite app_nil_r|].
      destruct (MacCMSRetryHandler.shouldNotRetry error);
        [exists []; now rewrite app_nil_r|].
      match goal with
      | |- context [MacCMSRetryHandler.retryLoop _ _ _ _ _ n ?a ?l ?w3] =>
        destruct (IH a l w3) as (entries & C)
      end.
      rewrite C. cbn [log console]. rewrite F, <- app_assoc.
      eexists. reflexivity.
    + exists []. now rewrite app_nil_r.
Qed.

Lemma call_console {Env A} (f : Env -> (JsError + A) * Env) (w : World Env) :
  console (snd (call f w)) = console w.
Proof. unfold call. now destruct (f (env w)). Qed.

Lemma recordExecutionTime_console {Env} (tm : Timer Env) (operation : jsstring)
  (startTime : Z) (w : World Env) :
  exists entries,
    console (MacCMSPerformanceMonitor.recordExecutionTime tm operation
               startTime w) = console w ++ entries.
Proof.
  unfold MacCMSPerformanceMonitor.recordExecutionTime.
  destruct (_ >? 5000); cbn [log console].
  - eexists. reflexivity.
  - exists []. now rewrite app_nil_r.
Qed.

Lemma searchAndRender_console {Env} (up : Upstream Env) (q : jsstring)
  (params : Params.ProcessedParams) (metric context : jsstring)
  (startTime : Z) (w : World Env) :
  exists r w' entries,
    searchAndRender up q params metric context startTime w = (inr r, w')
    /\ console w' = console w ++ entries
    /\ (error (MacCMSCacheManager.json r) <> None -> loggedIn entries r).
Proof.
  unfold searchAndRender, MacCMSRetryHandler.withRetry.
  pose proof (withRetry_throws_object (timer up)
                (call (search up q (Params.page params)
                         (Z.min (Params.plimit params) 60) (orderOrLatest params)))
                3 1000 2 w ltac:(lia)) as Hobj.
  destruct (retryLoop_console_grows (timer up)
              (call (search up q (Params.page params)
                       (Z.min (Params.plimit params) 60) (orderOrLatest params)))
              3 1000 2 (call_console _) (Z.to_nat 3) 1 None w) as (l & C).
  unfold MacCMSRetryHandler.withRetry in Hobj.
  destruct (MacCMSRetryHandler.retryLoop _ _ _ _ _ _ _ _ _)
    as [[[e|]|results] w1]; cbn [snd fst] in *.
  - do 2 eexists. exists (l ++ [LogError (handleApiError e (now up w1)) context]).
    split; [reflexivity|]. split.
    + cbn [logError log console]. now rewrite C, <- app_assoc.
    + intros _. exists (handleApiError e (now up w1)), context.
      split; [apply in_or_app; right; now left|reflexivity].
  - now elim Hobj.
  - destruct (recordExecutionTime_console (timer up) metric startTime w1)
      as (l' & C').
    do 2 eexists. exists (l ++ l'). split; [reflexivity|]. split.
    + now rewrite C', C, <- app_assoc.
    + intros N. now elim N.
Qed.

Lemma detailLoop_console {Env} (up : Upstream Env) (ids : list jsstring) :
  forall videoList w,
    exists entries,
      console (snd (detailLoop up ids videoList w)) = console w ++ entries.
Proof.
  induction ids as [|id rest IH]; intros videoList w.
  - exists []. now rewrite app_nil_r.
  - cbn [detailLoop]. unfold MacCMSRetryHandler.withRetry.
    destruct (retryLoop_console_grows (timer up) (call (getVideoById up id))
                2 500 2 (call_console _) (Z.to_nat 2) 1 None w) as (l & C).
    destruct (MacCMSRetryHandler.retryLoop _ _ _ _ _ _ _ _ _)
      as [[[e|]|detail] w1]; cbn [snd] in *.
    + match goal with
      | |- context [detailLoop _ rest ?v ?w2] =>
        destruct (IH v w2) as (l' & C')
      end.
      rewrite C'. cbn [logError log console]. rewrite C, <- !app_assoc.
      eexists. reflexivity.
    + exists l. exact C.
    + destruct (IH (videoList ++ [MacCMSTransformer.transformVideo detail
                                    (orNumber (parseInt id 36) 1)]) w1)
        as (l' & C').
      rewrite C', C, <- app_assoc. eexists. reflexivity.
Qed.

Lemma handleVideoDetail_console {Env} (up : Upstream Env)
  (params : Params.ProcessedParams) (w : World Env) :
  exists entries,
    console (snd (handleVideoDetail up params w)) = console w ++ entries
    /\ (forall info,
          error (MacCMSCacheManager.json (fst (handleVideoDetail up params w)))
          = Some info ->
          e_type info <> VALIDATION ->
          loggedIn entries (fst (handleVideoDetail up params w))).
Proof.
  unfold handleVideoDetail.
  destruct (Params.videoIds params) as [[|id ids]|].
  1, 3: exists []; rewrite app_nil_r; split; [reflexivity|];
    intros info E T; cbn in E; injection E as <-; now elim T.
  rewrite detailLoop_fetchEach, app_nil_l.
  destruct (detailLoop_console up (firstn 10 (id :: ids)) [] w) as (l & C).
  rewrite detailLoop_fetchEach in C. cbn [snd] in C.
  destruct (length (successes _) =? 0)%nat.
  - exists l. split; [exact C|]. intros info E T. cbn in E.
    injection E as <-. now elim T.
  - destruct (recordExecutionTime_console (timer up) (js "video_detail")
                (now up w) (snd (fetchEach up (firstn 10 (id :: ids)) w)))
      as (l' & C').
    exists (l ++ l'). cbn [snd fst]. split.
    + now rewrite C', C, <- app_assoc.
    + intros info E. discriminate E.
Qed.

Lemma GET_rejected {Env} (up : Upstream Env)
  (searchParams : Params.SearchParams) (w : World Env) :
  Params.valid (Params.validateParams
                  (Params.processParams (clock (timer up) (env w)) searchParams))
  = false ->
  GET up searchParams w
  = (MacCMSCacheManager.createCachedResponse
       (createErrorResponse
          (handleValidationError
             match Params.error
                     (Params.validateParams
                        (Params.processParams (clock (timer up) (env w))
                           searchParams)) with
             | Some m => m
             | None => []
             end (now up w))) ct_error,
     logError
       (handleValidationError
          match Params.error
                  (Params.validateParams
                     (Params.processParams (clock (timer up) (env w))
                        searchParams)) with
          | Some m => m
          | None => []
          end (now up w)) (js "Parameter Validation") w).
Proof. intros V. unfold GET. rewrite V. reflexivity. Qed.

Lemma dispatch_returns {Env} (up : Upstream Env)
  (intent : Params.ProcessedParams) (w : World Env) :
  exists response w2, dispatch up intent w = (inr response, w2).
Proof.
  unfold dispatch. destruct (Params.action intent).
  - unfold handleVideoList.
    destruct (searchAndRender_returns up (js "popular") intent
                (js "video_list") (js "Video List") (now up w) w) as (r & E).
    destruct (searchAndRender _ _ _ _ _ _ _) as [x w2]. cbn [fst] in E.
    subst x. now exists r, w2.
  - destruct (handleVideoDetail up intent w) as [r w2]. now exists r, w2.
  - unfold handleVideoSearch.
    destruct (negb (truthy (Params.keyword intent)));
      [eexists _, _; reflexivity|].
    destruct (negb (nonempty (Client.sanitizeQuery _)));
      [eexists _, _; reflexivity|].
    match goal with
    | |- context [searchAndRender up ?q intent ?m ?c ?st w] =>
      destruct (searchAndRender_returns up q intent m c st w) as (r & E)
    end.
    destruct (searchAndRender _ _ _ _ _ _ _) as [x w2]. cbn [fst] in E.
    subst x. now exists r, w2.
  - destruct (handleCategoryList up w) as [r w2]. now exists r, w2.
Qed.

Lemma validateParams_error (p : Params.ProcessedParams) :
  Params.valid (Params.validateParams p) = false ->
  exists message, Params.error (Params.validateParams p) = Some message.
Proof.
  unfold Params.validateParams.
  repeat match goal with
         | |- context [if ?b then _ else _] => destruct b
         end; cbn [Params.valid Params.error]; intros V;
    try discriminate V; eexists; reflexivity.
Qed.

Lemma GET_accepted {Env} (up : Upstream Env)
  (searchParams : Params.SearchParams) (w : World Env) :
  Params.valid (Params.validateParams
                  (Params.processParams (clock (timer up) (env w)) searchParams))
  = true ->
  GET up searchParams w
  = match getCacheTime up (env w) with
    | (inl error, e1) => catchTopLevel up error (now up w) (atEnv w e1)
    | (inr _, e1) =>
      match dispatch up
              (Params.processParams (clock (timer up) (env w)) searchParams)
              (atEnv w e1) with
      | (inl error, w2) => catchTopLevel up error (now up w) w2
      | (inr response, w2) =>
        (response,
         MacCMSPerformanceMonitor.recordExecutionTime (timer up)
           (js "maccms_api_request" ++ js "_"
            ++ actionName
                 (Params.action
                    (Params.processParams (clock (timer up) (env w))
                       searchParams)))
           (now up w)
           (MacCMSPerformanceMonitor.recordExecutionTime (timer up)
              (js "maccms_api_request") (now up w) w2))
      end
    end.
Proof.
  intros V. unfold GET, call, dispatch, atEnv. rewrite V. cbn [negb].
  destruct (getCacheTime up (env w)) as [[e|t] e1]; reflexivity.
Qed.

Lemma dispatch_console {Env} (up : Upstream Env)
  (intent : Params.ProcessedParams) (w1 : World Env) :
  exists response w2 entries,
    dispatch up intent w1 = (inr response, w2)
    /\ console w2 = console w1 ++ entries
    /\ (forall info,
          error (MacCMSCacheManager.json response) = Some info ->
          e_type info <> VALIDATION -> loggedIn entries response).
Proof.
  unfold dispatch. destruct (Params.action intent).
  - destruct (searchAndRender_console up (js "popular") intent (js "video_list")
                (js "Video List") (now up w1) w1) as (r & w2 & l & E & C & L).
    exists r, w2, l. unfold handleVideoList. split; [exact E|].
    split; [exact C|]. intros info Ei _. apply L. congruence.
  - destruct (handleVideoDetail_console up intent w1) as (l & C & L).
    destruct (handleVideoDetail up intent w1) as [r w2]. cbn [fst snd] in *.
    exists r, w2, l. auto.
  - unfold handleVideoSearch.
    destruct (negb (truthy (Params.keyword intent))).
    { eexists _, w1, []. rewrite app_nil_r. split; [reflexivity|].
      split; [reflexivity|]. intros info E T. cbn in E.
      injection E as <-. now elim T. }
    destruct (negb (nonempty (Client.sanitizeQuery _))).
    { eexists _, w1, []. rewrite app_nil_r. split; [reflexivity|].
      split; [reflexivity|]. intros info E T. cbn in E.
      injection E as <-. now elim T. }
    destruct (searchAndRender_console up
                (Client.sanitizeQuery
                   match Params.keyword intent with Some k => k | None => [] end)
                intent (js "video_search") (js "Video Search") (now up w1) w1)
      as (r & w2 & l & E & C & L).
    exists r, w2, l. split; [exact E|].
    split; [exact C|]. intros info Ei _. apply L. congruence.
  - unfold handleCategoryList.
    match goal with
    | |- context [MacCMSPerformanceMonitor.recordExecutionTime ?tm ?op ?st ?x] =>
      destruct (recordExecutionTime_console tm op st x) as (l & C)
    end.
    eexists _, _, l. split; [reflexivity|]. split; [exact C|].
    intros info E. discriminate E.
Qed.

(** X25.  A request only appends to the console.  A request that fails
    validation is logged once, in the context [Parameter Validation].
    Every error response that is not a validation error renders an error
    that has been logged during the request; the validation errors that
    the handlers themselves answer with are the only errors that reach a
    client without being logged. *)
Theorem GET_logs_failures {Env} (up : Upstream Env)
  (searchParams : Params.SearchParams) (w : World Env) :
  let intent := Params.processParams (clock (timer up) (env w)) searchParams in
  exists entries,
    console (snd (GET up searchParams w)) = console w ++ entries
    /\ (Params.valid (Params.validateParams intent) = false ->
        exists message,
          entries = [LogError (handleValidationError message (now up w))
                              (js "Parameter Validation")]
          /\ Params.error (Params.validateParams intent) = Some message)
    /\ (forall info,
          error (MacCMSCacheManager.json (fst (GET up searchParams w)))
          = Some info ->
          e_type info <> VALIDATION ->
          loggedIn entries (fst (GET up searchParams w))).
Proof.
  cbv zeta.
  destruct (Params.valid
              (Params.validateParams
                 (Params.processParams (clock (timer up) (env w)) searchParams)))
    eqn:V.
  - rewrite (GET_accepted up searchParams w V).
    destruct (getCacheTime up (env w)) as [[e|cacheTime] e1].
    + unfold catchTopLevel. cbn [fst snd].
      match goal with
      | |- context [MacCMSPerformanceMonitor.recordExecutionTime ?tm ?op ?st ?w1] =>
        destruct (recordExecutionTime_console tm op st w1) as (l & C)
      end.
      exists ([LogError (handleApiError e (now up (atEnv w e1)))
                        (js "MacCMS API")] ++ l).
      split; [rewrite C; cbn [logError log console atEnv];
              now rewrite <- app_assoc|].
      split; [discriminate|]. intros info _ _.
      eexists _, _. split; [left; reflexivity|reflexivity].
    + destruct (dispatch_console up
                  (Params.processParams (clock (timer up) (env w)) searchParams)
                  (atEnv w e1)) as (response & w2 & entries & D & C & L).
      rewrite D. cbn [fst snd].
      match goal with
      | |- context [MacCMSPerformanceMonitor.recordExecutionTime ?tm ?op2 ?st2
                      (MacCMSPerformanceMonitor.recordExecutionTime ?tm ?op ?st ?x)] =>
        destruct (recordExecutionTime_console tm op st x) as (l1 & C1);
        destruct (recordExecutionTime_console tm op2 st2
                    (MacCMSPerformanceMonitor.recordExecutionTime tm op st x))
          as (l2 & C2)
      end.
      exists (entries ++ l1 ++ l2). split.
      * rewrite C2, C1, C. cbn [atEnv console]. now rewrite <- !app_assoc.
      * split; [discriminate|]. intros info E T.
        destruct (L info E T) as (d & ctx & I & J).
        exists d, ctx. split; [apply in_or_app; now left|exact J].
  - rewrite (GET_rejected up searchParams w V). cbn [fst snd].
    destruct (validateParams_error _ V) as (message & M). rewrite M.
    eexists. split; [reflexivity|]. split.
    + intros _. exists message. split; reflexivity.
    + intros info E T. cbn in E. injection E as <-. now elim T.
Qed.


Lemma GET_logs_failures_witness :
  exists message,
    console (snd (GET mockUpstream (query [("wd", "<>")]) (emptyWorld tt)))
    = [LogError (handleValidationError message 1750000000000)
                (js "Parameter Validation")].
Proof.
  destruct (GET_logs_failures mockUpstream (query [("wd", "<>")]) (emptyWorld tt))
    as (entries & C & V & _).
  destruct (V eq_refl) as (message & E & _).
  exists message. rewrite C, E. reflexivity.
Defined.

Lemma generateCacheKey_keyword_witness :
  Params.generateCacheKey
    (withKeyword (intentOf Params.act_list None 1 20 None) None)
  = Params.generateCacheKey
      (withKeyword (intentOf Params.act_list None 1 20 None) (Some [])).
Proof.
  apply (proj2 (generateCacheKey_keyword (intentOf Params.act_list None 1 20 None)
                  None (Some []))).
  right. split; reflexivity.
Defined.
